(** * CheeseMiss: the news aggregation engine, embedded and verified

    A shallow embedding of the aggregation route ([src/app/api/news/route.ts]),
    of the in-memory rate limiter of the TL;DR route
    ([src/app/api/tldr/route.ts]) and of the RSS keyword classifier
    ([isCorruptionRelated]), followed by the properties the specification
    states about them.

    Conventions.
    - A JavaScript string is a [string]: the UTF-8 bytes of the text.  Case
      folding and the whitespace class are the ASCII ones, which is what the
      JavaScript functions compute on ASCII text.
    - A JavaScript number that holds a count or a millisecond timestamp is a [Z].
    - [undefined], [null] and a missing field are [None]; JavaScript
      truthiness of an optional string is [truthy].
    - A [Map] that the code iterates is an association list in insertion
      order; a [Map] that is only read and written by key is a [gmap].
    - What the platform computes ([new URL], [new Date], [Math.random],
      [Date.now]) and what upstream providers answer are inputs of the model. *)

From Stdlib Require Import ZArith String Ascii List Bool Lia.
From Stdlib Require Import QArith Sorted.
Close Scope Q_scope.
From stdpp Require Import base option list gmap strings.
Import ListNotations.

Local Open Scope string_scope.
Local Open Scope Z_scope.

(** ** JavaScript string primitives *)

Module Js.

(** Truthiness of [string | undefined | null]: only a non-empty string. *)
Definition truthy (o : option string) : bool :=
  match o with
  | Some (String _ _) => true
  | _ => false
  end.

(** [a || b] on optional strings. *)
Definition or_else (a b : option string) : option string :=
  if truthy a then a else b.

(** [(a || '')]. *)
Definition or_empty (a : option string) : string :=
  match a with
  | Some s => s
  | None => ""
  end.

Definition lower_ascii (c : ascii) : ascii :=
  let n := nat_of_ascii c in
  if (Nat.leb 65 n && Nat.leb n 90)%bool then ascii_of_nat (n + 32) else c.

Fixpoint toLowerCase (s : string) : string :=
  match s with
  | EmptyString => EmptyString
  | String c r => String (lower_ascii c) (toLowerCase r)
  end.

(** The regular expression class [\s] and the characters [trim] removes. *)
Definition is_space (c : ascii) : bool :=
  let n := nat_of_ascii c in
  ((Nat.leb 9 n && Nat.leb n 13) || Nat.eqb n 32)%bool.

Fixpoint trimStart (s : string) : string :=
  match s with
  | String c r => if is_space c then trimStart r else s
  | EmptyString => EmptyString
  end.

Fixpoint trimEnd (s : string) : string :=
  match s with
  | EmptyString => EmptyString
  | String c r =>
      match trimEnd r with
      | EmptyString => if is_space c then EmptyString else String c EmptyString
      | r' => String c r'
      end
  end.

Definition trim (s : string) : string := trimEnd (trimStart s).

(** [s.replace(/\s+/g, ' ')]: each maximal run of whitespace becomes one
    space. *)
Fixpoint collapseFrom (inRun : bool) (s : string) : string :=
  match s with
  | EmptyString => EmptyString
  | String c r =>
      if is_space c then
        if inRun then collapseFrom true r
        else String " "%char (collapseFrom true r)
      else String c (collapseFrom false r)
  end.

Definition collapseSpaces (s : string) : string := collapseFrom false s.

Fixpoint startsWith (p s : string) : bool :=
  match p, s with
  | EmptyString, _ => true
  | String a p', String b s' => if Ascii.eqb a b then startsWith p' s' else false
  | String _ _, EmptyString => false
  end.

(** [hay.includes(needle)]. *)
Fixpoint includes (hay needle : string) : bool :=
  if startsWith needle hay then true
  else match hay with
       | EmptyString => false
       | String _ r => includes r needle
       end.

(** [s.split(sep)] for a one-character separator. *)
Fixpoint split (sep : ascii) (s : string) : list string :=
  match s with
  | EmptyString => [EmptyString]
  | String c r =>
      if Ascii.eqb c sep then EmptyString :: split sep r
      else match split sep r with
           | h :: t => String c h :: t
           | [] => [String c EmptyString]
           end
  end.

(** [s.split(sep)[0]]. *)
Definition splitHead (sep : ascii) (s : string) : string :=
  match split sep s with
  | h :: _ => h
  | [] => EmptyString
  end.

Definition strlen (s : string) : Z := Z.of_nat (String.length s).

Definition str_eqb (a b : string) : bool := String.eqb a b.

(** [arr.includes(x)] on an array of strings. *)
Definition arrayIncludes (arr : list string) (x : string) : bool :=
  existsb (str_eqb x) arr.

End Js.

(** ** SHA-1 ([createHash('sha1')]), on the UTF-8 bytes of the key *)

Module Sha1.

Definition w32 (x : Z) : Z := x mod 4294967296.

Definition rotl (n x : Z) : Z :=
  w32 (Z.lor (Z.shiftl x n) (Z.shiftr x (32 - n))).

Definition add32 (a b : Z) : Z := w32 (a + b).

Fixpoint bytes_of (s : string) : list Z :=
  match s with
  | EmptyString => []
  | String c r => Z.of_nat (nat_of_ascii c) :: bytes_of r
  end.

(** Big-endian bytes of [x], [n] of them. *)
Fixpoint be_bytes (n : nat) (x : Z) : list Z :=
  match n with
  | O => []
  | S k => be_bytes k (Z.shiftr x 8) ++ [Z.land x 255]
  end.

(** Padding: a one bit, zeros up to 56 mod 64, the bit length on 64 bits. *)
Definition pad (msg : list Z) : list Z :=
  let len := Z.of_nat (List.length msg) in
  let zeros := Z.to_nat ((55 - len) mod 64) in
  msg ++ [128] ++ repeat 0 zeros ++ be_bytes 8 (8 * len).

Fixpoint words_of (fuel : nat) (bs : list Z) : list Z :=
  match fuel, bs with
  | S k, a :: b :: c :: d :: rest =>
      (Z.shiftl a 24 + Z.shiftl b 16 + Z.shiftl c 8 + d) :: words_of k rest
  | _, _ => []
  end.

Fixpoint chunks (fuel : nat) (ws : list Z) : list (list Z) :=
  match fuel, ws with
  | S k, _ :: _ => firstn 16 ws :: chunks k (skipn 16 ws)
  | _, _ => []
  end.

(** The message schedule, most recent word first: [rev] gives W0..W79. *)
Fixpoint schedule (n : nat) (acc : list Z) : list Z :=
  match n with
  | O => acc
  | S k =>
      let w := rotl 1 (Z.lxor (Z.lxor (nth 2 acc 0) (nth 7 acc 0))
                              (Z.lxor (nth 13 acc 0) (nth 15 acc 0))) in
      schedule k (w :: acc)
  end.

Record state := St { ha : Z; hb : Z; hc : Z; hd : Z; he : Z }.

Definition init : state :=
  St 1732584193 4023233417 2562383102 271733878 3285377520.

Definition lnot32 (x : Z) : Z := Z.lxor x 4294967295.

Definition round (t : Z) (s : state) (w : Z) : state :=
  let '(St a b c d e) := s in
  let '(f, k) :=
    if t <? 20 then (Z.lor (Z.land b c) (Z.land (lnot32 b) d), 1518500249)
    else if t <? 40 then (Z.lxor (Z.lxor b c) d, 1859775393)
    else if t <? 60 then
      (Z.lor (Z.lor (Z.land b c) (Z.land b d)) (Z.land c d), 2400959708)
    else (Z.lxor (Z.lxor b c) d, 3395469782) in
  let tmp := add32 (add32 (add32 (add32 (rotl 5 a) f) e) k) w in
  St tmp a (rotl 30 b) c d.

Fixpoint rounds (t : Z) (ws : list Z) (s : state) : state :=
  match ws with
  | [] => s
  | w :: r => rounds (t + 1) r (round t s w)
  end.

Definition compress (s : state) (block : list Z) : state :=
  let ws := rev (schedule 64 (rev block)) in
  let s' := rounds 0 ws s in
  St (add32 (ha s) (ha s')) (add32 (hb s) (hb s')) (add32 (hc s) (hc s'))
     (add32 (hd s) (hd s')) (add32 (he s) (he s')).

Definition digest_words (msg : string) : list Z :=
  let bs := pad (bytes_of msg) in
  let ws := words_of (List.length bs) bs in
  let s := fold_left compress (chunks (List.length ws) ws) init in
  [ha s; hb s; hc s; hd s; he s].

Definition hex_digit (n : Z) : ascii :=
  if n <? 10 then ascii_of_nat (Z.to_nat (48 + n))
  else ascii_of_nat (Z.to_nat (87 + n)).

Fixpoint hex_of_bytes (bs : list Z) : string :=
  match bs with
  | [] => EmptyString
  | b :: r => String (hex_digit (Z.shiftr b 4))
                (String (hex_digit (Z.land b 15)) (hex_of_bytes r))
  end.

(** [createHash('sha1').update(msg).digest('hex')]. *)
Definition hex (msg : string) : string :=
  hex_of_bytes (concat (map (be_bytes 4) (digest_words msg))).

End Sha1.

(** ** What the platform computes *)

Class Platform := {
  (** [new URL(u).hostname]; [None] when the constructor throws. *)
  url_hostname : string -> option string;
  (** [new Date(s).getTime()]; [None] is [NaN]. *)
  date_time : string -> option Z;
  (** [new Date(s).toISOString()]; [None] when it throws (invalid date). *)
  date_iso : string -> option string
}.

(** A thrown exception carries its message. *)
Inductive Result (A : Type) : Type :=
| Ok (a : A)
| Thrown (msg : string).
Arguments Ok {A} a.
Arguments Thrown {A} msg.

(** Decimal rendering of a length, as in a template literal. *)
Fixpoint decimal_digits (fuel : nat) (n : nat) (acc : string) : string :=
  match fuel with
  | O => acc
  | S f =>
      let d := ascii_of_nat (48 + Nat.modulo n 10) in
      match Nat.div n 10 with
      | O => String d acc
      | q => decimal_digits f q (String d acc)
      end
  end.

Definition string_of_nat (n : nat) : string := decimal_digits (S n) n "".

(** ** The aggregation route: [src/app/api/news/route.ts] *)

Module News.

Inductive Category := FloodControl | Dpwh | CorruptPoliticians | NepoBabies.

Record NewsArticle := {
  id : option string;
  title : string;
  description : string;
  url : option string;
  urlToImage : option string;
  publishedAt : string;
  source_name : string;
  category : Category;
  content : option string
}.

Record NewsResponse := {
  httpStatus : Z;
  status : string;
  totalResults : Z;
  articles : list NewsArticle;
  error : option string;
  providerTrace : option (list string)
}.

Definition PH_OUTLETS : list string :=
  [ "ABS-CBN News"; "GMA News"; "CNN Philippines"; "Philippine Daily Inquirer";
    "Rappler"; "Manila Bulletin"; "Philippine Star"; "The Manila Times";
    "BusinessWorld Philippines"; "SunStar"; "Daily Tribune"; "Manila Standard";
    "One News PH"; "Philippine News Agency (PNA)" ].

Definition PH_DOMAINS : list string :=
  [ "news.abs-cbn.com"; "gmanetwork.com"; "cnnphilippines.com"; "inquirer.net";
    "rappler.com"; "mb.com.ph"; "philstar.com"; "manilatimes.net";
    "businessworldonline.com"; "sunstar.com.ph"; "tribune.net.ph";
    "manilastandard.net"; "onenews.ph"; "pna.gov.ph" ].

Definition DOMAIN_TO_OUTLET : list (string * string) :=
  [ ("news.abs-cbn.com", "ABS-CBN News"); ("gmanetwork.com", "GMA News");
    ("cnnphilippines.com", "CNN Philippines");
    ("inquirer.net", "Philippine Daily Inquirer"); ("rappler.com", "Rappler");
    ("mb.com.ph", "Manila Bulletin"); ("philstar.com", "Philippine Star");
    ("manilatimes.net", "The Manila Times");
    ("businessworldonline.com", "BusinessWorld Philippines");
    ("sunstar.com.ph", "SunStar"); ("tribune.net.ph", "Daily Tribune");
    ("manilastandard.net", "Manila Standard"); ("onenews.ph", "One News PH");
    ("pna.gov.ph", "Philippine News Agency (PNA)") ].

Definition EXCLUDE_DOMAINS : list string :=
  [ "news.google.com"; "news.yahoo.com"; "yahoo.com"; "msn.com";
    "pressreader.com"; "facebook.com"; "twitter.com"; "x.com"; "reddit.com";
    "youtube.com" ].

(** *** The sticky cache *)

Abbreviation CacheKey := string.
Definition CACHE_TTL_MS : Z := 60000.
Definition MAX_CACHE_ENTRIES : nat := 100.

Record CacheEntry := {
  ts : Z;
  cached_articles : list NewsArticle;
  cached_trace : list string
}.

(** [memoryCache]: a [Map] in insertion order. *)
Abbreviation Cache := (list (string * CacheEntry)).

Fixpoint map_get {V : Type} (k : string) (m : list (string * V)) : option V :=
  match m with
  | [] => None
  | (k', v) :: r => if String.eqb k k' then Some v else map_get k r
  end.

Definition map_has {V : Type} (k : string) (m : list (string * V)) : bool :=
  match map_get k m with
  | Some _ => true
  | None => false
  end.

(** [Map.prototype.set]: an existing key keeps its place, a new key goes
    last. *)
Fixpoint map_set {V : Type} (k : string) (v : V) (m : list (string * V))
  : list (string * V) :=
  match m with
  | [] => [(k, v)]
  | (k', v') :: r =>
      if String.eqb k k' then (k, v) :: r else (k', v') :: map_set k v r
  end.

Fixpoint map_delete {V : Type} (k : string) (m : list (string * V))
  : list (string * V) :=
  match m with
  | [] => []
  | (k', v') :: r =>
      if String.eqb k k' then r else (k', v') :: map_delete k r
  end.

Definition getCached (now : Z) (key : CacheKey) (m : Cache) : option CacheEntry :=
  match map_get key m with
  | Some entry => if now - ts entry <? CACHE_TTL_MS then Some entry else None
  | None => None
  end.

(** The scan for the oldest entry: [oldestTs] starts at [Infinity] ([None]),
    and a later entry replaces the candidate only when strictly older. *)
Definition oldest_step (st : option string * option Z) (kv : CacheKey * CacheEntry)
  : option string * option Z :=
  let '(k, v) := kv in
  match snd st with
  | None => (Some k, Some (ts v))
  | Some oldestTs => if ts v <? oldestTs then (Some k, Some (ts v)) else st
  end.

Definition oldestKey (m : Cache) : option string :=
  fst (fold_left oldest_step m (None, None)).

Definition setCached (now : Z) (key : CacheKey) (arts : list NewsArticle)
    (trace : list string) (m : Cache) : Cache :=
  let m1 := map_set key {| ts := now; cached_articles := arts; cached_trace := trace |} m in
  if Nat.ltb MAX_CACHE_ENTRIES (List.length m1) then
    if Js.truthy (oldestKey m1) then map_delete (Js.or_empty (oldestKey m1)) m1
    else m1
  else m1.

(** *** Utilities *)

(** [byUrl] and [byTitle] of the deduplicator: [Map]s in insertion order. *)
Abbreviation Index := (list (string * NewsArticle)).

Section WithPlatform.
Context `{Platform}.

Definition withinWindow (iso : string) (from to : option string) : bool :=
  if (negb (Js.truthy from) && negb (Js.truthy to))%bool then true
  else
    match date_time iso with
    | None => true
    | Some articleTime =>
        let fromOk :=
          if Js.truthy from then
            match date_time (Js.or_empty from) with
            | None => true
            | Some fromTime => negb (articleTime <? fromTime)
            end
          else true in
        let toOk :=
          if Js.truthy to then
            match date_time (Js.or_empty to) with
            | None => true
            | Some toTime => negb (toTime <? articleTime)
            end
          else true in
        if fromOk then toOk else false
    end.

(** [.replace(/^www\./, '')]. *)
Definition strip_www (h : string) : string :=
  if Js.startsWith "www." h then String.substring 4 (String.length h - 4) h
  else h.

Definition getHostname (u : option string) : string :=
  if Js.truthy u then
    match url_hostname (Js.or_empty u) with
    | Some h => strip_www h
    | None => ""
    end
  else "".

(** [DOMAIN_TO_OUTLET[host] || fallback || host || 'Unknown'].  The table
    is a plain object: the two lower-case names it inherits from
    [Object.prototype] yield a value that is not a string ([None]). *)
Definition guessSourceName (u fallback : option string) : option string :=
  let host := getHostname u in
  if Js.arrayIncludes ["constructor"; "__proto__"] host then None
  else
    match map_get host DOMAIN_TO_OUTLET with
    | Some outlet => Some outlet
    | None =>
        if Js.truthy fallback then fallback
        else if Js.truthy (Some host) then Some host
        else Some "Unknown"
    end.

Definition normalizeTitle (t : option string) : string :=
  Js.trim (Js.collapseSpaces (Js.toLowerCase (Js.or_empty t))).

Definition isLocalOutlet (sourceName u : option string) : bool :=
  let host := getHostname u in
  if Js.arrayIncludes PH_DOMAINS host then true
  else
    let src := Js.toLowerCase (Js.or_empty sourceName) in
    (existsb (fun o => Js.str_eqb (Js.toLowerCase o) src) PH_OUTLETS
     || Js.includes src "philippine" || Js.includes src "philippines"
     || Js.includes src "abs-cbn" || Js.includes src "gma"
     || Js.includes src "rappler" || Js.includes src "inquirer"
     || Js.includes src "philstar" || Js.includes src "manila"
     || Js.includes src "cnn philippines" || Js.includes src "sunstar"
     || Js.includes src "businessworld")%bool.

(** *** The deduplicator *)

Definition keyUrl (a : NewsArticle) : string :=
  Js.splitHead "?"%char (Js.or_empty (url a)).

Definition keyTitle (a : NewsArticle) : string :=
  normalizeTitle (Some (title a)).

Definition excluded (a : NewsArticle) : bool :=
  Js.arrayIncludes EXCLUDE_DOMAINS (getHostname (url a)).

Definition nonempty (s : string) : bool := Js.truthy (Some s).

(** One iteration of the first loop, on the pair ([byUrl], [byTitle]). *)
Definition dedupe_step
    (st : list (string * NewsArticle) * list (string * NewsArticle))
    (a : NewsArticle)
  : list (string * NewsArticle) * list (string * NewsArticle) :=
  let '(byUrl, byTitle) := st in
  if excluded a then st
  else if (nonempty (keyUrl a) && negb (map_has (keyUrl a) byUrl))%bool then
    (map_set (keyUrl a) a byUrl, byTitle)
  else if (nonempty (keyTitle a) && negb (map_has (keyTitle a) byTitle))%bool then
    (byUrl, map_set (keyTitle a) a byTitle)
  else st.

(** One iteration of the second loop, on [merged]. *)
Definition merge_step (merged : list NewsArticle) (ta : string * NewsArticle)
  : list NewsArticle :=
  let '(t, art) := ta in
  if existsb (fun m => Js.str_eqb (keyTitle m) t) merged then merged
  else merged ++ [art].

Definition dedupeArticles (items : list NewsArticle) : list NewsArticle :=
  let '(byUrl, byTitle) := fold_left dedupe_step items ([], []) in
  fold_left merge_step byTitle (map snd byUrl).

(** *** What the two loops of the deduplicator maintain *)

(** What the first loop maintains on [byUrl]: each article sits under its own
    canonical URL, which is not empty, and its host is not on the deny-list. *)
Definition url_entry (ka : string * NewsArticle) : Prop :=
  keyUrl (snd ka) = fst ka /\ fst ka <> EmptyString /\ excluded (snd ka) = false.

(** What it maintains on [byTitle]: each article sits under its own normalised
    title, which is not empty, and it either has no canonical URL or one that
    [byUrl] already holds. *)
Definition title_entry (byUrl : Index) (ta : string * NewsArticle) : Prop :=
  keyTitle (snd ta) = fst ta /\ fst ta <> EmptyString
  /\ excluded (snd ta) = false
  /\ (keyUrl (snd ta) = EmptyString \/ In (keyUrl (snd ta)) (map fst byUrl)).

Definition indexes_ok (st : Index * Index) : Prop :=
  Forall url_entry (fst st) /\ List.NoDup (map fst (fst st))
  /\ Forall (title_entry (fst st)) (snd st) /\ List.NoDup (map fst (snd st)).

(** Some article of [merged] has the normalised title [t]: the test of the
    second loop. *)
Definition title_in (merged : list NewsArticle) (t : string) : bool :=
  existsb (fun m => Js.str_eqb (keyTitle m) t) merged.

Definition kept (merged : list NewsArticle) (ta : string * NewsArticle) : bool :=
  negb (title_in merged (fst ta)).

(** *** Categories and stable identifiers *)

Definition category_key (c : Category) : string :=
  match c with
  | FloodControl => "flood-control"
  | Dpwh => "dpwh"
  | CorruptPoliticians => "corrupt-politicians"
  | NepoBabies => "nepo-babies"
  end.

Definition CATEGORY_VALUES : list Category :=
  [FloodControl; Dpwh; CorruptPoliticians; NepoBabies].

Definition normalizeCategoryKey (cat : string) : Category :=
  match List.find (fun c => Js.str_eqb (category_key c) cat) CATEGORY_VALUES with
  | Some c => c
  | None => CorruptPoliticians
  end.

(** [stableId(prefix, url, fallbackKey)]; [rnd] is the string that
    [Math.random().toString(36)] yields in this call. *)
Definition stableKey (u fallbackKey : option string) (rnd : string) : string :=
  if Js.truthy u then Js.or_empty u
  else if Js.truthy fallbackKey then Js.or_empty fallbackKey
  else rnd.

Definition stableId (prefix : string) (u fallbackKey : option string)
    (rnd : string) : string :=
  let hash := String.substring 0 16 (Sha1.hex (stableKey u fallbackKey rnd)) in
  (prefix ++ "_" ++ hash)%string.

(** *** The Tavily adapter's normalisation of one result *)

Record TavilyResult := {
  r_title : option string;
  r_url : option string;
  r_source : option string;
  r_content : option string;
  r_snippet : option string;
  r_published_date : option string
}.

(** The callback of [(data.results || []).map(...)] in [webSearchTavily].
    [nowIso] is [new Date().toISOString()] and [rnd] the random draw of
    this call.  An unparseable [published_date] makes [toISOString] throw;
    a source name that is not a string makes the adapter throw one step
    later, in [isLocalOutlet], and is raised here. *)
Definition tavilyItem (r : TavilyResult) (cat : string) (nowIso rnd : string)
  : Result NewsArticle :=
  let published :=
    if Js.truthy (r_published_date r)
    then date_iso (Js.or_empty (r_published_date r))
    else Some nowIso in
  match published with
  | None => Thrown "Invalid time value"
  | Some publishedAt =>
      match guessSourceName (r_url r) (r_source r) with
      | None => Thrown "(sourceName || '').toLowerCase is not a function"
      | Some sourceName =>
          Ok {| id := Some (stableId "tavily" (r_url r) (r_title r) rnd);
                title := Js.or_empty (Js.or_else (r_title r) (Some ""));
                description :=
                  Js.or_empty (Js.or_else (r_content r)
                                 (Js.or_else (r_snippet r) (Some "No description.")));
                url := r_url r;
                urlToImage := None;
                publishedAt := publishedAt;
                source_name := sourceName;
                category := normalizeCategoryKey cat;
                content :=
                  Js.or_else (r_snippet r) (Js.or_else (r_content r) (Some "")) |}
      end
  end.

(** *** The fallback chain *)

(** [process.env], as far as the chain reads it. *)
Record Env := {
  USE_GEMINI_SEARCH : option string;
  WEB_SEARCH_PROVIDER : option string;
  TAVILY_API_KEY : option string;
  SERPER_API_KEY : option string
}.

(** What each provider adapter does when it is called during one request:
    it resolves to a list of articles or rejects. *)
Record Upstream := {
  searchWithGemini : Result (list NewsArticle);
  webSearchTavily : Result (list NewsArticle);
  webSearchSerper : Result (list NewsArticle);
  fallbackNewsAPISearch : Result (list NewsArticle)
}.

Inductive WebProvider := Tavily | Serper.

Definition web_call (up : Upstream) (p : WebProvider) : Result (list NewsArticle) :=
  match p with
  | Tavily => webSearchTavily up
  | Serper => webSearchSerper up
  end.

Definition pushByName (env : Env) (name : string) : list WebProvider :=
  (if (Js.str_eqb name "tavily" && Js.truthy (TAVILY_API_KEY env))%bool
   then [Tavily] else [])
  ++ (if (Js.str_eqb name "serper" && Js.truthy (SERPER_API_KEY env))%bool
      then [Serper] else []).

Definition tryOrder (env : Env) : list WebProvider :=
  let preferred := Js.toLowerCase (Js.or_empty (WEB_SEARCH_PROVIDER env)) in
  let pushed := if nonempty preferred then pushByName env preferred else [] in
  match pushed with
  | [] =>
      (if Js.truthy (TAVILY_API_KEY env) then [Tavily] else [])
      ++ (if Js.truthy (SERPER_API_KEY env) then [Serper] else [])
  | _ => pushed
  end.

(** The [for (const fn of tryOrder)] loop, with its [break]. *)
Fixpoint web_loop (up : Upstream) (order : list WebProvider)
    (collected : list NewsArticle) (firstError : option string)
  : list NewsArticle * option string :=
  match order with
  | [] => (collected, firstError)
  | fn :: rest =>
      match web_call up fn with
      | Ok res =>
          let collected' := dedupeArticles (collected ++ res) in
          match collected' with
          | _ :: _ => (collected', firstError)
          | [] => web_loop up rest collected' firstError
          end
      | Thrown e =>
          web_loop up rest collected
            (match firstError with Some _ => firstError | None => Some e end)
      end
  end.

Definition searchWithWeb (env : Env) (up : Upstream) : Result (list NewsArticle) :=
  match web_loop up (tryOrder env) [] None with
  | ([], Some e) => Thrown e
  | ([], None) => Thrown "No web search provider available or returned results."
  | (collected, _) => Ok collected
  end.

(** A stage of [GET]: [try { items = await f(); if (items.length) { articles
    = items; trace.push(label:n) } } catch { warn }], run only while
    [articles] is empty. *)
Definition stage (label : string) (call : Result (list NewsArticle))
    (st : list NewsArticle * list string) : list NewsArticle * list string :=
  match fst st with
  | _ :: _ => st
  | [] =>
      match call with
      | Ok (x :: items) =>
          (x :: items,
           (snd st ++ [(label ++ ":" ++ string_of_nat (List.length (x :: items)))%string])%list)
      | Ok [] => st
      | Thrown _ => st
      end
  end.

(** The body of the [try] block of [GET].  [key] is
    [makeKey(parseParams(request))]; [t0] is the clock at the cache lookup
    and [t1] the clock at the cache write.  Nothing in the body throws: every
    adapter call sits in its own [try]/[catch]. *)
Definition GET_body (env : Env) (up : Upstream) (key : CacheKey) (t0 t1 : Z)
    (m : Cache) : Result (NewsResponse * Cache) :=
  let cached := getCached t0 key m in
  let st0 : list NewsArticle * list string := ([], []) in
  let st1 :=
    if Js.str_eqb (Js.or_empty (USE_GEMINI_SEARCH env)) "true"
    then stage "gemini" (searchWithGemini up) st0 else st0 in
  let st2 := stage "web" (searchWithWeb env up) st1 in
  let st3 := stage "newsapi" (fallbackNewsAPISearch up) st2 in
  let st4 :=
    match fst st3, cached with
    | [], Some c => (cached_articles c, (snd st3 ++ ["cache:hit"])%list)
    | _, _ => st3
    end in
  let '(arts, trace) := st4 in
  let m' := match arts with
            | _ :: _ => setCached t1 key arts trace m
            | [] => m
            end in
  Ok ({| httpStatus := 200;
         status := "ok";
         totalResults := Z.of_nat (List.length arts);
         articles := arts;
         error := None;
         providerTrace :=
           Some (match arts, cached with
                 | _ :: _, _ => trace
                 | [], Some c => cached_trace c
                 | [], None => trace
                 end) |}, m').

(** The articles a call contributes: those it resolved to, none when it
    rejected. *)
Definition stage_output (call : Result (list NewsArticle)) : list NewsArticle :=
  match call with
  | Ok items => items
  | Thrown _ => []
  end.

(** [GET]: the [try] block, and the [catch] that answers 502. *)
Definition GET (env : Env) (up : Upstream) (key : CacheKey) (t0 t1 : Z)
    (m : Cache) : NewsResponse * Cache :=
  match GET_body env up key t0 t1 m with
  | Ok r => r
  | Thrown msg =>
      ({| httpStatus := 502;
          status := "error";
          totalResults := 0;
          articles := [];
          error := Some (if nonempty msg then msg
                         else "Service unavailable - upstream providers failed");
          providerTrace := None |}, m)
  end.

End WithPlatform.

End News.

(** ** The per-client rate limiter: [src/app/api/tldr/route.ts] *)

Module Tldr.

(** [RL_WINDOW_SECONDS] and [RL_MAX_REQUESTS], with the defaults the route
    uses when the environment does not override them. *)
Definition RL_WINDOW_SECONDS : Z := 60.
Definition RL_MAX_REQUESTS : Z := 10.

Record Bucket := { count : Z; resetSec : Z }.

Record RateLimitResult := {
  allowed : bool;
  remaining : Z;
  rl_resetSec : Z
}.

Definition MAX_SAFE_INTEGER : Z := 9007199254740991.

(** [Math.floor(Date.now() / 1000)]. *)
Definition nowSec (nowMs : Z) : Z := nowMs / 1000.

(** The in-memory fixed-window limiter; [memBuckets] is threaded through. *)
Definition checkRateLimitMemory (nowMs : Z) (ip : string) (windowSec limit : Z)
    (memBuckets : gmap string Bucket) : RateLimitResult * gmap string Bucket :=
  let fresh := {| count := 0; resetSec := nowSec nowMs + windowSec |} in
  let entry :=
    match memBuckets !! ip with
    | None => fresh
    | Some e => if resetSec e <=? nowSec nowMs then fresh else e
    end in
  let entry := {| count := count entry + 1; resetSec := resetSec entry |} in
  ({| allowed := count entry <=? limit;
      remaining := Z.max 0 (limit - count entry);
      rl_resetSec := resetSec entry |},
   <[ip := entry]> memBuckets).

(** The shared limiter: [upstash] is the answer of the Redis pipeline, the
    counter after [INCR] or a failure, when the route is configured to use
    it. *)
Definition checkRateLimitUpstash (nowMs : Z) (windowSec limit : Z)
    (upstash : Result Z) : Result RateLimitResult :=
  let bucket := nowSec nowMs / windowSec in
  match upstash with
  | Thrown e => Thrown e
  | Ok cnt =>
      Ok {| allowed := cnt <=? limit;
            remaining := Z.max 0 (limit - cnt);
            rl_resetSec := bucket * windowSec + windowSec |}
  end.

Definition checkRateLimit (upstashConfigured : bool) (upstash : Result Z)
    (nowMs : Z) (ip : string) (windowSec limit : Z)
    (memBuckets : gmap string Bucket)
  : Result RateLimitResult * gmap string Bucket :=
  if limit <=? 0 then
    (Ok {| allowed := true; remaining := MAX_SAFE_INTEGER;
           rl_resetSec := nowSec nowMs + windowSec |}, memBuckets)
  else if (upstashConfigured && negb (Js.str_eqb ip "unknown"))%bool then
    (checkRateLimitUpstash nowMs windowSec limit upstash, memBuckets)
  else
    let '(r, m) := checkRateLimitMemory nowMs ip windowSec limit memBuckets in
    (Ok r, m).

Record Request := {
  x_forwarded_for : option string;
  x_real_ip : option string;
  req_ip : option string;
  (** The parsed JSON body; [None] when [request.json()] rejects. *)
  body : option (option string * option string * option string)
}.

Definition getClientIp (req : Request) : string :=
  let viaForwarded :=
    if Js.truthy (x_forwarded_for req)
    then Js.trim (Js.splitHead ","%char (Js.or_empty (x_forwarded_for req)))
    else "" in
  if Js.truthy (Some viaForwarded) then viaForwarded
  else if Js.truthy (x_real_ip req) then Js.trim (Js.or_empty (x_real_ip req))
  else if Js.truthy (req_ip req) then Js.or_empty (req_ip req)
  else "unknown".

(** The JSON payloads the handler sends before it reaches the language
    model.  [tldr_of t d] stands for [generateFallbackTldr(t, d)]. *)
Inductive Payload :=
| ErrorPayload (msg : string)
| FallbackPayload (tldr_of : string * string) (fallback rateLimited : bool).

Inductive Outcome :=
| Reply (httpStatus : Z) (payload : Payload) (headers : option RateLimitResult)
(** The request is within its limit: the handler goes on to the summariser
    with these texts and these rate-limit headers. *)
| Summarise (title description content : string) (rl : RateLimitResult).

(** [POST], up to and including the rate-limit check, for a body whose fields
    are strings or absent, with the default limits and an API key configured.
    [TldrRoute.POST] below is the handler without these restrictions, and
    agrees with this one where both apply. *)
Definition POST (upstashConfigured : bool) (upstash : Result Z) (nowMs : Z)
    (req : Request) (memBuckets : gmap string Bucket)
  : Outcome * gmap string Bucket :=
  match body req with
  | None => (Reply 400 (ErrorPayload "Invalid JSON body") None, memBuckets)
  | Some (t, d, c) =>
      let title := Js.trim (Js.or_empty t) in
      let description := Js.trim (Js.or_empty d) in
      let content :=
        Js.trim (Js.or_empty (Js.or_else c (Js.or_else (Some description) (Some "")))) in
      if (negb (Js.truthy (Some title)) && negb (Js.truthy (Some description)))%bool
      then (Reply 400 (ErrorPayload "Title or description is required") None,
            memBuckets)
      else
        let ip := getClientIp req in
        match checkRateLimit upstashConfigured upstash nowMs ip
                RL_WINDOW_SECONDS RL_MAX_REQUESTS memBuckets with
        | (Thrown _, m) =>
            (Reply 200 (FallbackPayload (title, description) true false) None, m)
        | (Ok rl, m) =>
            if allowed rl then (Summarise title description content rl, m)
            else (Reply 429 (FallbackPayload (title, description) true true)
                    (Some rl), m)
        end
  end.

(** The request carries a title or a description, so it reaches the
    rate-limit check. *)
Definition has_text (req : Request) : bool :=
  match body req with
  | Some (t, d, _) =>
      (Js.truthy (Some (Js.trim (Js.or_empty t)))
       || Js.truthy (Some (Js.trim (Js.or_empty d))))%bool
  | None => false
  end.

(** A run of requests on the in-memory limiter, oldest first; each outcome is
    paired with the client identity it was computed for. *)
Fixpoint serve (reqs : list (Z * Request)) (memBuckets : gmap string Bucket)
  : list (string * Outcome) * gmap string Bucket :=
  match reqs with
  | [] => ([], memBuckets)
  | (nowMs, req) :: rest =>
      let '(o, m1) := POST false (Thrown "Upstash is not configured") nowMs req memBuckets in
      let '(os, m2) := serve rest m1 in
      ((getClientIp req, o) :: os, m2)
  end.

Definition from_client (ip : string) (req : Request) : bool :=
  Js.str_eqb (getClientIp req) ip.

(** The outcomes of the requests of one client, in order. *)
Definition client_outcomes (ip : string) (reqs : list (Z * Request))
    (memBuckets : gmap string Bucket) : list Outcome :=
  map snd (List.filter (fun p => Js.str_eqb (fst p) ip) (fst (serve reqs memBuckets))).

Definition passed (o : Outcome) : bool :=
  match o with
  | Summarise _ _ _ _ => true
  | Reply _ _ _ => false
  end.

Definition rejected429 (o : Outcome) : bool :=
  match o with
  | Reply 429 (FallbackPayload _ true true) (Some rl) => negb (allowed rl)
  | _ => false
  end.

End Tldr.

(** ** The RSS keyword classifier: [isCorruptionRelated] *)

Module Rss.

Import News.

Definition UPDATED_CORRUPTION_KEYWORDS : list (Category * list string) :=
  [ (CorruptPoliticians,
     [ "corrupt"; "corruption"; "plunder"; "malversation"; "kickback"; "bribery";
       "ghost employee"; "anomalous"; "ombudsman"; "sandiganbayan"; "swiss bank";
       "unexplained wealth"; "lifestyle check"; "saln"; "pork barrel"; "pdaf";
       "graft"; "impeachment"; "plunder case"; "arrested mayor"; "arrested governor";
       "anti-graft"; "comelec"; "pcgg"; "marcos wealth"; "hidden assets" ]);
    (Dpwh,
     [ "dpwh"; "ghost project"; "overpriced"; "infrastructure scam"; "road project";
       "bridge anomaly"; "kickback"; "contractor"; "bid rigging"; "coa audit";
       "public works"; "highway corruption"; "construction fraud"; "fake invoice";
       "substandard materials"; "build build build"; "infrastructure corruption";
       "procurement anomaly"; "contract irregularity"; "project overrun" ]);
    (FloodControl,
     [ "flood control"; "dike"; "embankment"; "drainage"; "ghost project";
       "substandard"; "flood mitigation"; "pumping station"; "river dredging";
       "flood management"; "waterway"; "flood infrastructure"; "dam project";
       "retaining wall"; "spillway"; "watershed"; "flood prone"; "sea wall";
       "storm surge"; "flood prevention" ]);
    (NepoBabies,
     [ "political dynasty"; "nepo baby"; "nepo babies"; "politician son";
       "politician daughter"; "luxury car"; "expensive"; "lamborghini"; "ferrari";
       "penthouse"; "shopping spree"; "instagram"; "tiktok"; "lavish lifestyle";
       "family wealth";
       "claudine co"; "gela marasigan"; "gela alonte"; "vern enciso";
       "verniece enciso"; "jammy cruz"; "jasmine chan"; "christine lim";
       "canceled nepo babies"; "cancel nepo babies"; "nepo baby culture";
       "political family"; "dynasty politics"; "inherited power"; "family politics";
       "privileged youth"; "political heir"; "born into politics";
       "political bloodline";
       "designer"; "brand new"; "luxury lifestyle"; "expensive taste";
       "wealthy family"; "private school"; "exclusive"; "high-end"; "premium";
       "lavish"; "extravagant";
       "politician family"; "mayor son"; "governor daughter"; "congressman son";
       "senator daughter"; "luxury watch"; "designer bag"; "private jet"; "yacht";
       "mansion"; "exclusive school"; "abroad vacation"; "expensive jewelry";
       "brand new car"; "lavish wedding"; "luxury hotel"; "five star";
       "first class flight" ]) ].

Definition NAME_BONUS : list string :=
  [ "claudine co"; "gela marasigan"; "gela alonte"; "vern enciso";
    "verniece enciso"; "jammy cruz"; "jasmine chan"; "christine lim" ].

Definition KEY_TERM_BONUS : list string :=
  [ "corruption"; "plunder"; "ghost project"; "kickback"; "malversation"; "dpwh" ].

Definition category_eqb (a b : Category) : bool :=
  Js.str_eqb (category_key a) (category_key b).

(** What one keyword adds to the score of its category. *)
Definition keyword_score (contentLower : string) (cat : Category)
    (keyword : string) : Z :=
  let keywordLower := Js.toLowerCase keyword in
  (if Js.includes contentLower keywordLower then
     1
     + (if (Js.includes keywordLower " " && (8 <? Js.strlen keywordLower))%bool
        then 1 else 0)
     + (if Js.arrayIncludes NAME_BONUS keywordLower then 3 else 0)
     + (if Js.arrayIncludes KEY_TERM_BONUS keywordLower then 2 else 0)
   else 0)
  + (if category_eqb cat NepoBabies then
       let nameParts := Js.split " "%char keywordLower in
       if (Nat.leb 2 (List.length nameParts)
           && forallb (Js.includes contentLower) nameParts)%bool
       then 2 else 0
     else 0).

(** [categoryScores[cat] += d]. *)
Definition add_score (cat : Category) (d : Z) (scores : list (Category * Z))
  : list (Category * Z) :=
  map (fun cs => if category_eqb (fst cs) cat then (fst cs, snd cs + d) else cs)
    scores.

(** [categoryScores] after the special case and the keyword loops, in the
    key order of the object. *)
Definition categoryScores (content : string) : list (Category * Z) :=
  let contentLower := Js.toLowerCase content in
  let scores0 :=
    [ (CorruptPoliticians, 0); (Dpwh, 0); (FloodControl, 0); (NepoBabies, 0) ] in
  let scores1 :=
    if (Js.includes contentLower "cancel" && Js.includes contentLower "nepo")%bool
    then add_score NepoBabies 5 scores0 else scores0 in
  fold_left
    (fun scores entry =>
       fold_left
         (fun scores keyword =>
            add_score (fst entry) (keyword_score contentLower (fst entry) keyword)
              scores)
         (snd entry) scores)
    UPDATED_CORRUPTION_KEYWORDS scores1.

(** [Math.max(...values)]; the maximum of no value is [-Infinity], which
    cannot occur with four categories. *)
Definition maxOf (vs : list Z) : Z :=
  match vs with
  | [] => 0
  | v :: r => fold_left Z.max r v
  end.

(** The position of a category among the keys of [categoryScores]. *)
Definition rank (c : Category) : nat :=
  match c with
  | CorruptPoliticians => 0
  | Dpwh => 1
  | FloodControl => 2
  | NepoBabies => 3
  end.

Record Detection := {
  isRelevant : bool;
  detectedCategory : Category;
  score : Z
}.

Definition decide_category (scores : list (Category * Z)) : Detection :=
  let maxScore := maxOf (map snd scores) in
  let found := List.find (fun cs => snd cs =? maxScore) scores in
  {| isRelevant := 1 <=? maxScore;
     detectedCategory := match found with
                         | Some cs => fst cs
                         | None => CorruptPoliticians
                         end;
     score := maxScore |}.

Definition isCorruptionRelated (content : string) (targetCategory : option string)
  : Detection :=
  decide_category (categoryScores content).

End Rss.

(** ** A concrete platform for worked examples

    [http_hostname] reads the host of a plain [scheme://host/path?query] URL
    and [iso_time] reads a timestamp in the form [toISOString] prints
    ([YYYY-MM-DDTHH:MM:SS.sssZ] with a day that exists in the month); on
    such inputs they agree with [new URL] and [new Date]. *)

Module Demo.

Fixpoint after_scheme (s : string) : option string :=
  if Js.startsWith "://" s then Some (String.substring 3 (String.length s - 3) s)
  else match s with
       | EmptyString => None
       | String _ r => after_scheme r
       end.

Fixpoint take_host (s : string) : string :=
  match s with
  | EmptyString => EmptyString
  | String c r =>
      if existsb (Ascii.eqb c) ["/"; "?"; "#"; ":"]%char then EmptyString
      else String c (take_host r)
  end.

Definition http_hostname (u : string) : option string :=
  match after_scheme u with
  | Some rest =>
      let h := Js.toLowerCase (take_host rest) in
      if Js.truthy (Some h) then Some h else None
  | None => None
  end.

Definition digit (c : ascii) : option Z :=
  let n := nat_of_ascii c in
  if (Nat.leb 48 n && Nat.leb n 57)%bool then Some (Z.of_nat (n - 48)) else None.

Fixpoint number (s : string) (acc : Z) : option Z :=
  match s with
  | EmptyString => Some acc
  | String c r =>
      match digit c with
      | Some d => number r (10 * acc + d)
      | None => None
      end
  end.

Definition field (s : string) (pos len : nat) : option Z :=
  number (String.substring pos len s) 0.

Definition days_from_civil (y m d : Z) : Z :=
  let y' := if m <=? 2 then y - 1 else y in
  let era := y' / 400 in
  let yoe := y' - era * 400 in
  let doy := (153 * (if 2 <? m then m - 3 else m + 9) + 2) / 5 + d - 1 in
  let doe := yoe * 365 + yoe / 4 - yoe / 100 + doy in
  era * 146097 + doe - 719468.

Definition punctuation_ok (s : string) : bool :=
  (Nat.eqb (String.length s) 24
   && Js.str_eqb (String.substring 4 1 s) "-"
   && Js.str_eqb (String.substring 7 1 s) "-"
   && Js.str_eqb (String.substring 10 1 s) "T"
   && Js.str_eqb (String.substring 13 1 s) ":"
   && Js.str_eqb (String.substring 16 1 s) ":"
   && Js.str_eqb (String.substring 19 1 s) "."
   && Js.str_eqb (String.substring 23 1 s) "Z")%bool.

Definition leap_year (y : Z) : bool :=
  (((y mod 4 =? 0) && negb (y mod 100 =? 0)) || (y mod 400 =? 0))%bool.

Definition days_in_month (y mo : Z) : Z :=
  if mo =? 2 then (if leap_year y then 29 else 28)
  else if ((mo =? 4) || (mo =? 6) || (mo =? 9) || (mo =? 11))%bool then 30
  else 31.

Definition iso_time (s : string) : option Z :=
  if punctuation_ok s then
    match field s 0 4, field s 5 2, field s 8 2,
          field s 11 2, field s 14 2, field s 17 2, field s 20 3 with
    | Some y, Some mo, Some d, Some h, Some mi, Some sec, Some ms =>
        if ((1 <=? mo) && (mo <=? 12) && (1 <=? d) && (d <=? days_in_month y mo)
            && (h <=? 23) && (mi <=? 59) && (sec <=? 59))%bool
        then Some ((((days_from_civil y mo d * 24 + h) * 60 + mi) * 60 + sec) * 1000 + ms)
        else None
    | _, _, _, _, _, _, _ => None
    end
  else None.

(** Sample data for the worked examples. *)
Definition article (t u : string) : News.NewsArticle :=
  {| News.id := None; News.title := t; News.description := "No description.";
     News.url := Some u; News.urlToImage := None;
     News.publishedAt := "2025-09-15T12:34:56.789Z"; News.source_name := "Rappler";
     News.category := News.FloodControl; News.content := None |}.

Definition audit_story : News.NewsArticle :=
  article "COA flags flood control project"
    "https://www.rappler.com/nation/flood-control-audit".

Definition all_rejecting : News.Upstream :=
  {| News.searchWithGemini := Thrown "Gemini API key missing";
     News.webSearchTavily := Thrown "503 Service Unavailable";
     News.webSearchSerper := Ok [];
     News.fallbackNewsAPISearch := Thrown "NewsAPI not configured" |}.

Definition newsapi_only : News.Upstream :=
  {| News.searchWithGemini := Thrown "Gemini API key missing";
     News.webSearchTavily := Thrown "503 Service Unavailable";
     News.webSearchSerper := Ok [];
     News.fallbackNewsAPISearch := Ok [audit_story] |}.

Definition keyed_env (preferred : option string) : News.Env :=
  {| News.USE_GEMINI_SEARCH := Some "true"; News.WEB_SEARCH_PROVIDER := preferred;
     News.TAVILY_API_KEY := Some "tvly-key"; News.SERPER_API_KEY := Some "serper-key" |}.

Definition request (client title : string) : Tldr.Request :=
  {| Tldr.x_forwarded_for := Some client; Tldr.x_real_ip := None; Tldr.req_ip := None;
     Tldr.body := Some (Some title, None, None) |}.

(** Ten requests of one client between seconds 2 and 11, with two requests
    of another client in between. *)
Definition burst : list (Z * Tldr.Request) :=
  [ (2000, request "203.0.113.7" "Audit finds ghost project");
    (3000, request "203.0.113.7" "Audit finds ghost project");
    (3500, request "198.51.100.2" "Mayor arrested");
    (4000, request "203.0.113.7" "Audit finds ghost project");
    (5000, request "203.0.113.7" "Audit finds ghost project");
    (6000, request "203.0.113.7" "Audit finds ghost project");
    (7000, request "203.0.113.7" "Audit finds ghost project");
    (7500, request "198.51.100.2" "Mayor arrested");
    (8000, request "203.0.113.7" "Audit finds ghost project");
    (9000, request "203.0.113.7" "Audit finds ghost project");
    (10000, request "203.0.113.7" "Audit finds ghost project");
    (11000, request "203.0.113.7" "Audit finds ghost project") ].

#[export] Instance platform : Platform := {|
  url_hostname := http_hostname;
  date_time := iso_time;
  date_iso := fun s => match iso_time s with Some _ => Some s | None => None end
|}.

End Demo.

(** ** Shapes of the strings the route produces *)

Module Shape.

(** Every character of [s] satisfies [p]. *)
Fixpoint all_chars (p : ascii -> bool) (s : string) : bool :=
  match s with
  | EmptyString => true
  | String c r => (p c && all_chars p r)%bool
  end.

(** A digit of a lower-case hexadecimal number. *)
Definition is_hex_digit (c : ascii) : bool :=
  let n := nat_of_ascii c in
  ((Nat.leb 48 n && Nat.leb n 57) || (Nat.leb 97 n && Nat.leb n 102))%bool.



(** The only white space of [s] is single spaces between other characters;
    with [inRun] the string must not start with one. *)
Fixpoint single_spaced (inRun : bool) (s : string) : bool :=
  match s with
  | EmptyString => true
  | String c r =>
      if Js.is_space c
      then (Ascii.eqb c " " && negb inRun && single_spaced true r)%bool
      else single_spaced false r
  end.

Definition first_is_space (s : string) : bool :=
  match s with
  | String c _ => Js.is_space c
  | EmptyString => false
  end.


End Shape.

(** ** The earlier news handler kept beside the TL;DR route and in the RSS
    file ([src/app/api/tldr/route.ts] from line 316, [unnamed/part_005] up to
    line 786) *)

Module Legacy.

(** [a < b] on numbers that are finite or [NaN] ([None]): a comparison with
    [NaN] is false. *)
Definition nan_lt (a b : option Z) : bool :=
  match a, b with
  | Some x, Some y => x <? y
  | _, _ => false
  end.

Section WithPlatform.
Context `{Platform}.

Definition withinWindow (iso : string) (from to : option string) : bool :=
  if (negb (Js.truthy from) && negb (Js.truthy to))%bool then true
  else
    let t := date_time iso in
    if (Js.truthy from && nan_lt t (date_time (Js.or_empty from)))%bool then false
    else if (Js.truthy to && nan_lt (date_time (Js.or_empty to)) t)%bool then false
    else true.

(** The earlier [GET]: a provider is tried only when the one before it
    rejected, and the rejection of the last one reaches the [catch] branch. *)
Definition GET (env : News.Env) (up : News.Upstream) : News.NewsResponse :=
  let web_then_newsapi :=
    match News.searchWithWeb env up with
    | Ok articles => Ok articles
    | Thrown _ => News.fallbackNewsAPISearch up
    end in
  let outcome :=
    if Js.str_eqb (Js.or_empty (News.USE_GEMINI_SEARCH env)) "true" then
      match News.searchWithGemini up with
      | Ok articles => Ok articles
      | Thrown _ => web_then_newsapi
      end
    else web_then_newsapi in
  match outcome with
  | Ok articles =>
      {| News.httpStatus := 200; News.status := "ok";
         News.totalResults := Z.of_nat (List.length articles);
         News.articles := articles; News.error := None;
         News.providerTrace := None |}
  | Thrown message =>
      {| News.httpStatus := 502; News.status := "error";
         News.totalResults := 0; News.articles := []; 
         News.error :=
           Some (Js.or_empty
                   (Js.or_else (Some message)
                      (Some "Service unavailable - upstream providers failed")));
         News.providerTrace := None |}
  end.

End WithPlatform.

End Legacy.

(** ** The RSS route: its cache, its deduplicator and its handler *)

Module RssRoute.

Import News.

Definition CACHE_TTL_MS : Z := 300000.
Definition MAX_CACHE_ENTRIES : nat := 200.

Definition getCached (now : Z) (key : string) (m : Cache) : option CacheEntry :=
  match map_get key m with
  | Some entry => if now - ts entry <? CACHE_TTL_MS then Some entry else None
  | None => None
  end.

(** [entries.sort(([,a], [,b]) => a.ts - b.ts)]: the sort is stable, so among
    entries of equal timestamp the insertion order of the [Map] is kept. *)
Fixpoint insert_by_ts (x : string * CacheEntry) (l : list (string * CacheEntry))
  : list (string * CacheEntry) :=
  match l with
  | [] => [x]
  | y :: r => if ts (snd x) <=? ts (snd y) then x :: l else y :: insert_by_ts x r
  end.

Definition sort_by_ts (m : Cache) : list (string * CacheEntry) :=
  fold_right insert_by_ts [] m.

(** [setCached]; the sorted array is not empty when the size test passed. *)
Definition setCached (now : Z) (key : string) (arts : list NewsArticle)
    (trace : list string) (m : Cache) : Cache :=
  let m1 := map_set key {| ts := now; cached_articles := arts; cached_trace := trace |} m in
  if Nat.ltb MAX_CACHE_ENTRIES (List.length m1) then
    match sort_by_ts m1 with
    | (oldestKey, _) :: _ => map_delete oldestKey m1
    | [] => m1
    end
  else m1.

(** The key of [dedupeArticles]: lower-cased, trimmed title and source name. *)
Definition dedupeKey (a : NewsArticle) : string :=
  (Js.trim (Js.toLowerCase (title a)) ++ "_" ++ source_name a)%string.

(** One iteration of the loop, on ([seen], [unique]). *)
Definition dedupe_step (st : gset string * list NewsArticle) (item : NewsArticle)
  : gset string * list NewsArticle :=
  if decide (dedupeKey item ∈ fst st) then st
  else ({[ dedupeKey item ]} ∪ fst st, (snd st ++ [item])%list).

Definition dedupeArticles (items : list NewsArticle) : list NewsArticle :=
  snd (fold_left dedupe_step items (∅, [])).

(** [GET]: [rss] is what [searchWithRSS] does when it is called; [t0] is the
    clock at the cache lookup and [t1] the clock at the cache write. *)
Definition GET (rss : Result (list NewsArticle)) (key : string) (t0 t1 : Z) (m : Cache)
  : NewsResponse * Cache :=
  match getCached t0 key m with
  | Some cached =>
      ({| httpStatus := 200; status := "ok";
          totalResults := Z.of_nat (List.length (cached_articles cached));
          articles := cached_articles cached; error := None;
          providerTrace := Some (cached_trace cached ++ ["cache:hit"])%list |}, m)
  | None =>
      let '(arts, trace) :=
        match rss with
        | Ok (x :: l) =>
            (x :: l, [("rss:" ++ string_of_nat (List.length (x :: l)))%string])
        | Ok [] => ([], [])
        | Thrown _ => ([], ["rss:failed"])
        end in
      let m' := match arts with
                | _ :: _ => setCached t1 key arts trace m
                | [] => m
                end in
      ({| httpStatus := 200; status := "ok";
          totalResults := Z.of_nat (List.length arts);
          articles := arts; error := None; providerTrace := Some trace |}, m')
  end.

End RssRoute.

(** ** Request parameters of the aggregation route *)

Module Params.

(** A JavaScript number as [Number(...)] yields it: not-a-number, an
    infinity, or a finite value (a double is a rational). *)
Inductive JsNumber := NaN | PosInfinity | NegInfinity | Finite (q : Q).

(** [url.searchParams], as far as [parseParams] reads it; [sp.get] yields
    [null] for an absent parameter. *)
Record SearchParams := {
  sp_category : option string;
  sp_q : option string;
  sp_from : option string;
  sp_to : option string;
  sp_page : option string;
  sp_pageSize : option string
}.

Record Parsed := {
  category : string;
  query : option string;
  from : option string;
  to : option string;
  page : Q;
  pageSize : Q
}.

Definition VALID_CATEGORIES : list string :=
  "all" :: map News.category_key News.CATEGORY_VALUES.

(** [Math.max(a, x)] and [Math.min(a, x)] on finite numbers. *)
Definition js_max (a x : Q) : Q := if Qle_bool a x then x else a.
Definition js_min (a x : Q) : Q := if Qle_bool x a then x else a.

Section WithPlatform.
Context `{Platform}.

(** [Number(...)], the conversion of a parameter text. *)
Variable Number : string -> JsNumber.

(** [isIso]: an absent or empty bound passes, any other must parse. *)
Definition isIso (v : option string) : bool :=
  if Js.truthy v then
    match date_time (Js.or_empty v) with
    | Some _ => true
    | None => false
    end
  else true.

Definition parseParams (sp : SearchParams) : Parsed :=
  let rawCategory := Js.or_empty (Js.or_else (sp_category sp) (Some "all")) in
  let category :=
    if Js.arrayIncludes VALID_CATEGORIES rawCategory then rawCategory else "all" in
  let page :=
    match Number (Js.or_empty (Js.or_else (sp_page sp) (Some "1"))) with
    | Finite q => if Qle_bool 1 q then q else 1%Q
    | _ => 1%Q
    end in
  let pageSize :=
    match Number (Js.or_empty (Js.or_else (sp_pageSize sp) (Some "20"))) with
    | Finite q => q
    | _ => 20%Q
    end in
  {| category := category;
     query := sp_q sp;
     from := if isIso (sp_from sp) then sp_from sp else None;
     to := if isIso (sp_to sp) then sp_to sp else None;
     page := page;
     pageSize := js_min 50 (js_max 1 pageSize) |}.

End WithPlatform.

End Params.

(** ** The TL;DR route: the whole handler up to the call of the language model *)

Module TldrRoute.

(** A field of the JSON body as the handler reads it with [body.title ||
    '']. *)
Inductive Field :=
(** [undefined]: the key is absent, or the body is a number, a string, a
    boolean or an array. *)
| Missing
(** A string. *)
| Text (s : string)
(** A falsy value that is not a string: [null], [false], [0]. *)
| FalsyOther
(** A truthy value that is not a string: a non-zero number, [true], an
    object, an array.  It has no [trim] method. *)
| TruthyOther.

(** What [request.json()] yields. *)
Inductive Body :=
(** The promise rejects: the text is not JSON. *)
| Unparsable
(** The JSON text [null]: reading a field of it throws. *)
| Null
| Fields (title description content : Field).

Record Request := {
  x_forwarded_for : option string;
  x_real_ip : option string;
  req_ip : option string;
  body : Body
}.

(** [process.env] and the constants the module computes from it when it is
    loaded; the limits are numbers (60 and 10 unless overridden). *)
Record Config := {
  GEMINI_API_KEY : option string;
  (** [UPSTASH_URL && UPSTASH_TOKEN]. *)
  upstashConfigured : bool;
  RL_WINDOW_SECONDS : Z;
  RL_MAX_REQUESTS : Z
}.

Inductive Outcome :=
| Reply (httpStatus : Z) (payload : Tldr.Payload) (headers : option Tldr.RateLimitResult)
(** An exception leaves the [catch] block: the promise of [POST] rejects. *)
| Rejects (message : string)
(** The handler builds the prompt and calls the language model; what follows
    is not part of this model. *)
| CallsGemini (title description content : string) (rl : Tldr.RateLimitResult).

Definition getClientIp (req : Request) : string :=
  Tldr.getClientIp
    {| Tldr.x_forwarded_for := x_forwarded_for req; Tldr.x_real_ip := x_real_ip req;
       Tldr.req_ip := req_ip req; Tldr.body := None |}.

(** [(v || '').trim()]. *)
Definition trimmed (v : Field) : Result string :=
  match v with
  | Text s => Ok (Js.trim s)
  | Missing | FalsyOther => Ok ""
  | TruthyOther => Thrown "(intermediate value).trim is not a function"
  end.

(** [(body.content || description || '').trim()]. *)
Definition content_of (c : Field) (description : string) : Result string :=
  match c with
  | Text (String a r) => Ok (Js.trim (String a r))
  | TruthyOther => Thrown "(intermediate value).trim is not a function"
  | Text EmptyString | Missing | FalsyOther => Ok (Js.trim description)
  end.

(** [{ tldr: generateFallbackTldr(title, description), fallback: true }], with
    [rateLimited: true] on a refusal. *)
Definition fallback (title description : string) (rateLimited : bool) : Tldr.Payload :=
  Tldr.FallbackPayload (title, description) true rateLimited.

(** [POST].  An exception in the [try] block is caught by the outer [catch],
    which computes [title] and [description] again, with [body?.title], and
    answers 200 with the heuristic summary and no rate-limit header. *)
Definition POST (cfg : Config) (upstash : Result Z) (nowMs : Z) (req : Request)
    (memBuckets : gmap string Tldr.Bucket) : Outcome * gmap string Tldr.Bucket :=
  match body req with
  | Unparsable => (Reply 400 (Tldr.ErrorPayload "Invalid JSON body") None, memBuckets)
  | Null => (Reply 200 (fallback "" "" false) None, memBuckets)
  | Fields t d c =>
      match trimmed t with
      | Thrown e => (Rejects e, memBuckets)
      | Ok title =>
          match trimmed d with
          | Thrown e => (Rejects e, memBuckets)
          | Ok description =>
              match content_of c description with
              | Thrown _ => (Reply 200 (fallback title description false) None, memBuckets)
              | Ok content =>
                  if (negb (Js.truthy (Some title))
                      && negb (Js.truthy (Some description)))%bool
                  then (Reply 400 (Tldr.ErrorPayload "Title or description is required")
                          None, memBuckets)
                  else
                    match Tldr.checkRateLimit (upstashConfigured cfg) upstash nowMs
                            (getClientIp req) (RL_WINDOW_SECONDS cfg)
                            (RL_MAX_REQUESTS cfg) memBuckets with
                    | (Thrown _, m) =>
                        (Reply 200 (fallback title description false) None, m)
                    | (Ok rl, m) =>
                        if negb (Tldr.allowed rl)
                        then (Reply 429 (fallback title description true) (Some rl), m)
                        else if negb (Js.truthy (GEMINI_API_KEY cfg))
                        then (Reply 200 (fallback title description false) (Some rl), m)
                        else (CallsGemini title description content rl, m)
                    end
              end
          end
      end
  end.

(** The requests and the configuration that [Tldr.POST] covers: a body whose
    fields are strings or absent, the default limits, an API key. *)
Definition of_option (v : option string) : Field :=
  match v with
  | Some s => Text s
  | None => Missing
  end.

Definition of_request (req : Tldr.Request) : Request :=
  {| x_forwarded_for := Tldr.x_forwarded_for req; x_real_ip := Tldr.x_real_ip req;
     req_ip := Tldr.req_ip req;
     body := match Tldr.body req with
             | None => Unparsable
             | Some (t, d, c) => Fields (of_option t) (of_option d) (of_option c)
             end |}.

Definition defaults (upstash : bool) : Config :=
  {| GEMINI_API_KEY := Some "key"; upstashConfigured := upstash;
     RL_WINDOW_SECONDS := Tldr.RL_WINDOW_SECONDS;
     RL_MAX_REQUESTS := Tldr.RL_MAX_REQUESTS |}.

Definition of_outcome (o : Tldr.Outcome) : Outcome :=
  match o with
  | Tldr.Reply s p h => Reply s p h
  | Tldr.Summarise t d c rl => CallsGemini t d c rl
  end.

End TldrRoute.

(** ** Invariants and samples used by the further properties *)

Module Inv.

(** What every write keeps of [memoryCache]: at most [MAX_CACHE_ENTRIES]
    entries, one per key, no empty key. *)
Definition cache_ok (m : News.Cache) : Prop :=
  (List.length m <= News.MAX_CACHE_ENTRIES)%nat
  /\ List.NoDup (map fst m)
  /\ ~ In EmptyString (map fst m).

(** The API key that [searchWithWeb] requires before it calls a provider. *)
Definition api_key (env : News.Env) (p : News.WebProvider) : option string :=
  match p with
  | News.Tavily => News.TAVILY_API_KEY env
  | News.Serper => News.SERPER_API_KEY env
  end.

Definition is_thrown {A : Type} (r : Result A) : bool :=
  match r with
  | Thrown _ => true
  | Ok _ => false
  end.

(** [categoryScores[cat]]. *)
Definition score_of (c : News.Category) (scores : list (News.Category * Z)) : Z :=
  match List.find (fun cs => Rss.category_eqb (fst cs) c) scores with
  | Some cs => snd cs
  | None => 0
  end.

(** The loop of [isCorruptionRelated] over the keywords of one category, and
    its loop over the categories. *)
Definition keywords_loop (cl : string) (cat : News.Category) (kws : list string)
    (s : list (News.Category * Z)) : list (News.Category * Z) :=
  fold_left (fun scores keyword =>
               Rss.add_score cat (Rss.keyword_score cl cat keyword) scores) kws s.

Definition entries_loop (cl : string) (tbl : list (News.Category * list string))
    (s : list (News.Category * Z)) : list (News.Category * Z) :=
  fold_left (fun scores entry => keywords_loop cl (fst entry) (snd entry) scores) tbl s.

(** The first entry of minimal timestamp, with that timestamp. *)
Fixpoint first_min (m : News.Cache) : option (string * Z) :=
  match m with
  | [] => None
  | (k, e) :: r =>
      match first_min r with
      | None => Some (k, News.ts e)
      | Some (k', t') => if News.ts e <=? t' then Some (k, News.ts e) else Some (k', t')
      end
  end.

(** The articles whose key is not in [seen] and not carried by an earlier
    article of the list. *)
Fixpoint keep_first (seen : gset string) (items : list News.NewsArticle)
  : list News.NewsArticle :=
  match items with
  | [] => []
  | x :: r =>
      if decide (RssRoute.dedupeKey x ∈ seen) then keep_first seen r
      else x :: keep_first ({[ RssRoute.dedupeKey x ]} ∪ seen) r
  end.

(** The client identities of the requests that reach the rate-limit check. *)
Definition limited_clients (reqs : list (Z * Tldr.Request)) : gset string :=
  list_to_set
    (map (fun tr => Tldr.getClientIp (snd tr))
       (List.filter (fun tr => Tldr.has_text (snd tr)) reqs)).

End Inv.

(** ** The provider adapters of the aggregation route *)

Module Adapters.

Import News.

(** [arr.slice(0, end)] for an integral [end]. *)
Definition slice_to {A : Type} (end_ : Z) (l : list A) : list A :=
  let len := Z.of_nat (List.length l) in
  let final := if end_ <? 0 then Z.max (len + end_) 0 else Z.min end_ len in
  firstn (Z.to_nat final) l.

(** [arr.map(f)] with a callback that may throw: the first exception ends
    the map.  The callback receives the index. *)
Fixpoint mapResults {A : Type} (f : nat -> A -> Result NewsArticle) (i : nat)
    (rs : list A) : Result (list NewsArticle) :=
  match rs with
  | [] => Ok []
  | r :: rest =>
      match f i r with
      | Thrown e => Thrown e
      | Ok a =>
          match mapResults f (S i) rest with
          | Thrown e => Thrown e
          | Ok l => Ok (a :: l)
          end
      end
  end.

Record SerperNewsItem := {
  s_title : option string;
  s_snippet : option string;
  s_link : option string;
  s_source : option string;
  s_date : option string;
  s_imageUrl : option string
}.

Section WithPlatform.
Context `{Platform}.

(** The two filters every adapter applies to the mapped results. *)
Definition localInWindow (from to : option string) (mapped : list NewsArticle)
  : list NewsArticle :=
  List.filter (fun a => withinWindow (publishedAt a) from to)
    (List.filter (fun a => isLocalOutlet (Some (source_name a)) (url a)) mapped).

(** One pass of [webSearchTavily]: the answer of the search API, mapped and
    filtered.  [nowIso i] and [rnd i] are the clock reading and the random
    draw available to the callback at index [i]. *)
Definition tavilyPass (cat : string) (from to : option string)
    (nowIso rnd : nat -> string) (answer : Result (list TavilyResult))
  : Result (list NewsArticle) :=
  match answer with
  | Thrown e => Thrown e
  | Ok results =>
      match mapResults (fun i r => tavilyItem r cat (nowIso i) (rnd i)) 0 results with
      | Thrown e => Thrown e
      | Ok mapped => Ok (localInWindow from to mapped)
      end
  end.

(** [webSearchTavily]; [pass1] is the answer to the request restricted to the
    curated domains, [pass2] the answer to the widened request, which is only
    sent when the first pass leaves nothing.  Each pass has its own clock
    readings and random draws. *)
Definition webSearchTavily (env : Env) (cat : string) (from to : option string)
    (pageSize : Z) (nowIso rnd nowIso2 rnd2 : nat -> string)
    (pass1 pass2 : Result (list TavilyResult)) : Result (list NewsArticle) :=
  if negb (Js.truthy (TAVILY_API_KEY env)) then Thrown "Tavily API not configured"
  else
    match tavilyPass cat from to nowIso rnd pass1 with
    | Thrown e => Thrown e
    | Ok [] =>
        match tavilyPass cat from to nowIso2 rnd2 pass2 with
        | Thrown e => Thrown e
        | Ok items => Ok (slice_to pageSize (dedupeArticles items))
        end
    | Ok items => Ok (slice_to pageSize (dedupeArticles items))
    end.

(** The callback of [(data.news || []).map(...)] in [webSearchSerper]. *)
Definition serperItem (r : SerperNewsItem) (cat : string) (nowIso rnd : string)
  : Result NewsArticle :=
  let published :=
    if Js.truthy (s_date r) then date_iso (Js.or_empty (s_date r))
    else Some nowIso in
  match published with
  | None => Thrown "Invalid time value"
  | Some publishedAt =>
      match guessSourceName (s_link r) (s_source r) with
      | None => Thrown "(sourceName || '').toLowerCase is not a function"
      | Some sourceName =>
          Ok {| id := Some (stableId "serper" (s_link r) (s_title r) rnd);
                title := Js.or_empty (Js.or_else (s_title r) (Some ""));
                description :=
                  Js.or_empty (Js.or_else (s_snippet r) (Some "No description."));
                url := s_link r;
                urlToImage := s_imageUrl r;
                publishedAt := publishedAt;
                source_name := sourceName;
                category := normalizeCategoryKey cat;
                content := Js.or_else (s_snippet r) (Some "") |}
      end
  end.

Definition webSearchSerper (env : Env) (cat : string) (from to : option string)
    (pageSize : Z) (nowIso rnd : nat -> string)
    (answer : Result (list SerperNewsItem)) : Result (list NewsArticle) :=
  if negb (Js.truthy (SERPER_API_KEY env)) then Thrown "Serper API not configured"
  else
    match answer with
    | Thrown e => Thrown e
    | Ok news =>
        match mapResults (fun i r => serperItem r cat (nowIso i) (rnd i)) 0 news with
        | Thrown e => Thrown e
        | Ok mapped =>
            Ok (slice_to pageSize (dedupeArticles (localInWindow from to mapped)))
        end
    end.

End WithPlatform.

End Adapters.

(** ** The RSS route: the search behind its handler *)

Module RssSearch.

Import News.

(** [parseRSSFeed]: [fetched] is what the body of its [try] block does, the
    articles it builds from the feed or the exception of the request or of the
    parsing; the [catch] turns an exception into an empty list, so the promise
    never rejects. *)
Definition parseRSSFeed (fetched : Result (list NewsArticle)) : list NewsArticle :=
  match fetched with
  | Ok articles => articles
  | Thrown _ => []
  end.

Section WithPlatform.
Context `{Platform}.

(** [isCorruptionRelated(`${a.title} ${a.description}`.toLowerCase()).score]. *)
Definition relevance (a : NewsArticle) : Z :=
  Rss.score
    (Rss.isCorruptionRelated (Js.toLowerCase (title a ++ " " ++ description a)) None).

(** The comparator of the final sort, on [(a, b)], is not positive: a higher
    score first, then the newer date; a comparison with a date that does not
    parse yields [NaN], which counts as 0. *)
Definition before (a b : NewsArticle) : bool :=
  if negb (relevance a =? relevance b) then relevance b <=? relevance a
  else
    match date_time (publishedAt b), date_time (publishedAt a) with
    | Some tb, Some ta => tb <=? ta
    | _, _ => true
    end.

(** [allArticles.sort(...)], a stable sort.  The articles [parseRSSFeed]
    builds carry dates that parse; the comparator is then a consistent order
    and the sorted array is the one the language fixes. *)
Fixpoint insert_sorted (x : NewsArticle) (l : list NewsArticle) : list NewsArticle :=
  match l with
  | [] => [x]
  | y :: r => if before x y then x :: l else y :: insert_sorted x r
  end.

Definition sort_by_relevance (l : list NewsArticle) : list NewsArticle :=
  fold_right insert_sorted [] l.

Definition matches_category (cat : string) (a : NewsArticle) : bool :=
  Js.str_eqb (category_key (category a)) cat.

Definition matches_query (queryLower : string) (a : NewsArticle) : bool :=
  (Js.includes (Js.toLowerCase (title a)) queryLower
   || Js.includes (Js.toLowerCase (description a)) queryLower)%bool.

(** [searchWithRSS]; [feeds] holds, in the order of the sorted feed list,
    what fetching and parsing each feed does.  [Promise.allSettled] finds
    every promise fulfilled, since [parseRSSFeed] never rejects. *)
Definition searchWithRSS (feeds : list (Result (list NewsArticle))) (cat : string)
    (query from to : option string) (pageSize : Z) : list NewsArticle :=
  let allArticles := concat (map parseRSSFeed feeds) in
  let byCategory :=
    if (nonempty cat && negb (Js.str_eqb cat "all"))%bool
    then List.filter (matches_category cat) allArticles else allArticles in
  let byQuery :=
    if Js.truthy query
    then List.filter (matches_query (Js.toLowerCase (Js.or_empty query))) byCategory
    else byCategory in
  let byDate :=
    if (Js.truthy from || Js.truthy to)%bool
    then List.filter (fun a => withinWindow (publishedAt a) from to) byQuery
    else byQuery in
  Adapters.slice_to pageSize (sort_by_relevance (RssRoute.dedupeArticles byDate)).

(** The handler on top of the search: [GET] of the RSS route with
    [searchWithRSS] in the place of its call. *)
Definition handle (feeds : list (Result (list NewsArticle))) (cat : string)
    (query from to : option string) (pageSize : Z) (key : string) (t0 t1 : Z)
    (m : Cache) : NewsResponse * Cache :=
  RssRoute.GET (Ok (searchWithRSS feeds cat query from to pageSize)) key t0 t1 m.

End WithPlatform.

End RssSearch.

(** ** Sample answers of the search providers *)

Module Samples.

Definition clock (i : nat) : string := "2025-09-16T00:00:00.000Z".
Definition draw (i : nat) : string := "0.4fzyo82mvyr".

Definition tavily_local : News.TavilyResult :=
  {| News.r_title := Some "COA flags flood control project";
     News.r_url := Some "https://www.rappler.com/nation/flood-control-audit?utm_source=tavily";
     News.r_source := None;
     News.r_content := Some "State auditors flagged a flood control project.";
     News.r_snippet := None;
     News.r_published_date := Some "2025-09-15T12:34:56.789Z" |}.

Definition tavily_foreign : News.TavilyResult :=
  {| News.r_title := Some "Flood control audit in Manila";
     News.r_url := Some "https://www.example.org/world/flood-control-audit";
     News.r_source := Some "Example Wire";
     News.r_content := None;
     News.r_snippet := Some "Auditors flagged a project.";
     News.r_published_date := Some "2025-09-15T08:00:00.000Z" |}.

Definition serper_local : Adapters.SerperNewsItem :=
  {| Adapters.s_title := Some "DPWH contractor faces graft raps";
     Adapters.s_snippet := Some "The Ombudsman filed graft charges.";
     Adapters.s_link := Some "https://newsinfo.inquirer.net/dpwh-contractor-graft";
     Adapters.s_source := Some "Inquirer.net";
     Adapters.s_date := None;
     Adapters.s_imageUrl := None |}.

Definition window_from : option string := Some "2025-09-01T00:00:00.000Z".
Definition window_to : option string := Some "2025-09-30T00:00:00.000Z".

(** A request served by the two web adapters: Tavily finds nothing local in
    its first pass and rejects in the second, Serper answers. *)
Definition web_upstream : News.Upstream :=
  {| News.searchWithGemini := Thrown "Gemini API key missing";
     News.webSearchTavily :=
       Adapters.webSearchTavily (H := Demo.platform) (Demo.keyed_env None) "dpwh"
         window_from window_to 20 clock draw clock draw
         (Ok [tavily_foreign]) (Thrown "503 Service Unavailable");
     News.webSearchSerper :=
       Adapters.webSearchSerper (H := Demo.platform) (Demo.keyed_env None) "dpwh"
         window_from window_to 20 clock draw (Ok [serper_local]);
     News.fallbackNewsAPISearch := Thrown "NewsAPI not configured" |}.

(** A conversion of the parameter texts used below, as [Number] computes
    it on them. *)
Definition number (s : string) : Params.JsNumber :=
  if Js.str_eqb s "1" then Params.Finite 1
  else if Js.str_eqb s "2" then Params.Finite 2
  else if Js.str_eqb s "20" then Params.Finite 20
  else if Js.str_eqb s "500" then Params.Finite 500
  else if Js.str_eqb s "Infinity" then Params.PosInfinity
  else Params.NaN.

(** [?page=2&pageSize=500&from=2025-09-01T00:00:00.000Z&to=yesterday]. *)
Definition query_string : Params.SearchParams :=
  {| Params.sp_category := Some "sports";
     Params.sp_q := None;
     Params.sp_from := window_from;
     Params.sp_to := Some "yesterday";
     Params.sp_page := Some "2";
     Params.sp_pageSize := Some "500" |}.

Definition resolved {A : Type} (r : Result (list A)) : list A :=
  match r with
  | Ok l => l
  | Thrown _ => []
  end.

End Samples.

(** * Properties *)

(** ** Insertion-ordered maps *)

Section OrderedMaps.
Context {V : Type}.
Implicit Types (m : list (string * V)) (k : string) (v : V).

Lemma map_get_set_eq k v m : News.map_get k (News.map_set k v m) = Some v.
Proof.
  induction m as [|[k' v'] m IH]; simpl.
  - now rewrite String.eqb_refl.
  - destruct (String.eqb k k') eqn:E; simpl; rewrite ?String.eqb_refl, ?E; auto.
Qed.

Lemma map_get_set_ne k k' v m :
  k <> k' -> News.map_get k' (News.map_set k v m) = News.map_get k' m.
Proof.
  intros Hne. induction m as [|[k1 v1] m IH]; simpl.
  - apply not_eq_sym, String.eqb_neq in Hne. now rewrite Hne.
  - destruct (String.eqb k k1) eqn:E; simpl.
    + apply String.eqb_eq in E. subst k1.
      apply not_eq_sym, String.eqb_neq in Hne. now rewrite Hne.
    + now rewrite IH.
Qed.

Lemma map_get_delete_ne k k' m :
  k <> k' -> News.map_get k' (News.map_delete k m) = News.map_get k' m.
Proof.
  intros Hne. induction m as [|[k1 v1] m IH]; simpl; [reflexivity|].
  destruct (String.eqb k k1) eqn:E; simpl.
  - apply String.eqb_eq in E. subst k1.
    apply not_eq_sym, String.eqb_neq in Hne. now rewrite Hne.
  - now rewrite IH.
Qed.

Lemma map_set_present k v m v0 :
  News.map_get k m = Some v0 ->
  List.length (News.map_set k v m) = List.length m.
Proof.
  induction m as [|[k1 v1] m IH]; simpl; [discriminate|].
  destruct (String.eqb k k1); simpl; auto.
Qed.

Lemma map_set_absent k v m :
  News.map_get k m = None -> News.map_set k v m = (m ++ [(k, v)])%list.
Proof.
  induction m as [|[k1 v1] m IH]; simpl; [reflexivity|].
  destruct (String.eqb k k1); [discriminate|]. intros Hm. now rewrite IH.
Qed.

Lemma map_get_In k v m : News.map_get k m = Some v -> In (k, v) m.
Proof.
  induction m as [|[k1 v1] m IH]; simpl; [discriminate|].
  destruct (String.eqb k k1) eqn:E.
  - apply String.eqb_eq in E. intros [= ->]. subst. now left.
  - intros Hm. right. auto.
Qed.

Lemma map_get_absent_key k m :
  News.map_get k m = None -> ~ In k (map fst m).
Proof.
  induction m as [|[k1 v1] m IH]; simpl; [tauto|].
  destruct (String.eqb k k1) eqn:E; [discriminate|].
  apply String.eqb_neq in E. intros Hm [Hk|Hk]; [congruence|]. now apply IH.
Qed.

Lemma map_get_present_key k m :
  In k (map fst m) -> exists v, News.map_get k m = Some v.
Proof.
  induction m as [|[k1 v1] m IH]; simpl; [tauto|].
  destruct (String.eqb k k1) eqn:E; [eauto|].
  apply String.eqb_neq in E. intros [Hk|Hk]; [congruence|auto].
Qed.

Lemma map_set_In_other k k' v v' m :
  k' <> k -> In (k', v') (News.map_set k v m) <-> In (k', v') m.
Proof.
  intros Hne. induction m as [|[k1 v1] m IH]; simpl.
  - split; [intros [[= -> _]|[]]; congruence | tauto].
  - destruct (String.eqb k k1) eqn:E; simpl.
    + apply String.eqb_eq in E. subst k1.
      split; (intros [[= -> _]|Hin]; [congruence | now right]).
    + rewrite IH. tauto.
Qed.

Lemma map_set_In_own k v m : In (k, v) (News.map_set k v m).
Proof.
  induction m as [|[k1 v1] m IH]; simpl; [now left|].
  destruct (String.eqb k k1); simpl; auto.
Qed.

End OrderedMaps.

(** ** The scan for the oldest cache entry *)

Lemma oldest_scan_from (m : News.Cache) (k0 : option string) (t0 : Z) :
  exists k t,
    fold_left News.oldest_step m (k0, Some t0) = (k, Some t)
    /\ t <= t0
    /\ (forall k' e', In (k', e') m -> t <= News.ts e')
    /\ ((k = k0 /\ t = t0)
        \/ (t < t0 /\ exists k1 e, k = Some k1 /\ In (k1, e) m /\ News.ts e = t)).
Proof.
  revert k0 t0. induction m as [|[k1 e1] m IH]; intros k0 t0; simpl.
  - exists k0, t0. split; [reflexivity|]. split; [lia|]. split; [tauto|now left].
  - destruct (News.ts e1 <? t0) eqn:E.
    + apply Z.ltb_lt in E.
      destruct (IH (Some k1) (News.ts e1)) as (k & t & Hf & Hle & Hmin & Hsrc).
      exists k, t. split; [exact Hf|]. split; [lia|]. split.
      * intros k' e' [[= <- <-]|Hin]; [lia | exact (Hmin _ _ Hin)].
      * right. split; [lia|].
        destruct Hsrc as [[-> ->]|(_ & k2 & e2 & -> & Hin & Hts)]; eauto 8.
    + apply Z.ltb_ge in E.
      destruct (IH k0 t0) as (k & t & Hf & Hle & Hmin & Hsrc).
      destruct k0 as [k0|]; exists k, t; (split; [exact Hf|]); (split; [lia|]); split.
      * intros k' e' [[= <- <-]|Hin]; [lia | exact (Hmin _ _ Hin)].
      * destruct Hsrc as [[-> ->]|(Hlt & k2 & e2 & -> & Hin & Hts)];
          [now left | right; eauto 8].
      * intros k' e' [[= <- <-]|Hin]; [lia | exact (Hmin _ _ Hin)].
      * destruct Hsrc as [[-> ->]|(Hlt & k2 & e2 & -> & Hin & Hts)];
          [now left | right; eauto 8].
Qed.

Lemma oldestKey_cons (k1 : string) (e1 : News.CacheEntry) (m : News.Cache) :
  News.oldestKey ((k1, e1) :: m)
  = fst (fold_left News.oldest_step m (Some k1, Some (News.ts e1))).
Proof. reflexivity. Qed.

(** The key the scan returns holds an entry of minimal timestamp. *)
Lemma oldestKey_minimal (m : News.Cache) (k : string) :
  News.oldestKey m = Some k ->
  exists e, In (k, e) m /\ forall k' e', In (k', e') m -> News.ts e <= News.ts e'.
Proof.
  destruct m as [|[k1 e1] m]; [discriminate|].
  rewrite oldestKey_cons.
  destruct (oldest_scan_from m (Some k1) (News.ts e1)) as (k2 & t & Hf & Hle & Hmin & Hsrc).
  rewrite Hf. simpl. intros ->.
  destruct Hsrc as [[[= ->] ->]|(Hlt & k3 & e3 & [= ->] & Hin & Hts)].
  - exists e1. split; [now left|].
    intros k' e' [[= <- <-]|Hin]; [lia | exact (Hmin _ _ Hin)].
  - exists e3. split; [now right|].
    intros k' e' [[= <- <-]|Hin']; [lia | rewrite Hts; exact (Hmin _ _ Hin')].
Qed.

Lemma oldestKey_nonempty (m : News.Cache) :
  m <> [] -> exists k, News.oldestKey m = Some k.
Proof.
  destruct m as [|[k1 e1] m]; [congruence|]. intros _.
  rewrite oldestKey_cons.
  destruct (oldest_scan_from m (Some k1) (News.ts e1)) as (k2 & t & Hf & Hle & Hmin & Hsrc).
  rewrite Hf. simpl.
  destruct Hsrc as [[-> _]|(_ & k3 & e3 & -> & _)]; eauto.
Qed.

(** Appending an entry that is not older than the rest does not change the
    outcome of the scan. *)
Lemma oldestKey_app_newest (m : News.Cache) (k : string) (e : News.CacheEntry) :
  m <> [] ->
  (forall k' e', In (k', e') m -> News.ts e' <= News.ts e) ->
  News.oldestKey (m ++ [(k, e)]) = News.oldestKey m.
Proof.
  destruct m as [|[k1 e1] m]; [congruence|]. intros _ Hle.
  change (((k1, e1) :: m) ++ [(k, e)])%list with ((k1, e1) :: (m ++ [(k, e)]))%list.
  rewrite !oldestKey_cons, fold_left_app. simpl.
  destruct (oldest_scan_from m (Some k1) (News.ts e1)) as (k2 & t & Hf & Hle' & Hmin & Hsrc).
  rewrite Hf. unfold News.oldest_step. simpl.
  assert (t <= News.ts e) as Ht.
  { specialize (Hle k1 e1 (or_introl eq_refl)). lia. }
  apply Z.ltb_ge in Ht. now rewrite Ht.
Qed.

(** ** The cache: what a write keeps and what a lookup serves *)

(** A write leaves every other key alone unless that key is the one the
    capacity rule evicts. *)
Lemma setCached_other (now : Z) (key k : string) arts trace (m : News.Cache) :
  k <> key ->
  News.map_get k (News.setCached now key arts trace m) = News.map_get k m
  \/ ((News.MAX_CACHE_ENTRIES <= List.length m)%nat
      /\ News.oldestKey
           (News.map_set key
              {| News.ts := now; News.cached_articles := arts;
                 News.cached_trace := trace |} m) = Some k).
Proof.
  intros Hne. unfold News.setCached.
  set (e := {| News.ts := now; News.cached_articles := arts; News.cached_trace := trace |}).
  set (m1 := News.map_set key e m).
  assert (News.map_get k m1 = News.map_get k m) as Hm1
    by (apply map_get_set_ne; congruence).
  destruct (Nat.ltb News.MAX_CACHE_ENTRIES (List.length m1)) eqn:Hfull; [|now left].
  destruct (News.oldestKey m1) as [[|c k0]|] eqn:Hold; simpl; [now left| |now left].
  destruct (string_dec (String c k0) k) as [->|Hk].
  - right. split; [|reflexivity].
    apply Nat.ltb_lt in Hfull. subst m1.
    destruct (News.map_get key m) as [v0|] eqn:Hg.
    + rewrite (map_set_present _ _ _ _ Hg) in Hfull. lia.
    + rewrite (map_set_absent _ _ _ Hg), length_app in Hfull. simpl in Hfull. lia.
  - left. now rewrite map_get_delete_ne.
Qed.

(** The entry just written survives its own write when the clock has not run
    backwards and the cache holds at most its capacity. *)
Lemma setCached_own (now : Z) (key : string) arts trace (m : News.Cache) :
  (List.length m <= News.MAX_CACHE_ENTRIES)%nat ->
  (forall k e, In (k, e) m -> News.ts e <= now) ->
  News.map_get key (News.setCached now key arts trace m)
  = Some {| News.ts := now; News.cached_articles := arts; News.cached_trace := trace |}.
Proof.
  intros Hcap Hclock. unfold News.setCached.
  set (e := {| News.ts := now; News.cached_articles := arts; News.cached_trace := trace |}).
  destruct (Nat.ltb News.MAX_CACHE_ENTRIES (List.length (News.map_set key e m))) eqn:Hfull;
    [|apply map_get_set_eq].
  apply Nat.ltb_lt in Hfull.
  destruct (News.map_get key m) as [v0|] eqn:Hg.
  { rewrite (map_set_present _ _ _ _ Hg) in Hfull. lia. }
  rewrite (map_set_absent _ _ _ Hg) in *.
  assert (m <> []) as Hne.
  { intros ->. simpl in Hfull. unfold News.MAX_CACHE_ENTRIES in Hfull. lia. }
  rewrite (oldestKey_app_newest m key e Hne) by (intros k' e' Hin; exact (Hclock _ _ Hin)).
  destruct (oldestKey_nonempty m Hne) as [k0 Hk0]. rewrite Hk0.
  destruct (oldestKey_minimal m k0 Hk0) as (e0 & Hin & _).
  assert (k0 <> key) as Hk.
  { intros ->. apply (map_get_absent_key _ _ Hg). now apply (in_map fst) in Hin. }
  rewrite <- (map_set_absent _ _ _ Hg).
  destruct k0 as [|c k0]; simpl; [apply map_get_set_eq|].
  rewrite map_get_delete_ne by exact Hk. apply map_get_set_eq.
Qed.

Lemma map_delete_length {V : Type} (k : string) (m : list (string * V)) :
  In k (map fst m) -> S (List.length (News.map_delete k m)) = List.length m.
Proof.
  induction m as [|[k1 v1] m IH]; simpl; [tauto|].
  destruct (String.eqb k k1) eqn:E; [reflexivity|].
  apply String.eqb_neq in E. intros [Hk|Hk]; [congruence|].
  simpl. now rewrite IH.
Qed.

(** A write never leaves the cache above its capacity (keys are JSON texts,
    hence never empty). *)
Lemma setCached_capacity (now : Z) (key : string) arts trace (m : News.Cache) :
  (List.length m <= News.MAX_CACHE_ENTRIES)%nat ->
  ~ In EmptyString (map fst m) -> key <> EmptyString ->
  (List.length (News.setCached now key arts trace m) <= News.MAX_CACHE_ENTRIES)%nat.
Proof.
  intros Hcap Hnokey Hkey. unfold News.setCached.
  set (e := {| News.ts := now; News.cached_articles := arts; News.cached_trace := trace |}).
  destruct (Nat.ltb News.MAX_CACHE_ENTRIES (List.length (News.map_set key e m))) eqn:Hfull;
    [|now apply Nat.ltb_ge in Hfull].
  apply Nat.ltb_lt in Hfull.
  destruct (News.map_get key m) as [v0|] eqn:Hg.
  { rewrite (map_set_present _ _ _ _ Hg) in Hfull. lia. }
  rewrite (map_set_absent _ _ _ Hg) in *.
  destruct (oldestKey_nonempty (m ++ [(key, e)])%list) as [k0 Hk0];
    [now destruct m|].
  rewrite Hk0.
  destruct (oldestKey_minimal _ _ Hk0) as (e0 & Hin & _).
  apply (in_map fst) in Hin. simpl in Hin.
  destruct k0 as [|c k0].
  { exfalso. rewrite map_app in Hin. apply in_app_or in Hin as [Hin|[Hin|[]]];
      [exact (Hnokey Hin) | simpl in Hin; congruence]. }
  simpl. pose proof (map_delete_length _ _ Hin) as Hlen.
  rewrite length_app in Hfull, Hlen. simpl in Hfull, Hlen. lia.
Qed.

(** C6.  An entry written at time [T] is returned by a lookup at
    [T + TTL - 1] ms and is not returned by a lookup at [T + TTL + 1] ms, with
    [TTL = 60000]; the cache is any state the route can reach (at most 100
    entries, none stamped later than [T]). *)
Theorem cache_ttl_boundary (m : News.Cache) (key : string) (T : Z)
    (arts : list News.NewsArticle) (trace : list string) :
  (List.length m <= News.MAX_CACHE_ENTRIES)%nat ->
  (forall k e, In (k, e) m -> News.ts e <= T) ->
  News.CACHE_TTL_MS = 60000
  /\ News.getCached (T + News.CACHE_TTL_MS - 1) key (News.setCached T key arts trace m)
     = Some {| News.ts := T; News.cached_articles := arts; News.cached_trace := trace |}
  /\ News.getCached (T + News.CACHE_TTL_MS + 1) key (News.setCached T key arts trace m)
     = None.
Proof.
  intros Hcap Hclock. split; [reflexivity|].
  unfold News.getCached. rewrite (setCached_own T key arts trace m Hcap Hclock). simpl.
  split.
  - replace (T + News.CACHE_TTL_MS - 1 - T <? News.CACHE_TTL_MS) with true; [reflexivity|].
    symmetry. apply Z.ltb_lt. lia.
  - replace (T + News.CACHE_TTL_MS + 1 - T <? News.CACHE_TTL_MS) with false; [reflexivity|].
    symmetry. apply Z.ltb_ge. lia.
Qed.

(** ** The date window *)

Section DateWindow.
Context `{Platform}.

Lemma truthy_Some_nonempty (s : string) :
  Js.truthy (Some s) = true <-> s <> EmptyString.
Proof. destruct s; simpl; split; congruence. Qed.

(** C5.  [withinWindow] is true when no bound is given and when the
    timestamp does not parse; with parseable bounds each of [from] and [to]
    is optional on its own and inclusive. *)
Theorem withinWindow_spec (iso : string) (from to : option string) :
  (Js.truthy from = false -> Js.truthy to = false ->
   News.withinWindow iso from to = true)
  /\ (date_time iso = None -> News.withinWindow iso from to = true)
  /\ (forall t f tf, date_time iso = Some t -> f <> EmptyString ->
        date_time f = Some tf ->
        News.withinWindow iso (Some f) None = (tf <=? t))
  /\ (forall t u tu, date_time iso = Some t -> u <> EmptyString ->
        date_time u = Some tu ->
        News.withinWindow iso None (Some u) = (t <=? tu))
  /\ (forall t f tf u tu, date_time iso = Some t ->
        f <> EmptyString -> date_time f = Some tf ->
        u <> EmptyString -> date_time u = Some tu ->
        News.withinWindow iso (Some f) (Some u) = ((tf <=? t) && (t <=? tu))%bool)
  /\ (forall f, f <> EmptyString -> date_time f = date_time iso ->
        News.withinWindow iso (Some f) None = true
        /\ News.withinWindow iso None (Some f) = true
        /\ News.withinWindow iso (Some f) (Some f) = true).
Proof.
  unfold News.withinWindow.
  split; [intros -> ->; reflexivity|].
  split; [intros ->; now destruct (_ && _)%bool|].
  split; [|split; [|split]].
  - intros t f tf Ht Hf Htf. apply truthy_Some_nonempty in Hf.
    rewrite Hf. simpl. rewrite Ht, Htf.
    rewrite <- Z.leb_antisym. now destruct (tf <=? t).
  - intros t u tu Ht Hu Htu. apply truthy_Some_nonempty in Hu.
    rewrite Hu. simpl. rewrite Ht, Htu.
    now rewrite <- Z.leb_antisym.
  - intros t f tf u tu Ht Hf Htf Hu Htu.
    apply truthy_Some_nonempty in Hf, Hu. rewrite Hf, Hu. simpl.
    rewrite Ht, Htf, Htu.
    rewrite <- !Z.leb_antisym. now destruct (tf <=? t).
  - intros f Hf Heq. apply truthy_Some_nonempty in Hf. rewrite Hf. simpl.
    rewrite Heq. destruct (date_time iso) as [t|]; [|auto].
    rewrite Z.ltb_irrefl. auto.
Qed.

End DateWindow.

(** ** The keyword classifier *)

Lemma add_score_keys (c : News.Category) (d : Z) (scores : list (News.Category * Z)) :
  map fst (Rss.add_score c d scores) = map fst scores.
Proof.
  unfold Rss.add_score. rewrite map_map. apply map_ext.
  intros [c' s']. simpl. now destruct (Rss.category_eqb c' c).
Qed.

Lemma categoryScores_keys (content : string) :
  map fst (Rss.categoryScores content)
  = [News.CorruptPoliticians; News.Dpwh; News.FloodControl; News.NepoBabies].
Proof.
  unfold Rss.categoryScores.
  set (scores1 := if (_ && _)%bool then _ else _).
  assert (map fst scores1
          = [News.CorruptPoliticians; News.Dpwh; News.FloodControl; News.NepoBabies])
    as H1 by (subst scores1; now destruct (_ && _)%bool).
  revert H1. generalize scores1. clear scores1.
  induction Rss.UPDATED_CORRUPTION_KEYWORDS as [|[c kws] rest IH]; intros sc Hsc;
    simpl; [exact Hsc|].
  apply IH. clear IH. revert sc Hsc.
  induction kws as [|kw kws IHk]; intros sc Hsc; simpl; [exact Hsc|].
  apply IHk. now rewrite add_score_keys.
Qed.

(** C8, as the code has it.  The classifier returns a category whose score is
    the maximum of the four; among categories that tie for the maximum it
    returns the first in the order corrupt-politicians, dpwh, flood-control,
    nepo-babies (so corrupt-politicians whenever it is among them); and the
    text is relevant exactly when the maximum is at least 1. *)
Theorem classifier_first_maximal (content : string) (targetCategory : option string) :
  let d := Rss.isCorruptionRelated content targetCategory in
  let scores := Rss.categoryScores content in
  (forall c s, In (c, s) scores -> s <= Rss.score d)
  /\ In (Rss.detectedCategory d, Rss.score d) scores
  /\ (forall c, In (c, Rss.score d) scores ->
        (Rss.rank (Rss.detectedCategory d) <= Rss.rank c)%nat)
  /\ (In (News.CorruptPoliticians, Rss.score d) scores ->
      Rss.detectedCategory d = News.CorruptPoliticians)
  /\ (Rss.isRelevant d = true <-> 1 <= Rss.score d).
Proof.
  intros d scores. subst d. unfold Rss.isCorruptionRelated. fold scores.
  pose proof (categoryScores_keys content) as Hk. fold scores in Hk.
  destruct scores as [|[c1 s1] [|[c2 s2] [|[c3 s3] [|[c4 s4] [|? ?]]]]]; try discriminate.
  simpl in Hk. injection Hk as -> -> -> ->.
  unfold Rss.decide_category, Rss.maxOf. simpl.
  set (mx := Z.max (Z.max (Z.max s1 s2) s3) s4).
  assert (s1 <= mx /\ s2 <= mx /\ s3 <= mx /\ s4 <= mx) as (H1 & H2 & H3 & H4)
    by (subst mx; lia).
  assert (mx = s1 \/ mx = s2 \/ mx = s3 \/ mx = s4) as Hmx by (subst mx; lia).
  clearbody mx.
  split; [intros c s [[= <- <-]|[[= <- <-]|[[= <- <-]|[[= <- <-]|[]]]]]; lia|].
  destruct (Z.eqb_spec s1 mx) as [E1|E1]; simpl;
    [|destruct (Z.eqb_spec s2 mx) as [E2|E2]; simpl;
      [|destruct (Z.eqb_spec s3 mx) as [E3|E3]; simpl;
        [|destruct (Z.eqb_spec s4 mx) as [E4|E4]; simpl; [|lia]]]].
  all: split; [subst; tauto|].
  all: split;
    [intros c [[= <- Hs]|[[= <- Hs]|[[= <- Hs]|[[= <- Hs]|[]]]]]; simpl; lia|].
  all: split;
    [intros [[= Hs]|[[=]|[[=]|[[=]|[]]]]]; try reflexivity; congruence|].
  all: rewrite Z.leb_le; tauto.
Qed.

(** The boundary on an empty cache, for a write at 1000 ms. *)
Lemma cache_ttl_boundary_witness :
  News.CACHE_TTL_MS = 60000
  /\ News.getCached (1000 + News.CACHE_TTL_MS - 1) "k" (News.setCached 1000 "k" [] ["web:0"] [])
     = Some {| News.ts := 1000; News.cached_articles := [];
               News.cached_trace := ["web:0"] |}
  /\ News.getCached (1000 + News.CACHE_TTL_MS + 1) "k" (News.setCached 1000 "k" [] ["web:0"] [])
     = None.
Proof.
  apply (cache_ttl_boundary [] "k" 1000 [] ["web:0"]).
  - simpl. unfold News.MAX_CACHE_ENTRIES. lia.
  - intros k e [].
Defined.

(** The window on parsed timestamps: a bound equal to the timestamp, both
    bounds, and a timestamp that does not parse. *)
Lemma withinWindow_spec_witness :
  News.withinWindow (H := Demo.platform) "2024-03-01T00:00:00.000Z"
    (Some "2024-03-01T00:00:00.000Z") (Some "2024-03-01T00:00:00.000Z") = true
  /\ News.withinWindow (H := Demo.platform) "2024-03-02T00:00:00.000Z"
       (Some "2024-03-01T00:00:00.000Z") (Some "2024-03-02T00:00:00.000Z")
     = ((1709251200000 <=? 1709337600000) && (1709337600000 <=? 1709337600000))%bool
  /\ News.withinWindow (H := Demo.platform) "not a date"
       (Some "2024-03-01T00:00:00.000Z") None = true.
Proof.
  destruct (withinWindow_spec (H := Demo.platform) "2024-03-01T00:00:00.000Z" None None)
    as (_ & _ & _ & _ & _ & Hedge).
  destruct (withinWindow_spec (H := Demo.platform) "2024-03-02T00:00:00.000Z" None None)
    as (_ & _ & _ & _ & Hboth & _).
  destruct (withinWindow_spec (H := Demo.platform) "not a date"
              (Some "2024-03-01T00:00:00.000Z") None) as (_ & Hopen & _).
  split; [|split].
  - apply (Hedge "2024-03-01T00:00:00.000Z"); [discriminate | reflexivity].
  - apply (Hboth 1709337600000 "2024-03-01T00:00:00.000Z" 1709251200000
             "2024-03-02T00:00:00.000Z" 1709337600000);
      first [reflexivity | discriminate].
  - apply Hopen. reflexivity.
Defined.

(** On "kickback" corrupt-politicians and dpwh tie at 3, and the first wins. *)
Lemma classifier_first_maximal_witness :
  Rss.detectedCategory (Rss.isCorruptionRelated "kickback" None)
  = News.CorruptPoliticians.
Proof.
  apply (classifier_first_maximal "kickback" None).
  vm_compute. tauto.
Defined.

(** C8, as the specification words it, fails: on the text "ghost project" the
    categories dpwh and flood-control tie for the maximum, 4, and the
    classifier answers dpwh, not corrupt-politicians. *)
Lemma classifier_tie_not_corrupt_politicians :
  Rss.categoryScores "ghost project"
  = [ (News.CorruptPoliticians, 0); (News.Dpwh, 4); (News.FloodControl, 4);
      (News.NepoBabies, 0) ]
  /\ Rss.isCorruptionRelated "ghost project" None
     = {| Rss.isRelevant := true; Rss.detectedCategory := News.Dpwh; Rss.score := 4 |}
  /\ Rss.detectedCategory (Rss.isCorruptionRelated "ghost project" None)
     <> News.CorruptPoliticians.
Proof. vm_compute. repeat split; discriminate. Qed.

(** ** Stable identifiers *)

Section StableIds.
Context `{Platform}.

Lemma stableKey_no_draw (u t : option string) (rnd rnd' : string) :
  (Js.truthy u || Js.truthy t)%bool = true ->
  News.stableKey u t rnd = News.stableKey u t rnd'
  /\ News.stableKey u t rnd = if Js.truthy u then Js.or_empty u else Js.or_empty t.
Proof.
  unfold News.stableKey. destruct (Js.truthy u), (Js.truthy t); simpl; auto; discriminate.
Qed.

(** C9, as the code has it.  When the raw item has a URL or a title, its id is
    ["tavily_"] followed by the first 16 hex digits of the SHA-1 of the URL
    (of the title when the URL is absent): whether the normalisation succeeds
    and which id it yields depend neither on the request, nor on the clock,
    nor on the random draw. *)
Theorem stableId_deterministic (r : News.TavilyResult) :
  (Js.truthy (News.r_url r) || Js.truthy (News.r_title r))%bool = true ->
  forall cat cat' now now' rnd rnd',
    (forall prefix,
        News.stableId prefix (News.r_url r) (News.r_title r) rnd
        = News.stableId prefix (News.r_url r) (News.r_title r) rnd')
    /\ ((exists a, News.tavilyItem r cat now rnd = Ok a)
        <-> (exists a', News.tavilyItem r cat' now' rnd' = Ok a'))
    /\ (forall a a',
          News.tavilyItem r cat now rnd = Ok a ->
          News.tavilyItem r cat' now' rnd' = Ok a' ->
          News.id a = News.id a'
          /\ News.id a
             = Some ("tavily_"
                     ++ String.substring 0 16
                          (Sha1.hex (if Js.truthy (News.r_url r)
                                     then Js.or_empty (News.r_url r)
                                     else Js.or_empty (News.r_title r))))%string).
Proof.
  intros Hkey cat cat' now now' rnd rnd'.
  destruct (stableKey_no_draw _ _ rnd rnd' Hkey) as [Hsame Hkeyval].
  assert (forall prefix,
             News.stableId prefix (News.r_url r) (News.r_title r) rnd
             = News.stableId prefix (News.r_url r) (News.r_title r) rnd') as Hid
    by (intros prefix; unfold News.stableId; now rewrite Hsame).
  split; [exact Hid|].
  unfold News.tavilyItem.
  destruct (Js.truthy (News.r_published_date r));
    [destruct (date_iso _) as [p|]|];
    destruct (News.guessSourceName (News.r_url r) (News.r_source r)) as [sn|];
    (split; [split; intros [a Ha]; try discriminate; eauto|]);
    intros a a' Ha Ha'; try discriminate;
    injection Ha as <-; injection Ha' as <-; simpl;
    (split; [now rewrite Hid|]);
    unfold News.stableId; now rewrite Hkeyval.
Qed.

End StableIds.

(** Two normalisations of one item under different requests, clocks and
    random draws yield the same id. *)
Lemma stableId_deterministic_witness :
  exists a a',
    News.tavilyItem (H := Demo.platform)
      {| News.r_title := Some "COA flags flood control project";
         News.r_url := Some "https://www.rappler.com/nation/flood-control-audit";
         News.r_source := None; News.r_content := None; News.r_snippet := None;
         News.r_published_date := None |}
      "dpwh" "2025-09-15T12:34:56.789Z" "0.4fzyo82mvyr" = Ok a
    /\ News.tavilyItem (H := Demo.platform)
      {| News.r_title := Some "COA flags flood control project";
         News.r_url := Some "https://www.rappler.com/nation/flood-control-audit";
         News.r_source := None; News.r_content := None; News.r_snippet := None;
         News.r_published_date := None |}
      "all" "2025-09-16T00:00:00.000Z" "0.9x8c7v6b5n1" = Ok a'
    /\ News.id a = News.id a'
    /\ News.id a = Some "tavily_001ec700c200132d".
Proof.
  eexists. eexists. split; [reflexivity|]. split; [reflexivity|].
  match goal with
  | |- News.id ?a = News.id ?a' /\ _ =>
      destruct (stableId_deterministic (H := Demo.platform)
        {| News.r_title := Some "COA flags flood control project";
           News.r_url := Some "https://www.rappler.com/nation/flood-control-audit";
           News.r_source := None; News.r_content := None; News.r_snippet := None;
           News.r_published_date := None |} eq_refl
        "dpwh" "all" "2025-09-15T12:34:56.789Z" "2025-09-16T00:00:00.000Z"
        "0.4fzyo82mvyr" "0.9x8c7v6b5n1") as (_ & _ & Hrun);
      destruct (Hrun a a' eq_refl eq_refl) as [Hsame Hval]
  end.
  split; [exact Hsame|]. rewrite Hval. vm_compute. reflexivity.
Defined.

(** C9, as the specification words it, fails on an item that has neither a
    URL nor a title: the hashed key is then the random draw, and two
    normalisations of the same item get different ids. *)
Lemma stableId_random_without_url_and_title :
  let r := {| News.r_title := None; News.r_url := None; News.r_source := None;
              News.r_content := Some "text"; News.r_snippet := None;
              News.r_published_date := None |} in
  (match News.tavilyItem (H := Demo.platform) r "dpwh" "2025-09-15T12:34:56.789Z"
           "0.4fzyo82mvyr" with
   | Ok a => News.id a
   | Thrown _ => None
   end) = Some "tavily_772cacf761607df5"
  /\ (match News.tavilyItem (H := Demo.platform) r "dpwh" "2025-09-15T12:34:56.789Z"
              "0.9x8c7v6b5n1" with
      | Ok a => News.id a
      | Thrown _ => None
      end) = Some "tavily_99adc2c115471ac6".
Proof. vm_compute. split; reflexivity. Qed.

(** ** The fallback chain *)

Section Chain.
Context `{Platform}.

Lemma dedupeArticles_nil : News.dedupeArticles [] = [].
Proof. reflexivity. Qed.

Lemma stage_skips (label : string) (call : Result (list News.NewsArticle))
    (x : News.NewsArticle) (arts : list News.NewsArticle) (trace : list string) :
  News.stage label call (x :: arts, trace) = (x :: arts, trace).
Proof. reflexivity. Qed.

Lemma stage_runs (label : string) (call : Result (list News.NewsArticle))
    (trace : list string) :
  News.stage label call ([], trace)
  = match News.stage_output call with
    | [] => ([], trace)
    | items =>
        (items, (trace ++ [(label ++ ":" ++ string_of_nat (List.length items))%string])%list)
    end.
Proof. destruct call as [[|x items]|msg]; reflexivity. Qed.

(** The loop of [searchWithWeb] skips the providers that reject or whose
    deduplicated answer is empty, and stops at the first other one. *)
Lemma web_loop_first (up : News.Upstream) (pre post : list News.WebProvider)
    (p : News.WebProvider) (res : list News.NewsArticle) (firstError : option string) :
  (forall q l, In q pre -> News.web_call up q = Ok l -> News.dedupeArticles l = []) ->
  News.web_call up p = Ok res ->
  News.dedupeArticles res <> [] ->
  exists e, News.web_loop up (pre ++ p :: post) [] firstError = (News.dedupeArticles res, e).
Proof.
  intros Hpre Hp Hres. revert firstError.
  induction pre as [|q pre IH]; intros firstError; simpl.
  - rewrite Hp. simpl. destruct (News.dedupeArticles res); [congruence|eauto].
  - destruct (News.web_call up q) as [l|msg] eqn:Hq.
    + simpl. rewrite (Hpre q l (or_introl eq_refl) Hq).
      apply IH. intros q' l' Hin. apply Hpre. now right.
    + apply IH. intros q' l' Hin. apply Hpre. now right.
Qed.

Lemma web_loop_exhausted (up : News.Upstream) (order : list News.WebProvider)
    (firstError : option string) :
  (forall q l, In q order -> News.web_call up q = Ok l -> News.dedupeArticles l = []) ->
  exists e, News.web_loop up order [] firstError = ([], e).
Proof.
  revert firstError. induction order as [|q order IH]; intros firstError Hall; simpl.
  - eauto.
  - destruct (News.web_call up q) as [l|msg] eqn:Hq.
    + simpl. rewrite (Hall q l (or_introl eq_refl) Hq).
      apply IH. intros q' l' Hin. apply Hall. now right.
    + apply IH. intros q' l' Hin. apply Hall. now right.
Qed.

Lemma searchWithWeb_exhausted (env : News.Env) (up : News.Upstream) :
  News.stage_output (News.webSearchTavily up) = [] ->
  News.stage_output (News.webSearchSerper up) = [] ->
  News.stage_output (News.searchWithWeb env up) = [].
Proof.
  intros Ht Hs. unfold News.searchWithWeb.
  destruct (web_loop_exhausted up (News.tryOrder env) None) as [e ->].
  - intros [] l _ Hq; simpl in Hq; rewrite Hq in *; simpl in *; subst; reflexivity.
  - now destruct e.
Qed.

(** The handler never reaches its [catch]: the answer is always the "ok"
    payload, whose [totalResults] counts its articles. *)
Lemma GET_always_ok (env : News.Env) (up : News.Upstream) (key : string) (t0 t1 : Z)
    (m : News.Cache) :
  let r := fst (News.GET env up key t0 t1 m) in
  News.httpStatus r = 200 /\ News.status r = "ok" /\ News.error r = None
  /\ News.totalResults r = Z.of_nat (List.length (News.articles r)).
Proof.
  unfold News.GET, News.GET_body.
  destruct (match _ with [] => _ | _ => _ end) as [arts trace]. simpl. auto.
Qed.

(** The exhausted chain in general.  When every provider rejects or returns
    no article and the cache has no fresh entry for the key, the answer is HTTP
    200 with status "ok", zero results, no article and an empty trace, and the
    cache is left as it was: the 502 answer of the handler's own [catch] branch
    is never sent for a provider failure. *)
Theorem exhausted_chain_answers_ok_empty (env : News.Env) (up : News.Upstream)
    (key : string) (t0 t1 : Z) (m : News.Cache) :
  News.stage_output (News.searchWithGemini up) = [] ->
  News.stage_output (News.webSearchTavily up) = [] ->
  News.stage_output (News.webSearchSerper up) = [] ->
  News.stage_output (News.fallbackNewsAPISearch up) = [] ->
  News.getCached t0 key m = None ->
  News.GET env up key t0 t1 m
  = ({| News.httpStatus := 200; News.status := "ok"; News.totalResults := 0;
        News.articles := []; News.error := None; News.providerTrace := Some [] |}, m).
Proof.
  intros Hg Ht Hs Hn Hc. unfold News.GET, News.GET_body.
  pose proof (searchWithWeb_exhausted env up Ht Hs) as Hw.
  rewrite Hc.
  assert ((if Js.str_eqb (Js.or_empty (News.USE_GEMINI_SEARCH env)) "true"
           then News.stage "gemini" (News.searchWithGemini up) ([], [])
           else ([], [])) = ([], [])) as ->.
  { destruct (Js.str_eqb _ _); [|reflexivity]. now rewrite stage_runs, Hg. }
  rewrite stage_runs, Hw. rewrite stage_runs, Hn. reflexivity.
Qed.

End Chain.

(** Every provider down, nothing cached. *)
Lemma exhausted_chain_answers_ok_empty_witness :
  News.GET (H := Demo.platform) (Demo.keyed_env None) Demo.all_rejecting
    "{category:dpwh}" 1000 1900 []
  = ({| News.httpStatus := 200; News.status := "ok"; News.totalResults := 0;
        News.articles := []; News.error := None; News.providerTrace := Some [] |}, []).
Proof.
  apply (exhausted_chain_answers_ok_empty (H := Demo.platform)); reflexivity.
Defined.

(** C1, a defect of the code.  Gemini, Tavily and NewsAPI reject, Serper finds
    nothing and the cache is empty.  The handler answers 200 and "ok" with no
    article, where the specification asks for an explicit error; the handler's
    own [catch] branch holds that error answer (502, "Service unavailable -
    upstream providers failed") but the [try]/[catch] around each stage keeps
    every provider failure away from it.  The earlier handler, on the same
    input, answers 502 and "error". *)
Lemma exhausted_chain_is_not_an_error :
  let r := fst (News.GET (H := Demo.platform) (Demo.keyed_env None) Demo.all_rejecting
                  "{category:dpwh}" 1000 1900 []) in
  let earlier :=
    Legacy.GET (H := Demo.platform) (Demo.keyed_env None) Demo.all_rejecting in
  News.getCached 1000 "{category:dpwh}" [] = None
  /\ News.status r = "ok" /\ News.httpStatus r = 200
  /\ News.totalResults r = 0 /\ News.articles r = []
  /\ News.providerTrace r = Some []
  /\ News.status r <> "error" /\ ~ (500 <= News.httpStatus r)
  /\ News.status earlier = "error" /\ News.httpStatus earlier = 502.
Proof. vm_compute. repeat split; try discriminate. intros Hge. now apply Hge. Qed.

Section ChainOrder.
Context `{Platform}.

(** Run the innermost pending stage, whose output is given by [Hout]. *)
Ltac run_stage Hout := rewrite stage_runs, Hout; cbn iota.

(** C2, as the code has it.  [GET] runs three stages in order, Gemini (only
    when enabled), the web search, NewsAPI; there is no RSS stage.  The answer
    carries the articles of the first stage that yields any, and its trace is
    the one entry naming that stage.  The web stage calls the preferred
    provider alone when [WEB_SEARCH_PROVIDER] names one that has a key; in
    every other case (no preference, an unknown name, or a named provider
    without key) it calls Tavily then Serper, those of the two that have a
    key; its output is the deduplicated answer of the first provider it calls
    whose deduplicated answer is not empty. *)
Theorem fallback_order (env : News.Env) (up : News.Upstream) (key : string)
    (t0 t1 : Z) (m : News.Cache) :
  let g := if Js.str_eqb (Js.or_empty (News.USE_GEMINI_SEARCH env)) "true"
           then News.stage_output (News.searchWithGemini up) else [] in
  let w := News.stage_output (News.searchWithWeb env up) in
  let n := News.stage_output (News.fallbackNewsAPISearch up) in
  let r := fst (News.GET env up key t0 t1 m) in
  let entry (label : string) (l : list News.NewsArticle) :=
    Some [(label ++ ":" ++ string_of_nat (List.length l))%string] in
  (g <> [] -> News.articles r = g /\ News.providerTrace r = entry "gemini" g)
  /\ (g = [] -> w <> [] -> News.articles r = w /\ News.providerTrace r = entry "web" w)
  /\ (g = [] -> w = [] -> n <> [] ->
      News.articles r = n /\ News.providerTrace r = entry "newsapi" n)
  /\ (forall pre p post res,
        News.tryOrder env = (pre ++ p :: post)%list ->
        (forall q l, In q pre -> News.web_call up q = Ok l -> News.dedupeArticles l = []) ->
        News.web_call up p = Ok res ->
        News.dedupeArticles res <> [] ->
        w = News.dedupeArticles res)
  /\ (forall p,
        Js.toLowerCase (Js.or_empty (News.WEB_SEARCH_PROVIDER env))
        = match p with News.Tavily => "tavily" | News.Serper => "serper" end ->
        Js.truthy (match p with
                   | News.Tavily => News.TAVILY_API_KEY env
                   | News.Serper => News.SERPER_API_KEY env
                   end) = true ->
        News.tryOrder env = [p])
  /\ (Js.truthy (News.WEB_SEARCH_PROVIDER env) = false ->
      Js.truthy (News.TAVILY_API_KEY env) = true ->
      Js.truthy (News.SERPER_API_KEY env) = true ->
      News.tryOrder env = [News.Tavily; News.Serper])
  /\ ((forall p,
         Js.toLowerCase (Js.or_empty (News.WEB_SEARCH_PROVIDER env))
         = match p with News.Tavily => "tavily" | News.Serper => "serper" end ->
         Js.truthy (match p with
                    | News.Tavily => News.TAVILY_API_KEY env
                    | News.Serper => News.SERPER_API_KEY env
                    end) = false) ->
      News.tryOrder env
      = ((if Js.truthy (News.TAVILY_API_KEY env) then [News.Tavily] else [])
         ++ (if Js.truthy (News.SERPER_API_KEY env) then [News.Serper] else []))%list).
Proof.
  intros g w n r entry.
  assert (forall st : list News.NewsArticle * list string,
            fst (News.GET env up key t0 t1 m)
            = (let cached := News.getCached t0 key m in
               let st4 := match fst st, cached with
                          | [], Some c => (News.cached_articles c, (snd st ++ ["cache:hit"])%list)
                          | _, _ => st
                          end in
               {| News.httpStatus := 200; News.status := "ok";
                  News.totalResults := Z.of_nat (List.length (fst st4));
                  News.articles := fst st4; News.error := None;
                  News.providerTrace :=
                    Some (match fst st4, cached with
                          | _ :: _, _ => snd st4
                          | [], Some c => News.cached_trace c
                          | [], None => snd st4
                          end) |}) ->
            forall x l tr, st = (x :: l, tr) ->
            News.articles r = x :: l /\ News.providerTrace r = Some tr) as Hfinal.
  { intros st Hst x l tr ->. subst r. rewrite Hst. simpl. auto. }
  assert (forall st,
            st = News.stage "newsapi" (News.fallbackNewsAPISearch up)
                   (News.stage "web" (News.searchWithWeb env up)
                      (if Js.str_eqb (Js.or_empty (News.USE_GEMINI_SEARCH env)) "true"
                       then News.stage "gemini" (News.searchWithGemini up) ([], [])
                       else ([], []))) ->
            forall x l tr, st = (x :: l, tr) ->
            News.articles r = x :: l /\ News.providerTrace r = Some tr) as Hrun.
  { intros st Hst. apply Hfinal. subst st. unfold News.GET, News.GET_body.
    destruct (News.stage "newsapi" _ _) as [arts trace]. simpl.
    destruct arts, (News.getCached t0 key m); reflexivity. }
  clear Hfinal.
  split; [|split; [|split; [|split; [|split; [|split]]]]].
  - intros Hg. subst g.
    destruct (Js.str_eqb (Js.or_empty (News.USE_GEMINI_SEARCH env)) "true"); [|congruence].
    destruct (News.stage_output (News.searchWithGemini up)) as [|x l] eqn:Hout; [congruence|].
    apply (Hrun _ eq_refl). run_stage Hout. reflexivity.
  - intros Hg Hw. subst g.
    destruct w as [|x l] eqn:Hout; [congruence|]. subst w.
    apply (Hrun _ eq_refl).
    destruct (Js.str_eqb (Js.or_empty (News.USE_GEMINI_SEARCH env)) "true");
      [run_stage Hg|]; run_stage Hout; reflexivity.
  - intros Hg Hw Hn. subst g.
    destruct n as [|x l] eqn:Hout; [congruence|]. subst w n.
    apply (Hrun _ eq_refl).
    destruct (Js.str_eqb (Js.or_empty (News.USE_GEMINI_SEARCH env)) "true");
      [run_stage Hg|]; run_stage Hw; run_stage Hout; reflexivity.
  - intros pre p post res Horder Hpre Hp Hres. subst w.
    unfold News.searchWithWeb. rewrite Horder.
    destruct (web_loop_first up pre post p res None Hpre Hp Hres) as [e ->].
    destruct (News.dedupeArticles res); [congruence|reflexivity].
  - intros p Hpref Hkey. unfold News.tryOrder, News.pushByName. rewrite Hpref.
    destruct p; simpl; rewrite Hkey; reflexivity.
  - intros Hpref Ht Hs. unfold News.tryOrder.
    destruct (News.WEB_SEARCH_PROVIDER env) as [[|c s']|]; try discriminate;
      simpl; rewrite Ht, Hs; reflexivity.
  - intros Hnone. unfold News.tryOrder, News.pushByName.
    destruct (News.nonempty _); [|reflexivity].
    set (preferred := Js.toLowerCase (Js.or_empty (News.WEB_SEARCH_PROVIDER env))) in *.
    destruct (Js.str_eqb preferred "tavily") eqn:Et;
      destruct (Js.str_eqb preferred "serper") eqn:Es;
      try (apply String.eqb_eq in Et); try (apply String.eqb_eq in Es).
    + rewrite Et in Es. discriminate Es.
    + rewrite (Hnone News.Tavily Et). reflexivity.
    + rewrite (Hnone News.Serper Es). reflexivity.
    + reflexivity.
Qed.

End ChainOrder.

(** Gemini and Tavily return nothing, Serper returns one article: the answer
    is the web stage's.  And with [WEB_SEARCH_PROVIDER=serper] but only the
    Tavily key set, the stage falls back on the providers that have a key. *)
Lemma fallback_order_witness :
  let up := {| News.searchWithGemini := Ok [];
               News.webSearchTavily := Ok [];
               News.webSearchSerper := Ok [Demo.audit_story];
               News.fallbackNewsAPISearch := Thrown "NewsAPI not configured" |} in
  let r := fst (News.GET (H := Demo.platform) (Demo.keyed_env None) up
                  "{category:dpwh}" 1000 1900 []) in
  let tavily_only :=
    {| News.USE_GEMINI_SEARCH := None; News.WEB_SEARCH_PROVIDER := Some "serper";
       News.TAVILY_API_KEY := Some "tvly-key"; News.SERPER_API_KEY := None |} in
  (News.articles r = [Demo.audit_story] /\ News.providerTrace r = Some ["web:1"])
  /\ News.tryOrder tavily_only = [News.Tavily].
Proof.
  intros up r tavily_only. split.
  - destruct (fallback_order (H := Demo.platform) (Demo.keyed_env None) up
                "{category:dpwh}" 1000 1900 []) as (_ & Hweb & _).
    apply Hweb; [reflexivity | discriminate].
  - destruct (fallback_order (H := Demo.platform) tavily_only up
                "{category:dpwh}" 1000 1900 []) as (_ & _ & _ & _ & _ & _ & Hother).
    apply Hother. intros [] Hname; [discriminate Hname|reflexivity].
Defined.

(** C2, as the specification words it, fails: with [WEB_SEARCH_PROVIDER=tavily]
    and both keys set, Tavily returns nothing, Serper would return one article
    that deduplication keeps, and the answer is empty: Serper is never
    called. *)
Lemma preferred_provider_is_tried_alone :
  let up := {| News.searchWithGemini := Ok [];
               News.webSearchTavily := Ok [];
               News.webSearchSerper := Ok [Demo.audit_story];
               News.fallbackNewsAPISearch := Thrown "NewsAPI not configured" |} in
  let r := fst (News.GET (H := Demo.platform) (Demo.keyed_env (Some "tavily")) up
                  "{category:dpwh}" 1000 1900 []) in
  News.dedupeArticles (H := Demo.platform) [Demo.audit_story] = [Demo.audit_story]
  /\ News.articles r = []
  /\ News.providerTrace r = Some [].
Proof. vm_compute. repeat split. Qed.

(** ** The life of a cache entry *)

Section CacheLife.
Context `{Platform}.

(** The only thing a request does to the cache is to write its own non-empty
    answer under its own key. *)
Lemma GET_cache_effect (env : News.Env) (up : News.Upstream) (key : string)
    (t0 t1 : Z) (m : News.Cache) :
  let r := fst (News.GET env up key t0 t1 m) in
  let m' := snd (News.GET env up key t0 t1 m) in
  (News.articles r = [] /\ m' = m)
  \/ (News.articles r <> []
      /\ exists trace, m' = News.setCached t1 key (News.articles r) trace m).
Proof.
  unfold News.GET, News.GET_body.
  destruct (match _ with [] => _ | _ => _ end) as [[|x arts] trace]; simpl.
  - now left.
  - right. split; [discriminate|]. now exists trace.
Qed.

(** What the cache code does by itself.  A lookup returns an entry only while
    less than the TTL has elapsed since the entry's timestamp, the time of its
    latest write.  Expiry removes nothing: a request changes the cache only by
    writing its own non-empty answer under its own key, and a write leaves
    every other entry in place except, when the size would exceed 100, one
    entry of minimal timestamp. *)
Theorem cache_serves_only_fresh_writes :
  (forall now key (m : News.Cache) e,
      News.getCached now key m = Some e ->
      News.map_get key m = Some e /\ now - News.ts e < News.CACHE_TTL_MS)
  /\ (forall env up key t0 t1 (m : News.Cache),
        (News.articles (fst (News.GET env up key t0 t1 m)) = []
         /\ snd (News.GET env up key t0 t1 m) = m)
        \/ (News.articles (fst (News.GET env up key t0 t1 m)) <> []
            /\ exists trace,
                snd (News.GET env up key t0 t1 m)
                = News.setCached t1 key
                    (News.articles (fst (News.GET env up key t0 t1 m))) trace m))
  /\ (forall now key arts trace (m : News.Cache) k,
        k <> key ->
        News.map_get k (News.setCached now key arts trace m) = News.map_get k m
        \/ ((News.MAX_CACHE_ENTRIES <= List.length m)%nat
            /\ exists e, In (k, e) m /\ News.ts e <= now
                /\ forall k' e', In (k', e') m -> k' <> key -> News.ts e <= News.ts e'))
  /\ (forall now key arts trace (m : News.Cache),
        (List.length m <= News.MAX_CACHE_ENTRIES)%nat ->
        (forall k e, In (k, e) m -> News.ts e <= now) ->
        News.map_get key (News.setCached now key arts trace m)
        = Some {| News.ts := now; News.cached_articles := arts;
                  News.cached_trace := trace |}).
Proof.
  split; [|split; [|split]].
  - intros now key m e. unfold News.getCached.
    destruct (News.map_get key m) as [e0|]; [|discriminate].
    destruct (now - News.ts e0 <? News.CACHE_TTL_MS) eqn:E; [|discriminate].
    intros [= ->]. apply Z.ltb_lt in E. auto.
  - intros. apply GET_cache_effect.
  - intros now key arts trace m k Hne.
    destruct (setCached_other now key k arts trace m Hne) as [Hsame|[Hfull Hold]];
      [now left|].
    right. split; [exact Hfull|].
    destruct (oldestKey_minimal _ _ Hold) as (e1 & Hin & Hmin).
    exists e1. split; [now apply map_set_In_other in Hin|]. split.
    + apply (Hmin key _ (map_set_In_own _ _ _)).
    + intros k' e' Hin' Hk'. apply (Hmin k' e'). now apply map_set_In_other.
  - intros. now apply setCached_own.
Qed.

End CacheLife.

(** An entry written at 10 ms is served at 59999 ms. *)
Lemma cache_serves_only_fresh_writes_witness :
  News.map_get "{category:dpwh}"
    (snd (News.GET (H := Demo.platform) (Demo.keyed_env None) Demo.newsapi_only
            "{category:dpwh}" 0 10 []))
  = Some {| News.ts := 10; News.cached_articles := [Demo.audit_story];
            News.cached_trace := ["newsapi:1"] |}
  /\ 59999 - 10 < News.CACHE_TTL_MS.
Proof.
  destruct (cache_serves_only_fresh_writes (H := Demo.platform))
    as (Hserved & _ & _ & _).
  apply (Hserved 59999 "{category:dpwh}"
           (snd (News.GET (H := Demo.platform) (Demo.keyed_env None) Demo.newsapi_only
                   "{category:dpwh}" 0 10 []))).
  reflexivity.
Defined.

(** C10, a defect of the code.  NewsAPI produces an article at time 0 (written
    at 10 ms).  Requests for the same key at 50 s and 100 s, with every
    provider down, are both served the article from the cache, the second one
    100 s after it was produced and 40 s past the TTL: the handler writes every
    non-empty answer back, also one it has just taken from the cache, so the
    request at 50 s stamped the entry anew; without that request, the one at
    100 s finds the entry expired and gets no article.  (A request for another
    key 200 s later finds the expired entry still stored: a lookup hides it,
    nothing removes it.) *)
Lemma cache_outlives_ttl :
  let env := Demo.keyed_env None in
  let m1 := snd (News.GET (H := Demo.platform) env Demo.newsapi_only
                   "{category:dpwh}" 0 10 []) in
  let m_other := snd (News.GET (H := Demo.platform) env Demo.all_rejecting
                        "{category:all}" 200000 200010 m1) in
  let m2 := snd (News.GET (H := Demo.platform) env Demo.all_rejecting
                   "{category:dpwh}" 50000 50010 m1) in
  let r3 := fst (News.GET (H := Demo.platform) env Demo.all_rejecting
                   "{category:dpwh}" 100000 100010 m2) in
  let r3_alone := fst (News.GET (H := Demo.platform) env Demo.all_rejecting
                         "{category:dpwh}" 100000 100010 m1) in
  m1 = [("{category:dpwh}",
         {| News.ts := 10; News.cached_articles := [Demo.audit_story];
            News.cached_trace := ["newsapi:1"] |})]
  /\ m_other = m1
  /\ News.getCached 200010 "{category:dpwh}" m_other = None
  /\ News.map_get "{category:dpwh}" m2
     = Some {| News.ts := 50010; News.cached_articles := [Demo.audit_story];
               News.cached_trace := ["cache:hit"] |}
  /\ News.CACHE_TTL_MS < 100000 - 10
  /\ News.articles r3 = [Demo.audit_story]
  /\ News.providerTrace r3 = Some ["cache:hit"]
  /\ News.articles r3_alone = []
  /\ News.providerTrace r3_alone = Some [].
Proof. vm_compute. repeat split. Qed.

(** ** The rate limiter *)

Section RateLimit.
Variable ip : string.
Implicit Types (m : gmap string Tldr.Bucket) (req : Tldr.Request).

Lemma POST_other_client (u : Result Z) (now : Z) req m :
  Tldr.getClientIp req <> ip ->
  snd (Tldr.POST false u now req m) !! ip = m !! ip.
Proof.
  intros Hne. unfold Tldr.POST.
  destruct (Tldr.body req) as [[[t d] c]|]; [|reflexivity].
  destruct (_ && _)%bool; [reflexivity|].
  unfold Tldr.checkRateLimit, Tldr.checkRateLimitMemory. simpl.
  match goal with
  | |- context [if ?b then _ else _] => destruct b
  end; simpl; now rewrite lookup_insert_ne.
Qed.

(** One request of the client on a bucket map: what it answers and the bucket
    it leaves. *)
Lemma POST_this_client (u : Result Z) (now : Z) req m :
  Tldr.getClientIp req = ip ->
  Tldr.has_text req = true ->
  let live :=
    match m !! ip with
    | Some e => if Tldr.resetSec e <=? Tldr.nowSec now then None else Some e
    | None => None
    end in
  let cnt := match live with Some e => Tldr.count e + 1 | None => 1 end in
  let reset := match live with
               | Some e => Tldr.resetSec e
               | None => Tldr.nowSec now + Tldr.RL_WINDOW_SECONDS
               end in
  snd (Tldr.POST false u now req m) !! ip
  = Some {| Tldr.count := cnt; Tldr.resetSec := reset |}
  /\ Tldr.passed (fst (Tldr.POST false u now req m)) = (cnt <=? Tldr.RL_MAX_REQUESTS)
  /\ Tldr.rejected429 (fst (Tldr.POST false u now req m))
     = negb (cnt <=? Tldr.RL_MAX_REQUESTS).
Proof.
  intros Hip Htext. unfold Tldr.POST, Tldr.has_text in *.
  destruct (Tldr.body req) as [[[t d] c]|]; [|discriminate].
  rewrite <- negb_orb, Htext. cbn [negb]. rewrite Hip.
  unfold Tldr.checkRateLimit, Tldr.checkRateLimitMemory.
  cbn [Tldr.RL_MAX_REQUESTS Z.leb Z.compare andb].
  destruct (m !! ip) as [e|]; [destruct (Tldr.resetSec e <=? Tldr.nowSec now)|];
    cbn [Tldr.count Tldr.resetSec Tldr.allowed fst snd];
    match goal with
    | |- context [?c <=? Tldr.RL_MAX_REQUESTS] =>
        destruct (c <=? Tldr.RL_MAX_REQUESTS) eqn:E
    end; cbn; rewrite ?lookup_insert_eq, ?E; auto.
Qed.

Lemma serve_app (a b : list (Z * Tldr.Request)) m :
  Tldr.serve (a ++ b) m
  = ((fst (Tldr.serve a m) ++ fst (Tldr.serve b (snd (Tldr.serve a m))))%list,
     snd (Tldr.serve b (snd (Tldr.serve a m)))).
Proof.
  revert m. induction a as [|[t r] a IH]; intros m; simpl.
  - now destruct (Tldr.serve b m).
  - destruct (Tldr.POST _ _ t r m) as [o m1]. rewrite IH.
    destruct (Tldr.serve a m1) as [os m2]. reflexivity.
Qed.

Lemma client_outcomes_app (a b : list (Z * Tldr.Request)) m :
  Tldr.client_outcomes ip (a ++ b) m
  = (Tldr.client_outcomes ip a m
     ++ Tldr.client_outcomes ip b (snd (Tldr.serve a m)))%list.
Proof.
  unfold Tldr.client_outcomes. rewrite serve_app. simpl.
  now rewrite List.filter_app, map_app.
Qed.

Lemma client_outcomes_cons (t : Z) req (rest : list (Z * Tldr.Request)) m :
  Tldr.client_outcomes ip ((t, req) :: rest) m
  = ((if Tldr.from_client ip req
      then [fst (Tldr.POST false (Thrown "Upstash is not configured") t req m)]
      else [])
     ++ Tldr.client_outcomes ip rest
          (snd (Tldr.POST false (Thrown "Upstash is not configured") t req m)))%list.
Proof.
  unfold Tldr.client_outcomes, Tldr.from_client. simpl.
  destruct (Tldr.POST _ _ t req m) as [o m1]. simpl.
  destruct (Tldr.serve rest m1) as [os m2]. simpl.
  now destruct (Js.str_eqb (Tldr.getClientIp req) ip).
Qed.

Lemma serve_cons_state (t : Z) req (rest : list (Z * Tldr.Request)) m :
  snd (Tldr.serve ((t, req) :: rest) m)
  = snd (Tldr.serve rest
           (snd (Tldr.POST false (Thrown "Upstash is not configured") t req m))).
Proof.
  simpl. destruct (Tldr.POST _ _ t req m) as [o m1]. simpl.
  now destruct (Tldr.serve rest m1).
Qed.

Lemma from_client_spec req : Tldr.from_client ip req = true <-> Tldr.getClientIp req = ip.
Proof. unfold Tldr.from_client, Js.str_eqb. apply String.eqb_eq. Qed.

(** Requests of other clients neither answer for this one nor touch its
    bucket. *)
Lemma serve_other_clients (reqs : list (Z * Tldr.Request)) m :
  (forall t r, In (t, r) reqs -> Tldr.getClientIp r <> ip) ->
  Tldr.client_outcomes ip reqs m = [] /\ snd (Tldr.serve reqs m) !! ip = m !! ip.
Proof.
  revert m. induction reqs as [|[t r] reqs IH]; intros m Hall; [split; reflexivity|].
  assert (Tldr.getClientIp r <> ip) as Hr by (apply (Hall t); now left).
  rewrite client_outcomes_cons, serve_cons_state.
  destruct (Tldr.from_client ip r) eqn:E; [apply from_client_spec in E; congruence|].
  destruct (IH (snd (Tldr.POST false (Thrown "Upstash is not configured") t r m)))
    as [-> ->]; [intros t' r' Hin; apply (Hall t'); now right|].
  split; [reflexivity|]. now apply POST_other_client.
Qed.

(** Inside a live window the n-th request of the client finds the counter at
    [c + n]: it passes while that stays within the limit and is answered 429
    afterwards, whatever other clients do in between. *)
Lemma serve_in_window (reqs : list (Z * Tldr.Request)) m (c R : Z) :
  m !! ip = Some {| Tldr.count := c; Tldr.resetSec := R |} ->
  (forall t r, In (t, r) reqs -> Tldr.getClientIp r = ip ->
               Tldr.has_text r = true /\ Tldr.nowSec t < R) ->
  let n := List.length (List.filter (fun tr => Tldr.from_client ip (snd tr)) reqs) in
  map Tldr.passed (Tldr.client_outcomes ip reqs m)
  = map (fun i => c + Z.of_nat i <=? Tldr.RL_MAX_REQUESTS) (seq 1 n)
  /\ map Tldr.rejected429 (Tldr.client_outcomes ip reqs m)
     = map (fun i => negb (c + Z.of_nat i <=? Tldr.RL_MAX_REQUESTS)) (seq 1 n)
  /\ snd (Tldr.serve reqs m) !! ip
     = Some {| Tldr.count := c + Z.of_nat n; Tldr.resetSec := R |}.
Proof.
  revert m c. induction reqs as [|[t r] reqs IH]; intros m c Hm Hall.
  - simpl. rewrite Z.add_0_r. auto.
  - rewrite client_outcomes_cons, serve_cons_state. cbn [List.filter snd].
    destruct (Tldr.from_client ip r) eqn:E.
    + apply from_client_spec in E.
      destruct (Hall t r (or_introl eq_refl) E) as [Htext Hlive].
      destruct (POST_this_client (Thrown "Upstash is not configured") t r m E Htext)
        as (Hb & Hp & Hr).
      rewrite Hm in Hb, Hp, Hr. cbn [Tldr.resetSec Tldr.count] in Hb, Hp, Hr.
      replace (R <=? Tldr.nowSec t) with false in Hb, Hp, Hr
        by (symmetry; apply Z.leb_gt; lia).
      destruct (IH _ (c + 1) Hb) as (IHp & IHr & IHs);
        [intros t' r' Hin; apply (Hall t'); now right|].
      cbn [List.length seq map app]. rewrite Hp, Hr, IHp, IHr, IHs, <- !seq_shift, !map_map.
      repeat split.
      * f_equal. apply map_ext. intros i. f_equal. lia.
      * f_equal. apply map_ext. intros i. do 2 f_equal. lia.
      * do 2 f_equal. lia.
    + assert (Tldr.getClientIp r <> ip) as Hne.
      { intros Hip. apply from_client_spec in Hip. congruence. }
      apply IH.
      * now rewrite POST_other_client.
      * intros t' r' Hin. apply (Hall t'). now right.
Qed.

(** C7.  With the limit of 10 requests per window of 60 s, a client whose
    first request opens a window gets its first ten requests of that window
    through, its eleventh is answered 429 with the heuristic summary and the
    [rateLimited] flag, and a request after the window has reset passes again;
    requests of other clients may be interleaved at will. *)
Theorem rate_limit_boundary (m : gmap string Tldr.Bucket)
    (pre mid : list (Z * Tldr.Request)) (t0 tl : Z) (r0 rl : Tldr.Request) :
  (forall t r, In (t, r) pre -> Tldr.getClientIp r <> ip) ->
  (m !! ip = None
   \/ exists e, m !! ip = Some e /\ Tldr.resetSec e <= Tldr.nowSec t0) ->
  Tldr.getClientIp r0 = ip -> Tldr.has_text r0 = true ->
  (forall t r, In (t, r) mid -> Tldr.getClientIp r = ip ->
               Tldr.has_text r = true
               /\ Tldr.nowSec t < Tldr.nowSec t0 + Tldr.RL_WINDOW_SECONDS) ->
  List.length (List.filter (fun tr => Tldr.from_client ip (snd tr)) mid) = 10%nat ->
  Tldr.getClientIp rl = ip -> Tldr.has_text rl = true ->
  Tldr.nowSec t0 + Tldr.RL_WINDOW_SECONDS <= Tldr.nowSec tl ->
  Tldr.RL_MAX_REQUESTS = 10 /\ Tldr.RL_WINDOW_SECONDS = 60
  /\ exists first10 eleventh after,
      Tldr.client_outcomes ip (pre ++ (t0, r0) :: mid ++ [(tl, rl)]) m
      = (first10 ++ [eleventh; after])%list
      /\ List.length first10 = 10%nat
      /\ Forall (fun o => Tldr.passed o = true) first10
      /\ Tldr.rejected429 eleventh = true
      /\ Tldr.passed after = true.
Proof.
  intros Hpre Hfresh Hr0 Htext0 Hmid Hten Hrl Htextl Hlater.
  split; [reflexivity|]. split; [reflexivity|].
  set (u := Thrown "Upstash is not configured" : Result Z).
  destruct (serve_other_clients pre m Hpre) as [Hout_pre Hst_pre].
  rewrite client_outcomes_app, Hout_pre, client_outcomes_cons.
  rewrite (proj2 (from_client_spec r0) Hr0).
  set (m0 := snd (Tldr.serve pre m)) in *.
  destruct (POST_this_client u t0 r0 m0 Hr0 Htext0) as (Hb0 & Hp0 & _).
  assert (match m0 !! ip with
          | Some e => if Tldr.resetSec e <=? Tldr.nowSec t0 then None else Some e
          | None => None
          end = None) as Hlive0.
  { rewrite Hst_pre. destruct Hfresh as [->|(e & -> & He)]; [reflexivity|].
    apply Z.leb_le in He. now rewrite He. }
  rewrite Hlive0 in Hb0, Hp0. fold u.
  set (o0 := fst (Tldr.POST false u t0 r0 m0)) in *.
  set (m1 := snd (Tldr.POST false u t0 r0 m0)) in *.
  rewrite client_outcomes_app.
  destruct (serve_in_window mid m1 1 _ Hb0 Hmid) as (Hpass & Hrej & Hst_mid).
  rewrite Hten in Hpass, Hrej, Hst_mid.
  set (outs := Tldr.client_outcomes ip mid m1) in *.
  set (m2 := snd (Tldr.serve mid m1)) in *.
  rewrite client_outcomes_cons, (proj2 (from_client_spec rl) Hrl). fold u.
  destruct (POST_this_client u tl rl m2 Hrl Htextl) as (_ & Hpl & _).
  rewrite Hst_mid in Hpl. cbn [Tldr.resetSec] in Hpl.
  apply Z.leb_le in Hlater. rewrite Hlater in Hpl.
  set (ol := fst (Tldr.POST false u tl rl m2)) in *.
  clearbody outs o0 ol.
  do 10 (destruct outs as [|? outs]; [discriminate|]).
  destruct outs; [|discriminate].
  injection Hpass as ? ? ? ? ? ? ? ? ? ?.
  injection Hrej as ? ? ? ? ? ? ? ? ? Hrej.
  eexists (o0 :: [_; _; _; _; _; _; _; _; _]), _, ol.
  split; [reflexivity|]. split; [reflexivity|]. split.
  - repeat constructor; assumption.
  - split; [exact Hrej | exact Hpl].
Qed.

End RateLimit.

(** ** The deduplicator *)

Section Dedupe.
Context `{Platform}.

Lemma nonempty_spec (s : string) : News.nonempty s = true <-> s <> EmptyString.
Proof. unfold News.nonempty. destruct s; simpl; split; congruence. Qed.

Lemma map_has_spec {V : Type} (k : string) (m : list (string * V)) :
  News.map_has k m = true <-> In k (map fst m).
Proof.
  unfold News.map_has. destruct (News.map_get k m) as [v|] eqn:E.
  - split; [intros _|reflexivity]. apply map_get_In in E. now apply (in_map fst) in E.
  - split; [discriminate|]. intros Hin. now apply map_get_absent_key in E.
Qed.

Lemma map_has_false {V : Type} (k : string) (m : list (string * V)) :
  News.map_has k m = false <-> ~ In k (map fst m).
Proof. rewrite <- map_has_spec. now destruct (News.map_has k m). Qed.

Lemma map_set_fresh {V : Type} (k : string) (v : V) (m : list (string * V)) :
  ~ In k (map fst m) -> News.map_set k v m = (m ++ [(k, v)])%list.
Proof.
  intros Hk. apply map_set_absent.
  destruct (News.map_get k m) eqn:E; [|reflexivity].
  exfalso. apply Hk. apply map_get_In in E. now apply (in_map fst) in E.
Qed.

Lemma title_entry_mono (U U' : News.Index) (ta : string * News.NewsArticle) :
  News.title_entry U ta -> News.title_entry (U ++ U') ta.
Proof.
  intros (Ht & Hne & Hex & Hu). repeat split; auto.
  destruct Hu as [Hu|Hu]; [now left|right].
  rewrite List.map_app. apply List.in_or_app. now left.
Qed.

(** The three ways an iteration of the first loop can go. *)
Lemma dedupe_step_cases (U T : News.Index) (a : News.NewsArticle) :
  (News.dedupe_step (U, T) a = (U, T)
   /\ (News.excluded a = true
       \/ ((News.keyUrl a = EmptyString \/ In (News.keyUrl a) (map fst U))
           /\ (News.keyTitle a = EmptyString \/ In (News.keyTitle a) (map fst T)))))
  \/ (News.dedupe_step (U, T) a = ((U ++ [(News.keyUrl a, a)])%list, T)
      /\ News.excluded a = false /\ News.keyUrl a <> EmptyString
      /\ ~ In (News.keyUrl a) (map fst U))
  \/ (News.dedupe_step (U, T) a = (U, (T ++ [(News.keyTitle a, a)])%list)
      /\ News.excluded a = false
      /\ (News.keyUrl a = EmptyString \/ In (News.keyUrl a) (map fst U))
      /\ News.keyTitle a <> EmptyString /\ ~ In (News.keyTitle a) (map fst T)).
Proof.
  unfold News.dedupe_step.
  destruct (News.excluded a) eqn:Hex; [left; auto|].
  destruct (News.nonempty (News.keyUrl a)) eqn:Hku;
    [apply nonempty_spec in Hku
    |assert (News.keyUrl a = EmptyString) as Hku'
       by (destruct (News.keyUrl a); [reflexivity|discriminate])];
    (destruct (News.map_has (News.keyUrl a) U) eqn:HhU;
     [apply map_has_spec in HhU|apply map_has_false in HhU]); simpl.
  2:{ right. left. rewrite (map_set_fresh _ _ _ HhU). auto. }
  all: (destruct (News.nonempty (News.keyTitle a)) eqn:Hkt;
        [apply nonempty_spec in Hkt
        |assert (News.keyTitle a = EmptyString) as Hkt'
           by (destruct (News.keyTitle a); [reflexivity|discriminate])];
        (destruct (News.map_has (News.keyTitle a) T) eqn:HhT;
         [apply map_has_spec in HhT|apply map_has_false in HhT]); simpl).
  all: try (right; right; rewrite (map_set_fresh _ _ _ HhT); now auto 8).
  all: left; now auto 8.
Qed.

Lemma NoDup_snoc {A : Type} (l : list A) (x : A) :
  List.NoDup l -> ~ In x l -> List.NoDup (l ++ [x]).
Proof.
  intros Hl Hx. apply List.NoDup_app; [exact Hl| |].
  - constructor; [intros []|constructor].
  - intros y Hy [<-|[]]. contradiction.
Qed.

Lemma dedupe_step_ok (st : News.Index * News.Index) (a : News.NewsArticle) :
  News.indexes_ok st -> News.indexes_ok (News.dedupe_step st a).
Proof.
  destruct st as [U T]. intros (HU & HnU & HT & HnT).
  destruct (dedupe_step_cases U T a)
    as [[-> _]|[(-> & Hex & Hne & Hfresh)|(-> & Hex & Hu & Hne & Hfresh)]];
    unfold News.indexes_ok in *; simpl in *.
  - auto.
  - split; [|split; [|split]].
    + apply List.Forall_app; split; [exact HU|].
      constructor; [|constructor]. unfold News.url_entry. simpl. auto.
    + rewrite List.map_app. simpl. now apply NoDup_snoc.
    + eapply List.Forall_impl; [|exact HT]. intros ta. apply title_entry_mono.
    + exact HnT.
  - split; [|split; [|split]]; auto.
    + apply List.Forall_app; split; [exact HT|].
      constructor; [|constructor]. unfold News.title_entry. simpl. auto.
    + rewrite List.map_app. simpl. now apply NoDup_snoc.
Qed.

Lemma dedupe_loop_ok (items : list News.NewsArticle) (st : News.Index * News.Index) :
  News.indexes_ok st -> News.indexes_ok (fold_left News.dedupe_step items st).
Proof.
  revert st. induction items as [|a items IH]; intros st Hst; simpl; [exact Hst|].
  apply IH. now apply dedupe_step_ok.
Qed.

Lemma title_in_spec (merged : list News.NewsArticle) (t : string) :
  News.title_in merged t = true <-> exists m, In m merged /\ News.keyTitle m = t.
Proof.
  unfold News.title_in. rewrite existsb_exists.
  split; intros (m & Hin & Hm); exists m; (split; [exact Hin|]);
    now apply String.eqb_eq.
Qed.

(** The second loop appends, in order, the entries of [byTitle] whose title no
    article of the initial [merged] has. *)
Lemma merge_loop_closed (T : News.Index) (merged : list News.NewsArticle) :
  Forall (fun ta => News.keyTitle (snd ta) = fst ta) T ->
  List.NoDup (map fst T) ->
  fold_left News.merge_step T merged
  = (merged ++ map snd (List.filter (News.kept merged) T))%list.
Proof.
  revert merged. induction T as [|[t a] T IH]; intros merged HT HN; simpl.
  - now rewrite app_nil_r.
  - apply List.Forall_cons_iff in HT as [Ha HT]. simpl in Ha.
    apply List.NoDup_cons_iff in HN as [Ht HN].
    unfold News.kept at 1. simpl. fold (News.title_in merged t).
    destruct (News.title_in merged t) eqn:E; simpl; [now apply IH|].
    rewrite IH by assumption. rewrite <- app_assoc. simpl. do 3 f_equal.
    apply List.filter_ext_in. intros [t' a'] Hin. unfold News.kept, News.title_in. simpl.
    rewrite existsb_app. simpl. rewrite Ha.
    assert (t <> t') as Hne by (intros ->; apply Ht; now apply (in_map fst) in Hin).
    apply String.eqb_neq in Hne. unfold Js.str_eqb at 2. rewrite Hne.
    now rewrite !orb_false_r.
Qed.

(** Running the first loop over the values of a well-formed [byUrl] rebuilds
    it. *)
Lemma replay_urls (U2 U1 T : News.Index) :
  Forall News.url_entry U2 -> List.NoDup (map fst (U1 ++ U2)) ->
  fold_left News.dedupe_step (map snd U2) (U1, T) = ((U1 ++ U2)%list, T).
Proof.
  revert U1. induction U2 as [|[k a] U2 IH]; intros U1 HF HN; simpl.
  - now rewrite app_nil_r.
  - apply List.Forall_cons_iff in HF as [(Hk & Hne & Hex) HF]. simpl in Hk, Hne, Hex.
    rewrite List.map_app in HN. simpl in HN.
    pose proof (List.NoDup_remove_2 _ _ _ HN) as Hfresh.
    assert (~ In k (map fst U1)) as HfU
      by (intros Hin; apply Hfresh, List.in_or_app; now left).
    rewrite Hex, Hk.
    rewrite (proj2 (nonempty_spec k) Hne), (proj2 (map_has_false k U1) HfU).
    simpl. rewrite (map_set_fresh _ _ _ HfU), IH.
    + now rewrite <- app_assoc.
    + exact HF.
    + rewrite <- app_assoc, List.map_app. exact HN.
Qed.

(** Running it over the values of a well-formed [byTitle], once [byUrl] is
    complete, rebuilds [byTitle]. *)
Lemma replay_titles (T2 U T1 : News.Index) :
  Forall (News.title_entry U) T2 -> List.NoDup (map fst (T1 ++ T2)) ->
  fold_left News.dedupe_step (map snd T2) (U, T1) = (U, (T1 ++ T2)%list).
Proof.
  revert T1. induction T2 as [|[t a] T2 IH]; intros T1 HF HN; simpl.
  - now rewrite app_nil_r.
  - apply List.Forall_cons_iff in HF as [(Ht & Hne & Hex & Hu) HF].
    simpl in Ht, Hne, Hex, Hu.
    rewrite List.map_app in HN. simpl in HN.
    pose proof (List.NoDup_remove_2 _ _ _ HN) as Hfresh.
    assert (~ In t (map fst T1)) as HfT
      by (intros Hin; apply Hfresh, List.in_or_app; now left).
    rewrite Hex, Ht.
    assert ((News.nonempty (News.keyUrl a)
             && negb (News.map_has (News.keyUrl a) U))%bool = false) as ->.
    { destruct Hu as [->|Hin]; [reflexivity|].
      apply map_has_spec in Hin. rewrite Hin. apply andb_false_r. }
    rewrite (proj2 (nonempty_spec t) Hne), (proj2 (map_has_false t T1) HfT).
    simpl. rewrite (map_set_fresh _ _ _ HfT), IH.
    + now rewrite <- app_assoc.
    + exact HF.
    + rewrite <- app_assoc, List.map_app. exact HN.
Qed.

Lemma filter_twice {A : Type} (f : A -> bool) (l : list A) :
  List.filter f (List.filter f l) = List.filter f l.
Proof.
  induction l as [|x l IH]; simpl; [reflexivity|].
  destruct (f x) eqn:E; simpl; rewrite ?E, IH; reflexivity.
Qed.

Lemma NoDup_map_filter {A B : Type} (g : A -> B) (f : A -> bool) (l : list A) :
  List.NoDup (map g l) -> List.NoDup (map g (List.filter f l)).
Proof.
  induction l as [|x l IH]; simpl; [auto|].
  intros HN. apply List.NoDup_cons_iff in HN as [Hx HN].
  destruct (f x); simpl; [|auto].
  constructor; [|auto]. intros Hin. apply Hx.
  apply List.in_map_iff in Hin as (y & Hy & Hin).
  apply List.filter_In in Hin as [Hin _].
  apply List.in_map_iff. eauto.
Qed.

Lemma Forall_filter_sub {A : Type} (P : A -> Prop) (f : A -> bool) (l : list A) :
  Forall P l -> Forall P (List.filter f l).
Proof.
  rewrite !List.Forall_forall. intros HP x Hin.
  apply List.filter_In in Hin as [Hin _]. auto.
Qed.

Lemma indexes_ok_nil : News.indexes_ok ([], []).
Proof. repeat split; constructor. Qed.

(** The result of [dedupeArticles], from the two indexes the first loop
    builds. *)
Lemma dedupe_closed (items : list News.NewsArticle) (U T : News.Index) :
  fold_left News.dedupe_step items ([], []) = (U, T) ->
  News.dedupeArticles items
  = (map snd U ++ map snd (List.filter (News.kept (map snd U)) T))%list.
Proof.
  intros Hloop. unfold News.dedupeArticles. rewrite Hloop.
  pose proof (dedupe_loop_ok items _ indexes_ok_nil) as (_ & _ & HT & HN).
  rewrite Hloop in HT, HN. simpl in HT, HN.
  apply merge_loop_closed; [|exact HN].
  eapply List.Forall_impl; [|exact HT]. now intros ta (Ht & _).
Qed.

(** C4.  Deduplicating a second time changes nothing. *)
Theorem dedupe_idempotent (items : list News.NewsArticle) :
  News.dedupeArticles (News.dedupeArticles items) = News.dedupeArticles items.
Proof.
  destruct (fold_left News.dedupe_step items ([], [])) as [U T] eqn:Hloop.
  pose proof (dedupe_loop_ok items _ indexes_ok_nil) as (HU & HNU & HT & HNT).
  rewrite Hloop in HU, HNU, HT, HNT. simpl in HU, HNU, HT, HNT.
  rewrite (dedupe_closed items U T Hloop).
  set (T' := List.filter (News.kept (map snd U)) T).
  assert (fold_left News.dedupe_step (map snd U ++ map snd T')%list ([], []) = (U, T'))
    as Hagain.
  { rewrite fold_left_app, (replay_urls U [] []) by assumption. simpl.
    apply (replay_titles T' U []).
    - now apply Forall_filter_sub.
    - simpl. now apply NoDup_map_filter. }
  rewrite (dedupe_closed _ U T' Hagain). subst T'. now rewrite filter_twice.
Qed.

(** [byUrl] only grows, and only by articles of the input under their own
    canonical URL. *)
Lemma loop_urls_grow (items : list News.NewsArticle) (st : News.Index * News.Index)
    (p : string * News.NewsArticle) :
  In p (fst st) -> In p (fst (fold_left News.dedupe_step items st)).
Proof.
  revert st. induction items as [|x items IH]; intros [U T] Hin; simpl; [exact Hin|].
  apply IH. simpl in Hin.
  destruct (dedupe_step_cases U T x) as [[Hs _]|[[Hs _]|[Hs _]]];
    simpl in Hs; rewrite Hs; simpl; auto using List.in_or_app.
Qed.

Lemma loop_url_keys (items : list News.NewsArticle) (st : News.Index * News.Index) (k : string) :
  In k (map fst (fst (fold_left News.dedupe_step items st))) ->
  In k (map fst (fst st)) \/ exists x, In x items /\ News.keyUrl x = k.
Proof.
  revert st. induction items as [|x items IH]; intros [U T] Hin; simpl in *; [now left|].
  destruct (IH _ Hin) as [Hk|(y & Hy & Hk)]; [|right; eauto].
  destruct (dedupe_step_cases U T x) as [[Hs _]|[[Hs _]|[Hs _]]];
    simpl in Hs; rewrite Hs in Hk; simpl in Hk; auto.
  rewrite List.map_app in Hk. apply List.in_app_or in Hk as [Hk|[<-|[]]]; [now left|].
  right. eauto.
Qed.

Lemma index_functional (U : News.Index) (k : string) (a b : News.NewsArticle) :
  List.NoDup (map fst U) -> In (k, a) U -> In (k, b) U -> a = b.
Proof.
  induction U as [|[k1 a1] U IH]; simpl; [tauto|].
  intros HN Ha Hb. apply List.NoDup_cons_iff in HN as [Hk HN].
  destruct Ha as [[= -> ->]|Ha], Hb as [[= <-]|Hb]; auto.
  - exfalso. apply Hk. now apply (in_map fst) in Hb.
  - exfalso. subst. apply Hk. now apply (in_map fst) in Ha.
Qed.

Lemma NoDup_values (key : News.NewsArticle -> string) (X : News.Index) :
  Forall (fun ka => key (snd ka) = fst ka) X ->
  List.NoDup (map fst X) -> List.NoDup (map snd X).
Proof.
  intros HX HN. apply (List.NoDup_map_inv key).
  rewrite map_map.
  replace (map (fun x => key (snd x)) X) with (map fst X); [exact HN|].
  apply List.map_ext_in. intros ka Hin. rewrite List.Forall_forall in HX.
  symmetry. now apply HX.
Qed.

(** No article occurs twice in the result. *)
Lemma dedupe_NoDup (items : list News.NewsArticle) :
  List.NoDup (News.dedupeArticles items).
Proof.
  destruct (fold_left News.dedupe_step items ([], [])) as [U T] eqn:Hloop.
  pose proof (dedupe_loop_ok items _ indexes_ok_nil) as (HU & HNU & HT & HNT).
  rewrite Hloop in HU, HNU, HT, HNT. simpl in HU, HNU, HT, HNT.
  rewrite (dedupe_closed items U T Hloop).
  apply List.NoDup_app.
  - apply (NoDup_values News.keyUrl); [|exact HNU].
    eapply List.Forall_impl; [|exact HU]. now intros ka (Hk & _).
  - apply (NoDup_values News.keyTitle).
    + apply Forall_filter_sub. eapply List.Forall_impl; [|exact HT]. now intros ta (Ht & _).
    + now apply NoDup_map_filter.
  - intros x HxU HxT.
    apply List.in_map_iff in HxT as ([t x'] & Hx' & Hin). simpl in Hx'. subst x'.
    apply List.filter_In in Hin as [Hin Hkept].
    rewrite List.Forall_forall in HT. destruct (HT _ Hin) as (Ht & _). simpl in Ht.
    unfold News.kept in Hkept. simpl in Hkept.
    assert (News.title_in (map snd U) t = true) as Htrue
      by (apply title_in_spec; eauto).
    rewrite Htrue in Hkept. discriminate.
Qed.

(** The first article of the list with a given canonical URL is indexed
    under it. *)
Lemma first_url_indexed (l1 rest : list News.NewsArticle) (a : News.NewsArticle)
    (U T : News.Index) :
  News.excluded a = false ->
  News.keyUrl a <> EmptyString ->
  (forall x, In x l1 -> News.keyUrl x <> News.keyUrl a) ->
  fold_left News.dedupe_step (l1 ++ a :: rest) ([], []) = (U, T) ->
  In (News.keyUrl a, a) U.
Proof.
  intros Hex Hne Hfirst Hloop.
  rewrite fold_left_app in Hloop. simpl in Hloop.
  destruct (fold_left News.dedupe_step l1 ([], [])) as [U1 T1] eqn:Hl1.
  assert (~ In (News.keyUrl a) (map fst U1)) as Hfresh.
  { intros Hin. pose proof (loop_url_keys l1 ([], []) (News.keyUrl a)) as Hk.
    rewrite Hl1 in Hk. destruct (Hk Hin) as [[]|(x & Hx & Hkx)].
    exact (Hfirst x Hx Hkx). }
  pose proof (loop_urls_grow rest (News.dedupe_step (U1, T1) a) (News.keyUrl a, a))
    as Hgrow.
  rewrite Hloop in Hgrow. apply Hgrow.
  destruct (dedupe_step_cases U1 T1 a)
    as [[_ [Hc|[[Hc|Hc] _]]]|[[Hs _]|[_ (_ & [Hc|Hc] & _)]]];
    try congruence; try contradiction.
  rewrite Hs. simpl. apply List.in_or_app. right. now left.
Qed.

(** C3, as the code has it.  Of two articles with the same non-empty canonical
    URL and the same normalised title, whose full URLs differ, the first being
    the first article of the list with that canonical URL and its host not on
    the deny-list, the result keeps the first, once, and drops the second. *)
Theorem url_collision_same_title_keeps_first
    (l1 l2 l3 : list News.NewsArticle) (a b : News.NewsArticle) :
  News.keyUrl a = News.keyUrl b ->
  News.keyUrl a <> EmptyString ->
  News.url a <> News.url b ->
  News.keyTitle a = News.keyTitle b ->
  News.excluded a = false ->
  (forall x, In x l1 -> News.keyUrl x <> News.keyUrl a) ->
  let out := News.dedupeArticles (l1 ++ a :: l2 ++ b :: l3) in
  In a out /\ ~ In b out /\ List.NoDup out.
Proof.
  intros Hkey Hne Hurl Htitle Hex Hfirst out.
  split; [|split]; [| |apply dedupe_NoDup].
  all: subst out.
  all: destruct (fold_left News.dedupe_step (l1 ++ a :: l2 ++ b :: l3) ([], []))
         as [U T] eqn:Hloop.
  all: pose proof (dedupe_loop_ok (l1 ++ a :: l2 ++ b :: l3) _ indexes_ok_nil)
         as (HU & HNU & HT & HNT).
  all: rewrite Hloop in HU, HNU, HT, HNT; simpl in HU, HNU, HT, HNT.
  all: rewrite (dedupe_closed _ U T Hloop).
  all: pose proof (first_url_indexed l1 _ a U T Hex Hne Hfirst Hloop) as HaU.
  - apply List.in_or_app. left. now apply (in_map snd) in HaU.
  - intros Hb. apply List.in_app_or in Hb as [Hb|Hb].
    + apply List.in_map_iff in Hb as ([k b'] & Hb' & Hin). simpl in Hb'. subst b'.
      rewrite List.Forall_forall in HU. destruct (HU _ Hin) as (Hk & _). simpl in Hk.
      subst k. rewrite <- Hkey in Hin.
      apply Hurl. f_equal. exact (index_functional U _ a b HNU HaU Hin).
    + apply List.in_map_iff in Hb as ([t b'] & Hb' & Hin). simpl in Hb'. subst b'.
      apply List.filter_In in Hin as [Hin Hkept].
      rewrite List.Forall_forall in HT. destruct (HT _ Hin) as (Ht & _). simpl in Ht.
      unfold News.kept in Hkept. simpl in Hkept.
      assert (News.title_in (map snd U) t = true) as Htrue.
      { apply title_in_spec. exists a. split; [now apply (in_map snd) in HaU|congruence]. }
      rewrite Htrue in Hkept. discriminate.
Qed.

End Dedupe.

(** Twelve requests of one client, with another client's requests in
    between. *)
Lemma rate_limit_boundary_witness :
  Tldr.RL_MAX_REQUESTS = 10 /\ Tldr.RL_WINDOW_SECONDS = 60
  /\ exists first10 eleventh after,
      Tldr.client_outcomes "203.0.113.7"
        ([(500, Demo.request "198.51.100.2" "Mayor arrested")]
         ++ (1000, Demo.request "203.0.113.7" "Audit finds ghost project")
            :: Demo.burst
            ++ [(61000, Demo.request "203.0.113.7" "Audit finds ghost project")]) ∅
      = (first10 ++ [eleventh; after])%list
      /\ List.length first10 = 10%nat
      /\ Forall (fun o => Tldr.passed o = true) first10
      /\ Tldr.rejected429 eleventh = true
      /\ Tldr.passed after = true.
Proof.
  apply (rate_limit_boundary "203.0.113.7" ∅).
  - intros t r [[= <- <-]|[]]. discriminate.
  - left. reflexivity.
  - reflexivity.
  - reflexivity.
  - intros t r Hin _. unfold Demo.burst in Hin. simpl in Hin.
    repeat (destruct Hin as [[= <- <-]|Hin]; [split; reflexivity|]).
    destruct Hin.
  - reflexivity.
  - reflexivity.
  - reflexivity.
  - discriminate.
Defined.

(** Two tracking-parameter variants of one story, with another story between
    them. *)
Lemma url_collision_same_title_keeps_first_witness :
  let a := Demo.article "COA flags flood control project"
             "https://www.rappler.com/nation/story?utm_source=facebook" in
  let b := Demo.article "COA flags   FLOOD control project "
             "https://www.rappler.com/nation/story?utm_source=twitter" in
  let out := News.dedupeArticles (H := Demo.platform)
               ([] ++ a :: [Demo.audit_story] ++ b :: []) in
  In a out /\ ~ In b out /\ List.NoDup out.
Proof.
  intros a b.
  apply (url_collision_same_title_keeps_first (H := Demo.platform)
           [] [Demo.audit_story] [] a b).
  - reflexivity.
  - discriminate.
  - discriminate.
  - reflexivity.
  - reflexivity.
  - intros x [].
Defined.

(** C3, as the specification words it, fails.  Two articles whose URLs differ
    only in the query string but whose titles differ are both kept; and when
    the host is on the deny-list neither is kept. *)
Lemma url_collision_different_titles_keeps_both :
  let a := Demo.article "Senator denies kickback report"
             "https://www.rappler.com/nation/story?utm_source=facebook" in
  let b := Demo.article "Senator faces plunder case"
             "https://www.rappler.com/nation/story?utm_source=twitter" in
  let ga := Demo.article "Senator denies kickback report"
              "https://news.google.com/articles/story?hl=en" in
  let gb := Demo.article "Senator denies kickback report"
              "https://news.google.com/articles/story?hl=tl" in
  News.keyUrl a = "https://www.rappler.com/nation/story"
  /\ News.keyUrl b = "https://www.rappler.com/nation/story"
  /\ News.url a <> News.url b
  /\ News.dedupeArticles (H := Demo.platform) [a; b] = [a; b]
  /\ News.keyUrl ga = News.keyUrl gb
  /\ News.url ga <> News.url gb
  /\ News.dedupeArticles (H := Demo.platform) [ga; gb] = [].
Proof. vm_compute. repeat split; discriminate. Qed.

(** ** Checks of the embedding against known values *)

Example sha1_abc : Sha1.hex "abc" = "a9993e364706816aba3e25717850c26c9cd0d89d".
Proof. vm_compute. reflexivity. Qed.

Example sha1_empty : Sha1.hex "" = "da39a3ee5e6b4b0d3255bfef95601890afd80709".
Proof. vm_compute. reflexivity. Qed.

Example sha1_two_blocks :
  Sha1.hex "abcdbcdecdefdefgefghfghighijhijkijkljklmklmnlmnomnopnopq"
  = "84983e441c3bd26ebaae4aa1f95129e5e54670f1".
Proof. vm_compute. reflexivity. Qed.

Example normalizeTitle_collapses :
  News.normalizeTitle (Some "  COA  Flags
 DPWH ") = "coa flags dpwh".
Proof. vm_compute. reflexivity. Qed.

Example split_query : Js.split "?"%char "u?a=1?b" = ["u"; "a=1"; "b"].
Proof. vm_compute. reflexivity. Qed.

Example iso_time_epoch : Demo.iso_time "2024-01-01T00:00:00.000Z" = Some 1704067200000.
Proof. vm_compute. reflexivity. Qed.

Example hostname_strips_www :
  News.getHostname (H := Demo.platform) (Some "https://www.rappler.com/nation/a?x=1")
  = "rappler.com".
Proof. vm_compute. reflexivity. Qed.

(** The scenario of the specification: "Canceled Nepo Babies of Pasig" is
    classified nepo-babies with a score of at least 5. *)
Example canceled_nepo_babies :
  Rss.isCorruptionRelated "Canceled Nepo Babies of Pasig" None
  = {| Rss.isRelevant := true; Rss.detectedCategory := News.NepoBabies; Rss.score := 15 |}.
Proof. vm_compute. reflexivity. Qed.

(** The scenario of the specification: two items with identical titles whose
    URLs differ only by [?utm_source=...] leave exactly one. *)
Example utm_duplicates_collapse :
  News.dedupeArticles (H := Demo.platform)
    [ Demo.article "COA flags flood control project"
        "https://www.rappler.com/nation/story?utm_source=facebook";
      Demo.article "COA flags flood control project"
        "https://www.rappler.com/nation/story?utm_source=twitter" ]
  = [ Demo.article "COA flags flood control project"
        "https://www.rappler.com/nation/story?utm_source=facebook" ].
Proof. vm_compute. reflexivity. Qed.

(** * Further properties of the code *)

(** ** Normalised titles *)

Lemma lower_ascii_idem (c : ascii) : Js.lower_ascii (Js.lower_ascii c) = Js.lower_ascii c.
Proof. destruct c as [[] [] [] [] [] [] [] []]; reflexivity. Qed.


Lemma toLowerCase_idem (s : string) : Js.toLowerCase (Js.toLowerCase s) = Js.toLowerCase s.
Proof. induction s as [|c s IH]; simpl; [reflexivity|]. now rewrite lower_ascii_idem, IH. Qed.






Lemma single_spaced_weaken (s : string) :
  Shape.single_spaced true s = true -> Shape.single_spaced false s = true.
Proof.
  destruct s as [|c s]; simpl; [reflexivity|].
  destruct (Js.is_space c); [|auto]. rewrite andb_false_r. discriminate.
Qed.



Lemma trimStart_no_lead (s : string) : Shape.first_is_space (Js.trimStart s) = false.
Proof.
  induction s as [|c s IH]; simpl; [reflexivity|].
  destruct (Js.is_space c) eqn:E; [exact IH|]. simpl. exact E.
Qed.

Lemma no_lead_trimStart (s : string) :
  Shape.first_is_space s = false -> Js.trimStart s = s.
Proof. destruct s as [|c s]; simpl; [reflexivity|]. now intros ->. Qed.

Lemma trimEnd_no_lead (s : string) :
  Shape.first_is_space s = false -> Shape.first_is_space (Js.trimEnd s) = false.
Proof.
  destruct s as [|c s]; simpl; [reflexivity|]. intros E.
  destruct (Js.trimEnd s); rewrite ?E; simpl; rewrite ?E; reflexivity.
Qed.


Lemma trimEnd_idem (s : string) : Js.trimEnd (Js.trimEnd s) = Js.trimEnd s.
Proof.
  induction s as [|c s IH]; simpl; [reflexivity|].
  destruct (Js.trimEnd s) as [|c' s'] eqn:Ht.
  - destruct (Js.is_space c) eqn:E; simpl; [reflexivity|now rewrite E].
  - simpl. simpl in IH. rewrite IH. reflexivity.
Qed.

Lemma trim_idem (s : string) : Js.trim (Js.trim s) = Js.trim s.
Proof.
  unfold Js.trim.
  rewrite (no_lead_trimStart (Js.trimEnd (Js.trimStart s)))
    by apply trimEnd_no_lead, trimStart_no_lead.
  apply trimEnd_idem.
Qed.










Section Titles.
Context `{Platform}.


End Titles.


(** ** The shape of a stable identifier *)

Lemma be_bytes_length (n : nat) (x : Z) : List.length (Sha1.be_bytes n x) = n.
Proof.
  revert x. induction n as [|n IH]; intros x; simpl; [reflexivity|].
  rewrite length_app, IH. simpl. lia.
Qed.

Lemma be_bytes_range (n : nat) (x : Z) :
  Forall (fun b => 0 <= b < 256) (Sha1.be_bytes n x).
Proof.
  revert x. induction n as [|n IH]; intros x; simpl; [constructor|].
  apply List.Forall_app. split; [apply IH|]. constructor; [|constructor].
  change 255 with (Z.ones 8). rewrite Z.land_ones by lia.
  apply Z.mod_pos_bound. lia.
Qed.

Lemma hex_digit_is_hex (n : Z) :
  0 <= n < 16 -> Shape.is_hex_digit (Sha1.hex_digit n) = true.
Proof.
  intros Hn. rewrite <- (Z2Nat.id n) by lia.
  assert (Z.to_nat n < 16)%nat as Hk by lia.
  revert Hk. generalize (Z.to_nat n) as k. intros k Hk.
  do 16 (destruct k as [|k]; [reflexivity|]). lia.
Qed.

Lemma hex_of_bytes_shape (bs : list Z) :
  Forall (fun b => 0 <= b < 256) bs ->
  String.length (Sha1.hex_of_bytes bs) = (2 * List.length bs)%nat
  /\ Shape.all_chars Shape.is_hex_digit (Sha1.hex_of_bytes bs) = true.
Proof.
  induction 1 as [|b bs Hb Hbs [IHl IHh]]; simpl; [auto|].
  split; [rewrite IHl; lia|].
  rewrite IHh, !hex_digit_is_hex; [reflexivity| |].
  - change 15 with (Z.ones 4). rewrite Z.land_ones by lia. apply Z.mod_pos_bound. lia.
  - rewrite Z.shiftr_div_pow2 by lia. change (2 ^ 4) with 16.
    split; [apply Z.div_pos; lia | apply Z.div_lt_upper_bound; lia].
Qed.

Lemma sha1_hex_shape (msg : string) :
  String.length (Sha1.hex msg) = 40%nat
  /\ Shape.all_chars Shape.is_hex_digit (Sha1.hex msg) = true.
Proof.
  unfold Sha1.hex, Sha1.digest_words. cbv zeta.
  set (st := fold_left Sha1.compress _ Sha1.init).
  cbn [map concat].
  destruct (hex_of_bytes_shape
              (Sha1.be_bytes 4 (Sha1.ha st) ++ Sha1.be_bytes 4 (Sha1.hb st)
               ++ Sha1.be_bytes 4 (Sha1.hc st) ++ Sha1.be_bytes 4 (Sha1.hd st)
               ++ Sha1.be_bytes 4 (Sha1.he st) ++ [])%list) as [Hl Hh].
  - repeat (apply List.Forall_app; split; [apply be_bytes_range|]). constructor.
  - split; [|exact Hh]. rewrite Hl, !length_app, !be_bytes_length. reflexivity.
Qed.

Lemma substring_prefix_shape (p : ascii -> bool) (n : nat) (s : string) :
  (n <= String.length s)%nat ->
  Shape.all_chars p s = true ->
  String.length (String.substring 0 n s) = n
  /\ Shape.all_chars p (String.substring 0 n s) = true.
Proof.
  revert s. induction n as [|n IH]; intros s Hn Hp.
  - destruct s; simpl; auto.
  - destruct s as [|c s]; simpl in *; [lia|].
    apply andb_prop in Hp as [Hc Hs].
    destruct (IH s) as [Hl Ha]; [lia|exact Hs|]. rewrite Hl, Hc, Ha. auto.
Qed.

(** X2.  Whatever the URL, the title and the random draw, an id is the
    provider prefix, an underscore and exactly 16 lower-case hexadecimal
    digits. *)
Theorem stableId_format (prefix : string) (u fallbackKey : option string) (rnd : string) :
  exists h,
    News.stableId prefix u fallbackKey rnd = (prefix ++ "_" ++ h)%string
    /\ String.length h = 16%nat
    /\ Shape.all_chars Shape.is_hex_digit h = true.
Proof.
  unfold News.stableId. eexists. split; [reflexivity|].
  destruct (sha1_hex_shape (News.stableKey u fallbackKey rnd)) as [Hl Hh].
  apply substring_prefix_shape; [rewrite Hl; lia | exact Hh].
Qed.

(** ** The date window, across revisions and across windows *)

Section Windows.
Context `{Platform}.

(** X3.  The earlier [withinWindow], which compares without testing for
    [NaN], answers as the current one on every input: the explicit invalid-date
    branches changed no result. *)
Theorem withinWindow_legacy_agrees (iso : string) (from to : option string) :
  Legacy.withinWindow iso from to = News.withinWindow iso from to.
Proof.
  unfold Legacy.withinWindow, News.withinWindow, Legacy.nan_lt.
  destruct (Js.truthy from), (Js.truthy to); simpl; try reflexivity;
    destruct (date_time iso) as [t|]; simpl; try reflexivity;
    repeat match goal with
           | |- context [date_time ?s] =>
               lazymatch s with
               | iso => fail
               | _ => destruct (date_time s) as [?|]
               end
           end; simpl;
    repeat match goal with
           | |- context [?a <? ?b] => destruct (a <? b)
           end; reflexivity.
Qed.

(** X4.  Widening the window never excludes a timestamp: one that is within
    [from, to] is within any window whose bounds parse and lie outside, and
    within the window left when a bound is dropped. *)
Theorem withinWindow_monotone (iso : string) (from to : option string) :
  News.withinWindow iso from to = true ->
  News.withinWindow iso None to = true
  /\ News.withinWindow iso from None = true
  /\ (forall f tf u tu f' tf' u' tu',
        from = Some f -> to = Some u ->
        f <> EmptyString -> u <> EmptyString ->
        date_time f = Some tf -> date_time u = Some tu ->
        date_time f' = Some tf' -> date_time u' = Some tu' ->
        tf' <= tf -> tu <= tu' ->
        News.withinWindow iso (Some f') (Some u') = true).
Proof.
  unfold News.withinWindow. intros Hin.
  split; [|split].
  - destruct (Js.truthy to) eqn:Hto; [|reflexivity].
    destruct (Js.truthy from); simpl in *; destruct (date_time iso); try reflexivity.
    + now destruct (match date_time (Js.or_empty from) with Some _ => _ | None => _ end).
    + exact Hin.
  - destruct (Js.truthy from) eqn:Hfrom; [|reflexivity].
    destruct (Js.truthy to); simpl in *; destruct (date_time iso); try reflexivity.
    + destruct (match date_time (Js.or_empty from) with Some _ => _ | None => _ end);
        [reflexivity|discriminate].
    + destruct (match date_time (Js.or_empty from) with Some _ => _ | None => _ end);
        [reflexivity|discriminate].
  - intros f tf u tu f' tf' u' tu' -> -> Hf Hu Htf Htu Htf' Htu' Hlo Hhi.
    apply truthy_Some_nonempty in Hf, Hu. rewrite Hf, Hu in Hin. simpl in Hin.
    rewrite Htf, Htu in Hin.
    destruct (Js.truthy (Some f')), (Js.truthy (Some u')); simpl;
      destruct (date_time iso) as [t|]; try reflexivity;
      rewrite ?Htf', ?Htu';
      destruct (t <? tf) eqn:E1; try discriminate;
      destruct (tu <? t) eqn:E2; try discriminate;
      apply Z.ltb_ge in E1, E2;
      repeat match goal with
             | |- context [?a <? ?b] =>
                 replace (a <? b) with false by (symmetry; apply Z.ltb_ge; lia)
             end; reflexivity.
Qed.

End Windows.

(** An article dated inside March 2024 stays inside the whole year. *)
Lemma withinWindow_monotone_witness :
  News.withinWindow (H := Demo.platform) "2024-03-10T08:00:00.000Z"
    (Some "2024-01-01T00:00:00.000Z") (Some "2024-12-28T00:00:00.000Z") = true.
Proof.
  destruct (withinWindow_monotone (H := Demo.platform) "2024-03-10T08:00:00.000Z"
              (Some "2024-03-01T00:00:00.000Z") (Some "2024-03-28T00:00:00.000Z")
              eq_refl) as (_ & _ & Hwide).
  apply (Hwide "2024-03-01T00:00:00.000Z" 1709251200000
               "2024-03-28T00:00:00.000Z" 1711584000000
               "2024-01-01T00:00:00.000Z" 1704067200000
               "2024-12-28T00:00:00.000Z" 1735344000000);
    first [reflexivity | discriminate].
Defined.

(** ** Curated domains *)

Section Curated.
Context `{Platform}.

Lemma arrayIncludes_In (arr : list string) (x : string) :
  Js.arrayIncludes arr x = true <-> In x arr.
Proof.
  unfold Js.arrayIncludes, Js.str_eqb. rewrite existsb_exists. split.
  - intros (y & Hy & Heq). apply String.eqb_eq in Heq. now subst.
  - intros Hin. exists x. split; [exact Hin|apply String.eqb_refl].
Qed.

(** X5.  An article hosted on one of the curated domains is always local,
    whatever source label the provider gave; it is never on the aggregator
    deny-list; and its guessed source name is the curated outlet of that
    domain, a name that passes the locality test by itself. *)
Theorem curated_domain_is_local (u name fallback : option string) :
  Js.arrayIncludes News.PH_DOMAINS (News.getHostname u) = true ->
  News.isLocalOutlet name u = true
  /\ Js.arrayIncludes News.EXCLUDE_DOMAINS (News.getHostname u) = false
  /\ exists outlet,
      News.guessSourceName u fallback = Some outlet
      /\ News.map_get (News.getHostname u) News.DOMAIN_TO_OUTLET = Some outlet
      /\ In outlet News.PH_OUTLETS
      /\ forall u', News.isLocalOutlet (Some outlet) u' = true.
Proof.
  intros Hdom. split; [unfold News.isLocalOutlet; now rewrite Hdom|].
  unfold News.guessSourceName.
  generalize dependent (News.getHostname u). intros host Hdom.
  apply arrayIncludes_In in Hdom. unfold News.PH_DOMAINS in Hdom. simpl in Hdom.
  repeat (destruct Hdom as [<-|Hdom];
          [split; [reflexivity|]; eexists; split; [reflexivity|];
           split; [reflexivity|]; split; [simpl; tauto|];
           intros u'; unfold News.isLocalOutlet;
           destruct (Js.arrayIncludes News.PH_DOMAINS (News.getHostname u'));
           reflexivity|]).
  destruct Hdom.
Qed.

End Curated.

(** A story on rappler.com labelled "Yahoo News" by the provider. *)
Lemma curated_domain_is_local_witness :
  News.isLocalOutlet (H := Demo.platform) (Some "Yahoo News")
    (Some "https://www.rappler.com/nation/flood-control-audit") = true
  /\ Js.arrayIncludes News.EXCLUDE_DOMAINS
       (News.getHostname (H := Demo.platform)
          (Some "https://www.rappler.com/nation/flood-control-audit")) = false
  /\ exists outlet,
      News.guessSourceName (H := Demo.platform)
        (Some "https://www.rappler.com/nation/flood-control-audit")
        (Some "Yahoo News") = Some outlet
      /\ News.map_get
           (News.getHostname (H := Demo.platform)
              (Some "https://www.rappler.com/nation/flood-control-audit"))
           News.DOMAIN_TO_OUTLET = Some outlet
      /\ In outlet News.PH_OUTLETS
      /\ forall u', News.isLocalOutlet (H := Demo.platform) (Some outlet) u' = true.
Proof.
  apply (curated_domain_is_local (H := Demo.platform)). reflexivity.
Defined.

(** ** What the deduplicator keeps *)

Section DedupeMore.
Context `{Platform}.

Lemma loop_titles_grow (items : list News.NewsArticle) (st : News.Index * News.Index)
    (p : string * News.NewsArticle) :
  In p (snd st) -> In p (snd (fold_left News.dedupe_step items st)).
Proof.
  revert st. induction items as [|x items IH]; intros [U T] Hin; simpl; [exact Hin|].
  apply IH. simpl in Hin.
  destruct (dedupe_step_cases U T x) as [[Hs _]|[[Hs _]|[Hs _]]];
    simpl in Hs; rewrite Hs; simpl; auto using List.in_or_app.
Qed.

(** Both indexes hold articles of the input only. *)
Lemma loop_origin (items : list News.NewsArticle) (st : News.Index * News.Index)
    (p : string * News.NewsArticle) :
  In p (fst (fold_left News.dedupe_step items st))
  \/ In p (snd (fold_left News.dedupe_step items st)) ->
  In p (fst st) \/ In p (snd st) \/ In (snd p) items.
Proof.
  revert st. induction items as [|x items IH]; intros [U T] Hin; simpl in *; [tauto|].
  destruct (IH _ Hin) as [Hp|[Hp|Hp]]; [| |tauto];
    destruct (dedupe_step_cases U T x) as [[Hs _]|[[Hs _]|[Hs _]]];
    simpl in Hs; rewrite Hs in Hp; simpl in Hp; auto;
    apply List.in_app_or in Hp as [Hp|[<-|[]]]; simpl; auto.
Qed.

Lemma url_keys_grow (items : list News.NewsArticle) (st : News.Index * News.Index)
    (k : string) :
  In k (map fst (fst st)) -> In k (map fst (fst (fold_left News.dedupe_step items st))).
Proof.
  intros Hin. apply List.in_map_iff in Hin as (p & <- & Hin).
  apply in_map. now apply loop_urls_grow.
Qed.

Lemma loop_url_complete (items : list News.NewsArticle) (st : News.Index * News.Index)
    (a : News.NewsArticle) :
  In a items -> News.excluded a = false -> News.keyUrl a <> EmptyString ->
  In (News.keyUrl a) (map fst (fst (fold_left News.dedupe_step items st))).
Proof.
  revert st. induction items as [|x items IH]; intros [U T] Hin Hex Hne; [destruct Hin|].
  destruct Hin as [->|Hin]; [|now apply IH]. cbn [fold_left].
  apply url_keys_grow.
  destruct (dedupe_step_cases U T a)
    as [[Hs [Hc|[[Hc|Hc] _]]]|[[Hs _]|[Hs (_ & [Hc|Hc] & _)]]];
    try congruence; rewrite Hs; simpl; auto.
  rewrite List.map_app. apply List.in_or_app. right. now left.
Qed.

Lemma loop_title_complete (items : list News.NewsArticle) (st : News.Index * News.Index)
    (a : News.NewsArticle) :
  In a items -> News.excluded a = false -> News.keyTitle a <> EmptyString ->
  In (News.keyTitle a) (map fst (snd (fold_left News.dedupe_step items st)))
  \/ In (News.keyUrl a, a) (fst (fold_left News.dedupe_step items st)).
Proof.
  revert st. induction items as [|x items IH]; intros [U T] Hin Hex Hne; [destruct Hin|].
  destruct Hin as [->|Hin]; [|now apply IH]. cbn [fold_left].
  destruct (dedupe_step_cases U T a)
    as [[Hs [Hc|[_ [Hc|Hc]]]]|[[Hs _]|[Hs _]]];
    try congruence; rewrite Hs.
  - left. apply List.in_map_iff in Hc as (p & <- & Hp).
    apply in_map. now apply loop_titles_grow.
  - right. apply loop_urls_grow. simpl. apply List.in_or_app. right. now left.
  - left. apply (in_map fst (snd (fold_left News.dedupe_step items _))
                   (News.keyTitle a, a)).
    apply loop_titles_grow. simpl. apply List.in_or_app. right. now left.
Qed.

(** The result holds articles of the input only, none from the deny-list. *)
Lemma dedupe_sound (items : list News.NewsArticle) (a : News.NewsArticle) :
  In a (News.dedupeArticles items) -> In a items /\ News.excluded a = false.
Proof.
  destruct (fold_left News.dedupe_step items ([], [])) as [U T] eqn:Hloop.
  pose proof (dedupe_loop_ok items _ indexes_ok_nil) as (HU & _ & HT & _).
  rewrite Hloop in HU, HT. simpl in HU, HT.
  rewrite (dedupe_closed items U T Hloop).
  rewrite List.Forall_forall in HU, HT.
  intros Hin.
  assert (exists k, (In (k, a) U \/ In (k, a) T) /\ News.excluded a = false)
    as (k & Hka & Hex).
  { apply List.in_app_or in Hin as [Hin|Hin];
      apply List.in_map_iff in Hin as ([k a'] & Ha & Hin); simpl in Ha; subst a'.
    - exists k. split; [now left|]. now destruct (HU _ Hin) as (_ & _ & Hex).
    - apply List.filter_In in Hin as [Hin _].
      exists k. split; [now right|]. now destruct (HT _ Hin) as (_ & _ & Hex & _). }
  split; [|exact Hex].
  pose proof (loop_origin items ([], []) (k, a)) as Ho. rewrite Hloop in Ho.
  destruct (Ho Hka) as [[]|[[]|Ho']]. exact Ho'.
Qed.

Lemma loop_size (items : list News.NewsArticle) (st : News.Index * News.Index) :
  (List.length (fst (fold_left News.dedupe_step items st))
   + List.length (snd (fold_left News.dedupe_step items st))
   <= List.length (fst st) + List.length (snd st) + List.length items)%nat.
Proof.
  revert st. induction items as [|x items IH]; intros [U T]; simpl; [lia|].
  etransitivity; [apply IH|].
  destruct (dedupe_step_cases U T x) as [[Hs _]|[[Hs _]|[Hs _]]];
    simpl in Hs; rewrite Hs; simpl; rewrite ?List.length_app; simpl; lia.
Qed.

(** The result is never longer than the input. *)
Lemma dedupe_length (items : list News.NewsArticle) :
  (List.length (News.dedupeArticles items) <= List.length items)%nat.
Proof.
  destruct (fold_left News.dedupe_step items ([], [])) as [U T] eqn:Hloop.
  rewrite (dedupe_closed items U T Hloop).
  pose proof (loop_size items ([], [])) as Hsz. rewrite Hloop in Hsz. simpl in Hsz.
  rewrite List.length_app, !List.length_map.
  pose proof (List.filter_length_le (News.kept (map snd U)) T). lia.
Qed.

(** X6.  The deduplicator invents nothing and loses no key: every article of
    the result is an article of the input, off the deny-list, with a canonical
    URL or a title; and every canonical URL and every normalised title of an
    input article that is off the deny-list is still carried by some article of
    the result. *)
Theorem dedupe_sound_and_complete (items : list News.NewsArticle) :
  (forall a, In a (News.dedupeArticles items) ->
             In a items /\ News.excluded a = false
             /\ (News.keyUrl a <> EmptyString \/ News.keyTitle a <> EmptyString))
  /\ (forall a, In a items -> News.excluded a = false ->
        (News.keyUrl a <> EmptyString ->
         exists b, In b (News.dedupeArticles items) /\ News.keyUrl b = News.keyUrl a)
        /\ (News.keyTitle a <> EmptyString ->
            exists b, In b (News.dedupeArticles items)
                      /\ News.keyTitle b = News.keyTitle a)).
Proof.
  destruct (fold_left News.dedupe_step items ([], [])) as [U T] eqn:Hloop.
  pose proof (dedupe_loop_ok items _ indexes_ok_nil) as (HU & HNU & HT & HNT).
  rewrite Hloop in HU, HNU, HT, HNT. simpl in HU, HNU, HT, HNT.
  rewrite (dedupe_closed items U T Hloop).
  rewrite List.Forall_forall in HU, HT.
  split.
  - intros a Hin. apply List.in_app_or in Hin as [Hin|Hin];
      apply List.in_map_iff in Hin as ([k a'] & Ha & Hin); simpl in Ha; subst a'.
    + destruct (HU _ Hin) as (Hk & Hne & Hex). simpl in *.
      split; [|split; [exact Hex|left; congruence]].
      pose proof (loop_origin items ([], []) (k, a)) as Ho. rewrite Hloop in Ho.
      destruct Ho as [[]|[[]|Ho]]; [now left|exact Ho].
    + apply List.filter_In in Hin as [Hin _].
      destruct (HT _ Hin) as (Hk & Hne & Hex & _). simpl in *.
      split; [|split; [exact Hex|right; congruence]].
      pose proof (loop_origin items ([], []) (k, a)) as Ho. rewrite Hloop in Ho.
      destruct Ho as [[]|[[]|Ho]]; [now right|exact Ho].
  - intros a Hin Hex. split; intros Hne.
    + pose proof (loop_url_complete items ([], []) a Hin Hex Hne) as Hk.
      rewrite Hloop in Hk. simpl in Hk.
      apply List.in_map_iff in Hk as ([k b] & Hkb & Hb). simpl in Hkb. subst k.
      exists b. split; [apply List.in_or_app; left; now apply (in_map snd) in Hb|].
      now destruct (HU _ Hb) as (Hk & _).
    + pose proof (loop_title_complete items ([], []) a Hin Hex Hne) as Hk.
      rewrite Hloop in Hk. simpl in Hk. destruct Hk as [Hk|Hk].
      * apply List.in_map_iff in Hk as ([t b] & Htb & Hb). simpl in Htb. subst t.
        destruct (HT _ Hb) as (Ht & _). simpl in Ht.
        destruct (News.kept (map snd U) (News.keyTitle a, b)) eqn:Hkept.
        -- exists b. split; [|exact Ht]. apply List.in_or_app. right.
           apply (in_map snd _ (News.keyTitle a, b)). now apply List.filter_In.
        -- unfold News.kept in Hkept. simpl in Hkept. apply negb_false_iff in Hkept.
           apply title_in_spec in Hkept as (m & Hm & Hmt).
           exists m. split; [apply List.in_or_app; now left|exact Hmt].
      * exists a. split; [|reflexivity]. apply List.in_or_app. left.
        now apply (in_map snd) in Hk.
Qed.

Lemma NoDup_pairs_l {A B C : Type} (f : A -> B) (g : A -> C) (l : list A) :
  List.NoDup (map f l) -> List.NoDup (map (fun a => (f a, g a)) l).
Proof.
  induction l as [|x l IH]; simpl; [constructor|].
  intros HN. apply List.NoDup_cons_iff in HN as [Hx HN].
  constructor; [|auto]. intros Hin. apply Hx.
  apply List.in_map_iff in Hin as (y & [= Hy _] & Hin).
  apply List.in_map_iff. eauto.
Qed.

Lemma NoDup_pairs_r {A B C : Type} (f : A -> B) (g : A -> C) (l : list A) :
  List.NoDup (map g l) -> List.NoDup (map (fun a => (f a, g a)) l).
Proof.
  induction l as [|x l IH]; simpl; [constructor|].
  intros HN. apply List.NoDup_cons_iff in HN as [Hx HN].
  constructor; [|auto]. intros Hin. apply Hx.
  apply List.in_map_iff in Hin as (y & [= _ Hy] & Hin).
  apply List.in_map_iff. eauto.
Qed.

Lemma index_keys (key : News.NewsArticle -> string) (X : News.Index) :
  Forall (fun ka => key (snd ka) = fst ka) X -> map key (map snd X) = map fst X.
Proof.
  intros HX. rewrite map_map. apply List.map_ext_in. intros ka Hin.
  rewrite List.Forall_forall in HX. now apply HX.
Qed.

(** X7.  What the deduplicator guarantees: no two articles of the result have
    both the same canonical URL and the same normalised title. *)
Theorem dedupe_distinct_keys (items : list News.NewsArticle) :
  List.NoDup (map (fun a => (News.keyUrl a, News.keyTitle a)) (News.dedupeArticles items)).
Proof.
  destruct (fold_left News.dedupe_step items ([], [])) as [U T] eqn:Hloop.
  pose proof (dedupe_loop_ok items _ indexes_ok_nil) as (HU & HNU & HT & HNT).
  rewrite Hloop in HU, HNU, HT, HNT. simpl in HU, HNU, HT, HNT.
  rewrite (dedupe_closed items U T Hloop), List.map_app.
  set (T' := List.filter (News.kept (map snd U)) T).
  assert (Forall (fun ta => News.keyTitle (snd ta) = fst ta) T') as HT'.
  { apply Forall_filter_sub. eapply List.Forall_impl; [|exact HT]. now intros ta (Ht & _). }
  apply List.NoDup_app.
  - apply NoDup_pairs_l. rewrite (index_keys News.keyUrl); [exact HNU|].
    eapply List.Forall_impl; [|exact HU]. now intros ka (Hk & _).
  - apply NoDup_pairs_r. rewrite (index_keys News.keyTitle _ HT').
    now apply NoDup_map_filter.
  - intros [ku kt] HinU HinT.
    apply List.in_map_iff in HinU as (a & [= Hau Hat] & Ha).
    apply List.in_map_iff in HinT as (b & [= Hbu Hbt] & Hb).
    apply List.in_map_iff in Hb as ([t b'] & Hb' & Hb). simpl in Hb'. subst b'.
    rewrite List.Forall_forall in HT'. pose proof (HT' _ Hb) as Ht. simpl in Ht.
    apply List.filter_In in Hb as [_ Hkept].
    unfold News.kept in Hkept. simpl in Hkept.
    assert (News.title_in (map snd U) t = true) as Htrue
      by (apply title_in_spec; exists a; split; [exact Ha|congruence]).
    rewrite Htrue in Hkept. discriminate.
Qed.

(** X8.  A list of articles off the deny-list whose canonical URLs are not
    empty and pairwise distinct is returned unchanged, in the same order. *)
Theorem dedupe_keeps_distinct_urls (items : list News.NewsArticle) :
  List.NoDup (map News.keyUrl items) ->
  (forall a, In a items -> News.keyUrl a <> EmptyString /\ News.excluded a = false) ->
  News.dedupeArticles items = items.
Proof.
  intros HN Hall.
  set (U := map (fun a => (News.keyUrl a, a)) items).
  assert (map snd U = items) as Hvals
    by (unfold U; rewrite map_map; simpl; apply map_id).
  assert (map fst U = map News.keyUrl items) as Hkeys
    by (unfold U; rewrite map_map; reflexivity).
  assert (fold_left News.dedupe_step items ([], []) = (U, [])) as Hloop.
  { rewrite <- Hvals at 1. apply (replay_urls U [] []).
    - unfold U. apply List.Forall_forall. intros ka Hin.
      apply List.in_map_iff in Hin as (a & <- & Ha).
      destruct (Hall a Ha). repeat split; assumption.
    - simpl. now rewrite Hkeys. }
  rewrite (dedupe_closed items U [] Hloop). simpl. now rewrite app_nil_r.
Qed.

End DedupeMore.

Lemma dedupe_keeps_distinct_urls_witness :
  News.dedupeArticles (H := Demo.platform)
    [ Demo.audit_story;
      Demo.article "Mayor faces graft case" "https://www.philstar.com/nation/graft?page=2" ]
  = [ Demo.audit_story;
      Demo.article "Mayor faces graft case" "https://www.philstar.com/nation/graft?page=2" ].
Proof.
  apply (dedupe_keeps_distinct_urls (H := Demo.platform)).
  - repeat constructor; simpl; intuition discriminate.
  - intros a [<-|[<-|[]]]; split; first [discriminate | reflexivity].
Defined.

(** Three items, the third a tracking-parameter copy of the first: its
    canonical URL is still carried by the result. *)
Lemma dedupe_sound_and_complete_witness :
  exists b,
    In b (News.dedupeArticles (H := Demo.platform)
            [ Demo.audit_story;
              Demo.article "Mayor faces graft case" "https://www.philstar.com/nation/graft";
              Demo.article "COA flags flood control project"
                "https://www.rappler.com/nation/flood-control-audit?utm_source=x" ])
    /\ News.keyUrl b = "https://www.rappler.com/nation/flood-control-audit".
Proof.
  destruct (dedupe_sound_and_complete (H := Demo.platform)
              [ Demo.audit_story;
                Demo.article "Mayor faces graft case" "https://www.philstar.com/nation/graft";
                Demo.article "COA flags flood control project"
                  "https://www.rappler.com/nation/flood-control-audit?utm_source=x" ])
    as [_ Hcomplete].
  destruct (Hcomplete
              (Demo.article "COA flags flood control project"
                 "https://www.rappler.com/nation/flood-control-audit?utm_source=x"))
    as [Hurl _].
  - simpl. tauto.
  - reflexivity.
  - apply Hurl. discriminate.
Defined.

(** ** The web-search stage *)

Section WebStage.
Context `{Platform}.

Lemma tryOrder_keyed (env : News.Env) (p : News.WebProvider) :
  In p (News.tryOrder env) -> Js.truthy (Inv.api_key env p) = true.
Proof.
  unfold News.tryOrder, News.pushByName.
  destruct (News.nonempty _);
    [destruct (Js.str_eqb _ "tavily"), (Js.str_eqb _ "serper")|];
    destruct (Js.truthy (News.TAVILY_API_KEY env)) eqn:Ht;
    destruct (Js.truthy (News.SERPER_API_KEY env)) eqn:Hs; simpl;
    intros Hin; repeat (destruct Hin as [<-|Hin]; [assumption|]); destruct Hin.
Qed.

(** The loop, started empty, ends empty or with the deduplicated answer of a
    provider of its list. *)
Lemma web_loop_result (up : News.Upstream) (order : list News.WebProvider)
    (firstError : option string) :
  fst (News.web_loop up order [] firstError) = []
  \/ exists p res,
      In p order /\ News.web_call up p = Ok res
      /\ fst (News.web_loop up order [] firstError) = News.dedupeArticles res.
Proof.
  revert firstError. induction order as [|q order IH]; intros firstError; simpl;
    [now left|].
  destruct (News.web_call up q) as [res|msg] eqn:Hq.
  - simpl. destruct (News.dedupeArticles res) as [|x l] eqn:Hd.
    + destruct (IH firstError) as [He|(p & r & Hp & Hr & He)]; [now left|].
      right. exists p, r. auto.
    + right. exists q, res. simpl. rewrite Hd. auto.
  - destruct (IH (match firstError with Some _ => firstError | None => Some msg end))
      as [He|(p & r & Hp & Hr & He)]; [now left|].
    right. exists p, r. auto.
Qed.

(** The error the loop remembers is the one it was given or that of the first
    provider of its list that rejected. *)
Lemma web_loop_error (up : News.Upstream) (order : list News.WebProvider)
    (firstError : option string) (e : string) :
  snd (News.web_loop up order [] firstError) = Some e ->
  firstError = Some e
  \/ (firstError = None
      /\ exists pre p post,
          order = (pre ++ p :: post)%list
          /\ News.web_call up p = Thrown e
          /\ forall q, In q pre -> Inv.is_thrown (News.web_call up q) = false).
Proof.
  revert firstError. induction order as [|q order IH]; intros firstError; simpl;
    [now left|].
  destruct (News.web_call up q) as [res|msg] eqn:Hq.
  - simpl. destruct (News.dedupeArticles res) as [|x l].
    + intros He. destruct (IH _ He) as [Hf|(Hf & pre & p & post & -> & Hp & Hpre)];
        [now left|].
      right. split; [exact Hf|]. exists (q :: pre), p, post.
      repeat split; auto. intros q' [<-|Hin]; [now rewrite Hq|auto].
    + simpl. now left.
  - intros He. destruct firstError as [e0|].
    + destruct (IH _ He) as [Hf|(Hf & _)]; [now left|discriminate].
    + right. split; [reflexivity|].
      destruct (IH _ He) as [[= <-]|(Hf & _)]; [|discriminate].
      exists [], q, order. repeat split; auto. intros q' [].
Qed.

(** X9.  When the web-search stage resolves, its list is never empty, and it
    is the deduplicated answer of one provider that has an API key: a provider
    without key is never called. *)
Theorem searchWithWeb_resolves_nonempty (env : News.Env) (up : News.Upstream)
    (items : list News.NewsArticle) :
  News.searchWithWeb env up = Ok items ->
  items <> []
  /\ exists p res,
      In p (News.tryOrder env)
      /\ Js.truthy (Inv.api_key env p) = true
      /\ News.web_call up p = Ok res
      /\ items = News.dedupeArticles res.
Proof.
  unfold News.searchWithWeb.
  pose proof (web_loop_result up (News.tryOrder env) None) as Hres.
  destruct (News.web_loop up (News.tryOrder env) [] None) as [[|x l] [e|]] eqn:Hloop;
    try discriminate; intros [= <-]; simpl in Hres;
    (destruct Hres as [Hres|(p & res & Hp & Hr & Hd)]; [discriminate|]);
    (split; [discriminate|]);
    exists p, res; auto using tryOrder_keyed.
Qed.

End WebStage.

Section WebStageErrors.
Context `{Platform}.

Lemma web_loop_error_kept (up : News.Upstream) (order : list News.WebProvider)
    (collected : list News.NewsArticle) (e : string) :
  snd (News.web_loop up order collected (Some e)) = Some e.
Proof.
  revert collected. induction order as [|q order IH]; intros collected; simpl;
    [reflexivity|].
  destruct (News.web_call up q) as [res|msg]; [|apply IH].
  destruct (News.dedupeArticles (collected ++ res)); [apply IH|reflexivity].
Qed.

Lemma web_loop_quiet (up : News.Upstream) (order : list News.WebProvider) :
  fst (News.web_loop up order [] None) = [] ->
  snd (News.web_loop up order [] None) = None ->
  forall q, In q order -> Inv.is_thrown (News.web_call up q) = false.
Proof.
  induction order as [|q order IH]; simpl; [intros _ _ q []|].
  destruct (News.web_call up q) as [res|msg] eqn:Hq.
  - simpl. destruct (News.dedupeArticles res) as [|x l]; [|discriminate].
    intros He Hn q' [<-|Hin]; [now rewrite Hq|]. now apply IH.
  - intros _ Hn. now rewrite web_loop_error_kept in Hn.
Qed.

(** X10.  When the web-search stage rejects, it rejects with the error of the
    first provider it called that rejected; when none of the providers it
    called rejected, or none has an API key, it rejects with its own "no
    provider" message. *)
Theorem searchWithWeb_rejection (env : News.Env) (up : News.Upstream) (e : string) :
  News.searchWithWeb env up = Thrown e ->
  (e = "No web search provider available or returned results."
   /\ forall q, In q (News.tryOrder env) -> Inv.is_thrown (News.web_call up q) = false)
  \/ exists pre p post,
      News.tryOrder env = (pre ++ p :: post)%list
      /\ News.web_call up p = Thrown e
      /\ forall q, In q pre -> Inv.is_thrown (News.web_call up q) = false.
Proof.
  unfold News.searchWithWeb.
  pose proof (web_loop_error up (News.tryOrder env) None) as Herr.
  pose proof (web_loop_quiet up (News.tryOrder env)) as Hquiet.
  destruct (News.web_loop up (News.tryOrder env) [] None) as [[|x l] [e0|]];
    try discriminate; intros [= <-]; simpl in *.
  - right. destruct (Herr e0 eq_refl) as [[=]|(_ & pre & p & post & Ho & Hp & Hpre)].
    exists pre, p, post. auto.
  - left. auto.
Qed.

End WebStageErrors.

(** Tavily answers 503 and Serper returns nothing: the stage rejects with
    Tavily's error. *)
Lemma searchWithWeb_rejection_witness :
  exists pre p post,
    News.tryOrder (Demo.keyed_env None) = (pre ++ p :: post)%list
    /\ News.web_call Demo.all_rejecting p = Thrown "503 Service Unavailable"
    /\ forall q, In q pre -> Inv.is_thrown (News.web_call Demo.all_rejecting q) = false.
Proof.
  destruct (searchWithWeb_rejection (H := Demo.platform) (Demo.keyed_env None)
              Demo.all_rejecting "503 Service Unavailable" eq_refl)
    as [[Hmsg _]|Hfirst]; [discriminate Hmsg|exact Hfirst].
Defined.

(** Serper alone answers: the stage resolves to its deduplicated answer. *)
Lemma searchWithWeb_resolves_nonempty_witness :
  [Demo.audit_story] <> []
  /\ exists p res,
      In p (News.tryOrder (Demo.keyed_env None))
      /\ Js.truthy (Inv.api_key (Demo.keyed_env None) p) = true
      /\ News.web_call
           {| News.searchWithGemini := Ok [];
              News.webSearchTavily := Thrown "timeout";
              News.webSearchSerper := Ok [Demo.audit_story];
              News.fallbackNewsAPISearch := Ok [] |} p = Ok res
      /\ [Demo.audit_story] = News.dedupeArticles (H := Demo.platform) res.
Proof.
  apply (searchWithWeb_resolves_nonempty (H := Demo.platform) (Demo.keyed_env None)).
  reflexivity.
Defined.

(** ** The cache across requests *)

Lemma map_set_keys {V : Type} (k : string) (v : V) (m : list (string * V)) :
  map fst (News.map_set k v m)
  = if News.map_has k m then map fst m else (map fst m ++ [k])%list.
Proof.
  unfold News.map_has. induction m as [|[k1 v1] m IH]; simpl; [reflexivity|].
  destruct (String.eqb k k1) eqn:E; simpl.
  - apply String.eqb_eq in E. now subst.
  - rewrite IH. now destruct (News.map_get k m).
Qed.

Lemma map_delete_keys_sub {V : Type} (k x : string) (m : list (string * V)) :
  In x (map fst (News.map_delete k m)) -> In x (map fst m).
Proof.
  induction m as [|[k1 v1] m IH]; simpl; [tauto|].
  destruct (String.eqb k k1); simpl; tauto.
Qed.

Lemma map_delete_NoDup {V : Type} (k : string) (m : list (string * V)) :
  List.NoDup (map fst m) -> List.NoDup (map fst (News.map_delete k m)).
Proof.
  induction m as [|[k1 v1] m IH]; simpl; [auto|].
  intros HN. apply List.NoDup_cons_iff in HN as [Hk HN].
  destruct (String.eqb k k1); simpl; [exact HN|].
  constructor; [|auto]. intros Hin. apply Hk. eapply map_delete_keys_sub, Hin.
Qed.

Lemma setCached_ok (now : Z) (key : string) arts trace (m : News.Cache) :
  key <> EmptyString -> Inv.cache_ok m -> Inv.cache_ok (News.setCached now key arts trace m).
Proof.
  intros Hkey (Hlen & HN & Hempty).
  split; [now apply setCached_capacity|].
  unfold News.setCached.
  set (e := {| News.ts := now; News.cached_articles := arts; News.cached_trace := trace |}).
  assert (List.NoDup (map fst (News.map_set key e m))
          /\ ~ In EmptyString (map fst (News.map_set key e m))) as [HN1 He1].
  { rewrite map_set_keys. destruct (News.map_has key m) eqn:Hhas; [auto|].
    split.
    - apply NoDup_snoc; [exact HN|]. now apply map_has_false.
    - intros Hin. apply List.in_app_or in Hin as [Hin|[Hin|[]]]; auto. }
  destruct (Nat.ltb _ _); [|auto].
  destruct (Js.truthy (News.oldestKey _)); [|auto].
  split; [now apply map_delete_NoDup|].
  intros Hin. apply He1. eapply map_delete_keys_sub, Hin.
Qed.

Section CacheAcrossRequests.
Context `{Platform}.

(** X11.  No request can make the cache grow beyond its 100 entries, hold two
    entries under one key, or hold an entry under the empty key. *)
Theorem GET_keeps_cache_bounded (env : News.Env) (up : News.Upstream) (key : string)
    (t0 t1 : Z) (m : News.Cache) :
  key <> EmptyString -> Inv.cache_ok m ->
  Inv.cache_ok (snd (News.GET env up key t0 t1 m)).
Proof.
  intros Hkey Hok.
  destruct (GET_cache_effect env up key t0 t1 m) as [[_ ->]|(_ & trace & ->)];
    [exact Hok|now apply setCached_ok].
Qed.

Lemma GET_exhausted_cached (env : News.Env) (up : News.Upstream) (key : string)
    (t0 t1 : Z) (m : News.Cache) (c : News.CacheEntry) :
  News.stage_output (News.searchWithGemini up) = [] ->
  News.stage_output (News.webSearchTavily up) = [] ->
  News.stage_output (News.webSearchSerper up) = [] ->
  News.stage_output (News.fallbackNewsAPISearch up) = [] ->
  News.getCached t0 key m = Some c ->
  News.cached_articles c <> [] ->
  fst (News.GET env up key t0 t1 m)
  = {| News.httpStatus := 200; News.status := "ok";
       News.totalResults := Z.of_nat (List.length (News.cached_articles c));
       News.articles := News.cached_articles c; News.error := None;
       News.providerTrace := Some ["cache:hit"] |}.
Proof.
  intros Hg Ht Hs Hn Hc Hne. unfold News.GET, News.GET_body.
  pose proof (searchWithWeb_exhausted env up Ht Hs) as Hw.
  rewrite Hc.
  assert ((if Js.str_eqb (Js.or_empty (News.USE_GEMINI_SEARCH env)) "true"
           then News.stage "gemini" (News.searchWithGemini up) ([], [])
           else ([], [])) = ([], [])) as ->.
  { destruct (Js.str_eqb _ _); [|reflexivity]. now rewrite stage_runs, Hg. }
  rewrite stage_runs, Hw. rewrite stage_runs, Hn. simpl.
  destruct (News.cached_articles c); [congruence|reflexivity].
Qed.

(** X12.  Write-through and sticky fallback compose: after a request that
    answered with articles, a request for the same key made less than 60 s
    after that answer was written, with every provider now failing or empty,
    is answered with the same articles, status "ok" and the trace
    ["cache:hit"]. *)
Theorem sticky_fallback_serves_last_answer (env env' : News.Env)
    (up up' : News.Upstream) (key : string) (t0 t1 t2 t3 : Z) (m : News.Cache) :
  (List.length m <= News.MAX_CACHE_ENTRIES)%nat ->
  (forall k e, In (k, e) m -> News.ts e <= t1) ->
  News.articles (fst (News.GET env up key t0 t1 m)) <> [] ->
  t2 - t1 < News.CACHE_TTL_MS ->
  News.stage_output (News.searchWithGemini up') = [] ->
  News.stage_output (News.webSearchTavily up') = [] ->
  News.stage_output (News.webSearchSerper up') = [] ->
  News.stage_output (News.fallbackNewsAPISearch up') = [] ->
  let r1 := fst (News.GET env up key t0 t1 m) in
  let r2 := fst (News.GET env' up' key t2 t3 (snd (News.GET env up key t0 t1 m))) in
  News.articles r2 = News.articles r1
  /\ News.totalResults r2 = News.totalResults r1
  /\ News.status r2 = "ok"
  /\ News.providerTrace r2 = Some ["cache:hit"].
Proof.
  intros Hcap Hclock Hne Hfresh Hg Ht Hs Hn r1 r2.
  destruct (GET_cache_effect env up key t0 t1 m) as [[He _]|(_ & trace & Hm1)];
    [congruence|].
  pose proof (GET_always_ok env up key t0 t1 m) as (_ & _ & _ & Htot).
  assert (News.getCached t2 key (snd (News.GET env up key t0 t1 m))
          = Some {| News.ts := t1; News.cached_articles := News.articles r1;
                    News.cached_trace := trace |}) as Hc.
  { rewrite Hm1. unfold News.getCached.
    rewrite (setCached_own t1 key _ trace m Hcap Hclock). simpl.
    apply Z.ltb_lt in Hfresh. now rewrite Hfresh. }
  subst r2.
  rewrite (GET_exhausted_cached env' up' key t2 t3 _ _ Hg Ht Hs Hn Hc Hne). simpl.
  fold r1. repeat split. symmetry. exact Htot.
Qed.

End CacheAcrossRequests.

(** NewsAPI answers at 0 s; at 45 s every provider is down. *)
Lemma sticky_fallback_serves_last_answer_witness :
  let r1 := fst (News.GET (H := Demo.platform) (Demo.keyed_env None) Demo.newsapi_only
                   "{category:dpwh}" 0 10 []) in
  let r2 := fst (News.GET (H := Demo.platform) (Demo.keyed_env None) Demo.all_rejecting
                   "{category:dpwh}" 45000 45010
                   (snd (News.GET (H := Demo.platform) (Demo.keyed_env None)
                           Demo.newsapi_only "{category:dpwh}" 0 10 []))) in
  News.articles r2 = News.articles r1
  /\ News.totalResults r2 = News.totalResults r1
  /\ News.status r2 = "ok"
  /\ News.providerTrace r2 = Some ["cache:hit"].
Proof.
  apply (sticky_fallback_serves_last_answer (H := Demo.platform));
    try reflexivity.
  - simpl. unfold News.MAX_CACHE_ENTRIES. lia.
  - intros k e [].
  - discriminate.
Defined.

Lemma GET_keeps_cache_bounded_witness :
  Inv.cache_ok (snd (News.GET (H := Demo.platform) (Demo.keyed_env None)
                       Demo.newsapi_only "{category:dpwh}" 0 10 [])).
Proof.
  apply (GET_keeps_cache_bounded (H := Demo.platform)).
  - discriminate.
  - repeat split; simpl; [unfold News.MAX_CACHE_ENTRIES; lia|constructor|tauto].
Defined.

(** ** The TL;DR route: what the rate-limit check answers *)

Lemma upstash_reset_bounds (nowMs w : Z) :
  0 < w ->
  let reset := Tldr.nowSec nowMs / w * w + w in
  Tldr.nowSec nowMs < reset <= Tldr.nowSec nowMs + w /\ reset mod w = 0.
Proof.
  intros Hw reset. subst reset.
  pose proof (Z.div_mod (Tldr.nowSec nowMs) w ltac:(lia)) as Hdm.
  pose proof (Z.mod_pos_bound (Tldr.nowSec nowMs) w Hw) as Hmod.
  split; [nia|].
  replace (Tldr.nowSec nowMs / w * w + w) with ((Tldr.nowSec nowMs / w + 1) * w) by ring.
  apply Z.mod_mul. lia.
Qed.

(** X13.  The shared (Upstash) limiter uses windows aligned to multiples of
    the window length: the reset time it reports is a multiple of the window,
    lies strictly after the current second and at most one window ahead; the
    request is allowed exactly when the counter is within the limit, and the
    remaining budget is never negative and is 0 on a refusal. *)
Theorem upstash_window_aligned (nowMs w limit cnt : Z) :
  0 < w ->
  exists r, Tldr.checkRateLimitUpstash nowMs w limit (Ok cnt) = Ok r
    /\ Tldr.nowSec nowMs < Tldr.rl_resetSec r <= Tldr.nowSec nowMs + w
    /\ Tldr.rl_resetSec r mod w = 0
    /\ (Tldr.allowed r = true <-> cnt <= limit)
    /\ 0 <= Tldr.remaining r
    /\ (Tldr.allowed r = false -> Tldr.remaining r = 0)
    /\ (Tldr.allowed r = true -> Tldr.remaining r = limit - cnt).
Proof.
  intros Hw. eexists. split; [reflexivity|]. cbn [Tldr.rl_resetSec Tldr.allowed Tldr.remaining].
  destruct (upstash_reset_bounds nowMs w Hw) as [Hb Hm].
  split; [exact Hb|]. split; [exact Hm|]. split; [apply Z.leb_le|].
  split; [lia|]. split.
  - intros Hf. apply Z.leb_gt in Hf. lia.
  - intros Ht. apply Z.leb_le in Ht. lia.
Qed.

Lemma upstash_window_aligned_witness :
  exists r, Tldr.checkRateLimitUpstash 125000 60 10 (Ok 11) = Ok r
    /\ Tldr.nowSec 125000 < Tldr.rl_resetSec r <= Tldr.nowSec 125000 + 60
    /\ Tldr.rl_resetSec r mod 60 = 0
    /\ (Tldr.allowed r = true <-> 11 <= 10)
    /\ 0 <= Tldr.remaining r
    /\ (Tldr.allowed r = false -> Tldr.remaining r = 0)
    /\ (Tldr.allowed r = true -> Tldr.remaining r = 10 - 11).
Proof.
  apply (upstash_window_aligned 125000 60 10 11). lia.
Defined.

Lemma checkRateLimit_answer (cfg : bool) (u : Result Z) (now : Z) (ip : string)
    (m : gmap string Tldr.Bucket) (rl : Tldr.RateLimitResult) :
  fst (Tldr.checkRateLimit cfg u now ip Tldr.RL_WINDOW_SECONDS Tldr.RL_MAX_REQUESTS m)
  = Ok rl ->
  Tldr.nowSec now < Tldr.rl_resetSec rl
  /\ 0 <= Tldr.remaining rl
  /\ (Tldr.allowed rl = false -> Tldr.remaining rl = 0).
Proof.
  unfold Tldr.checkRateLimit. change (Tldr.RL_MAX_REQUESTS <=? 0) with false. cbn iota.
  destruct (cfg && _)%bool.
  - cbn [fst]. destruct u as [cnt|e]; [|discriminate].
    intros [= <-]. cbn [Tldr.rl_resetSec Tldr.allowed Tldr.remaining].
    destruct (upstash_reset_bounds now Tldr.RL_WINDOW_SECONDS ltac:(reflexivity)) as [Hb _].
    cbv zeta in Hb.
    split; [lia|]. split; [lia|].
    intros Hf. apply Z.leb_gt in Hf. lia.
  - unfold Tldr.checkRateLimitMemory. cbn [fst].
    intros [= <-]. cbn [Tldr.rl_resetSec Tldr.allowed Tldr.remaining Tldr.count Tldr.resetSec].
    assert (Tldr.nowSec now <
            Tldr.resetSec
              match m !! ip with
              | Some e =>
                  if Tldr.resetSec e <=? Tldr.nowSec now
                  then {| Tldr.count := 0;
                          Tldr.resetSec := Tldr.nowSec now + Tldr.RL_WINDOW_SECONDS |}
                  else e
              | None => {| Tldr.count := 0;
                           Tldr.resetSec := Tldr.nowSec now + Tldr.RL_WINDOW_SECONDS |}
              end) as Hreset.
    { destruct (m !! ip) as [e|]; [|unfold Tldr.RL_WINDOW_SECONDS; simpl; lia].
      destruct (Tldr.resetSec e <=? Tldr.nowSec now) eqn:E;
        [unfold Tldr.RL_WINDOW_SECONDS; simpl; lia|now apply Z.leb_gt in E]. }
    split; [exact Hreset|]. split; [lia|].
    intros Hf. apply Z.leb_gt in Hf. lia.
Qed.

Lemma checkRateLimit_thrown (cfg : bool) (u : Result Z) (now : Z) (ip : string)
    (w limit : Z) (m : gmap string Tldr.Bucket) (e : string) :
  fst (Tldr.checkRateLimit cfg u now ip w limit m) = Thrown e ->
  cfg = true /\ u = Thrown e /\ snd (Tldr.checkRateLimit cfg u now ip w limit m) = m.
Proof.
  unfold Tldr.checkRateLimit. destruct (limit <=? 0); [discriminate|].
  destruct cfg; cbn [andb].
  - destruct (negb _); cbn [fst snd].
    + destruct u; [discriminate|]. now intros [= ->].
    + destruct (Tldr.checkRateLimitMemory _ _ _ _ _). discriminate.
  - destruct (Tldr.checkRateLimitMemory _ _ _ _ _). discriminate.
Qed.

(** What the limiter answers, for any limit and window. *)
Lemma checkRateLimit_refusal (cfg : bool) (u : Result Z) (now : Z) (ip : string)
    (w limit : Z) (m : gmap string Tldr.Bucket) (rl : Tldr.RateLimitResult) :
  fst (Tldr.checkRateLimit cfg u now ip w limit m) = Ok rl ->
  0 <= Tldr.remaining rl
  /\ (Tldr.allowed rl = false -> Tldr.remaining rl = 0 /\ 0 < limit)
  /\ (0 < w -> Tldr.nowSec now < Tldr.rl_resetSec rl).
Proof.
  unfold Tldr.checkRateLimit.
  destruct (limit <=? 0) eqn:Hlimit.
  { cbn [fst]. intros [= <-]. cbn [Tldr.remaining Tldr.allowed Tldr.rl_resetSec].
    split; [unfold Tldr.MAX_SAFE_INTEGER; lia|]. split; [discriminate|lia]. }
  apply Z.leb_gt in Hlimit.
  destruct (cfg && _)%bool.
  - cbn [fst]. destruct u as [cnt|e]; [|discriminate].
    intros [= <-]. cbn [Tldr.rl_resetSec Tldr.allowed Tldr.remaining].
    split; [lia|]. split.
    + intros Hf. apply Z.leb_gt in Hf. lia.
    + intros Hw. destruct (upstash_reset_bounds now w Hw) as [Hb _].
      cbv zeta in Hb. lia.
  - unfold Tldr.checkRateLimitMemory. cbn [fst].
    intros [= <-]. cbn [Tldr.rl_resetSec Tldr.allowed Tldr.remaining Tldr.count Tldr.resetSec].
    split; [lia|]. split.
    + intros Hf. apply Z.leb_gt in Hf. lia.
    + intros Hw. destruct (m !! ip) as [e|]; [|simpl; lia].
      destruct (Tldr.resetSec e <=? Tldr.nowSec now) eqn:E;
        [simpl; lia|now apply Z.leb_gt in E].
Qed.

(** X14.  Every reply the TL;DR handler sends before it calls the language
    model is one of four.  A 400, for a body that is not JSON or whose title
    and description are both blank.  A 200 with the heuristic summary and no
    rate-limit header, sent by the outer [catch]: the body is [null], the
    content is a truthy value that is not a string, or the shared limiter
    failed.  A 429 whose headers show a refusal with no budget left and, for a
    positive window, a reset time strictly in the future.  A 200 with the
    heuristic summary and the rate-limit headers, when no API key is
    configured.  The first two leave the limiter untouched.  And the handler
    sends no reply at all, its promise rejects, exactly when the title or the
    description is a truthy value that is not a string. *)
Theorem POST_early_replies (cfg : TldrRoute.Config) (u : Result Z) (now : Z)
    (req : TldrRoute.Request) (m : gmap string Tldr.Bucket) :
  (forall s p h,
      fst (TldrRoute.POST cfg u now req m) = TldrRoute.Reply s p h ->
      (s = 400 /\ h = None /\ snd (TldrRoute.POST cfg u now req m) = m
       /\ ((TldrRoute.body req = TldrRoute.Unparsable
            /\ p = Tldr.ErrorPayload "Invalid JSON body")
           \/ (exists t d c,
                  TldrRoute.body req = TldrRoute.Fields t d c
                  /\ TldrRoute.trimmed t = Ok "" /\ TldrRoute.trimmed d = Ok ""
                  /\ p = Tldr.ErrorPayload "Title or description is required")))
      \/ (s = 200 /\ h = None /\ snd (TldrRoute.POST cfg u now req m) = m
          /\ (exists t d, p = TldrRoute.fallback t d false)
          /\ (TldrRoute.body req = TldrRoute.Null
              \/ (exists t d, TldrRoute.body req = TldrRoute.Fields t d TldrRoute.TruthyOther)
              \/ (TldrRoute.upstashConfigured cfg = true /\ exists e, u = Thrown e)))
      \/ (s = 429
          /\ (exists t d, p = TldrRoute.fallback t d true)
          /\ exists rl, h = Some rl /\ Tldr.allowed rl = false /\ Tldr.remaining rl = 0
               /\ (0 < TldrRoute.RL_WINDOW_SECONDS cfg ->
                   Tldr.nowSec now < Tldr.rl_resetSec rl))
      \/ (s = 200 /\ Js.truthy (TldrRoute.GEMINI_API_KEY cfg) = false
          /\ (exists t d, p = TldrRoute.fallback t d false)
          /\ exists rl, h = Some rl /\ Tldr.allowed rl = true))
  /\ ((exists e, fst (TldrRoute.POST cfg u now req m) = TldrRoute.Rejects e)
      <-> exists t d c,
            TldrRoute.body req = TldrRoute.Fields t d c
            /\ (t = TldrRoute.TruthyOther \/ d = TldrRoute.TruthyOther)).
Proof.
  split.
  - intros s p h. unfold TldrRoute.POST.
    destruct (TldrRoute.body req) as [| |t d c] eqn:Hb.
    { intros [= <- <- <-]. left. auto 10. }
    { intros [= <- <- <-]. right. left. unfold TldrRoute.fallback. eauto 12. }
    destruct (TldrRoute.trimmed t) as [title|e] eqn:Ht; [|discriminate].
    destruct (TldrRoute.trimmed d) as [description|e] eqn:Hd; [|discriminate].
    destruct (TldrRoute.content_of c description) as [content|e] eqn:Hc.
    2:{ intros [= <- <- <-]. right. left.
        assert (c = TldrRoute.TruthyOther) as ->
          by (destruct c as [|[|a r]| |]; try discriminate; reflexivity).
        unfold TldrRoute.fallback. eauto 12. }
    destruct (negb (Js.truthy (Some title)) && negb (Js.truthy (Some description)))%bool
      eqn:Hblank.
    { intros [= <- <- <-]. left.
      apply andb_prop in Hblank as [H1 H2].
      destruct title; [|discriminate H1]. destruct description; [|discriminate H2].
      split; [reflexivity|]. split; [reflexivity|]. split; [reflexivity|].
      right. exists t, d, c. auto. }
    destruct (Tldr.checkRateLimit _ _ _ _ _ _ _) as [[rl|e] m'] eqn:E.
    + pose proof (checkRateLimit_refusal (TldrRoute.upstashConfigured cfg) u now
                    (TldrRoute.getClientIp req) (TldrRoute.RL_WINDOW_SECONDS cfg)
                    (TldrRoute.RL_MAX_REQUESTS cfg) m rl) as Hrl.
      rewrite E in Hrl. specialize (Hrl eq_refl) as (_ & Hzero & Hreset).
      destruct (Tldr.allowed rl) eqn:Ha; cbn [negb].
      * destruct (Js.truthy (TldrRoute.GEMINI_API_KEY cfg)) eqn:Hk; cbn [negb];
          [discriminate|].
        intros [= <- <- <-]. right. right. right. unfold TldrRoute.fallback. eauto 12.
      * intros [= <- <- <-]. right. right. left.
        destruct (Hzero eq_refl) as [Hz _]. unfold TldrRoute.fallback. eauto 12.
    + pose proof (checkRateLimit_thrown (TldrRoute.upstashConfigured cfg) u now
                    (TldrRoute.getClientIp req) (TldrRoute.RL_WINDOW_SECONDS cfg)
                    (TldrRoute.RL_MAX_REQUESTS cfg) m e) as Hth.
      rewrite E in Hth. specialize (Hth eq_refl) as (Hcfg & Hu & Hm).
      intros [= <- <- <-]. right. left. cbn [snd] in *.
      unfold TldrRoute.fallback. eauto 12.
  - unfold TldrRoute.POST. split.
    + intros [e He].
      destruct (TldrRoute.body req) as [| |t d c]; try discriminate.
      exists t, d, c. split; [reflexivity|].
      destruct t as [|st| |]; [| | |now left]; destruct d as [|sd| |]; try (now right);
        exfalso; cbn [TldrRoute.trimmed] in He;
        destruct (TldrRoute.content_of c _); try discriminate;
        destruct (_ && _)%bool; try discriminate;
        destruct (Tldr.checkRateLimit _ _ _ _ _ _ _) as [[rl|e'] m'];
        try discriminate;
        destruct (negb (Tldr.allowed rl)); try discriminate;
        destruct (negb (Js.truthy _)); discriminate.
    + intros (t & d & c & -> & [-> | ->]); [cbn; eauto|].
      destruct t; cbn; eauto.
Qed.

(** A body that is the JSON text [null], with the shared limiter not
    configured: the outer [catch] answers. *)
Lemma POST_early_replies_witness :
  let cfg := TldrRoute.defaults false in
  let req := {| TldrRoute.x_forwarded_for := Some "203.0.113.7";
                TldrRoute.x_real_ip := None; TldrRoute.req_ip := None;
                TldrRoute.body := TldrRoute.Null |} in
  let p := TldrRoute.fallback "" "" false in
  fst (TldrRoute.POST cfg (Thrown "Upstash is not configured") 12000 req ∅)
  = TldrRoute.Reply 200 p None
  /\ ((200 = 400 /\ None = (None : option Tldr.RateLimitResult)
       /\ snd (TldrRoute.POST cfg (Thrown "Upstash is not configured") 12000 req ∅) = ∅
       /\ ((TldrRoute.body req = TldrRoute.Unparsable
            /\ p = Tldr.ErrorPayload "Invalid JSON body")
           \/ (exists t d c,
                  TldrRoute.body req = TldrRoute.Fields t d c
                  /\ TldrRoute.trimmed t = Ok "" /\ TldrRoute.trimmed d = Ok ""
                  /\ p = Tldr.ErrorPayload "Title or description is required")))
      \/ (200 = 200 /\ None = (None : option Tldr.RateLimitResult)
          /\ snd (TldrRoute.POST cfg (Thrown "Upstash is not configured") 12000 req ∅) = ∅
          /\ (exists t d, p = TldrRoute.fallback t d false)
          /\ (TldrRoute.body req = TldrRoute.Null
              \/ (exists t d, TldrRoute.body req = TldrRoute.Fields t d TldrRoute.TruthyOther)
              \/ (TldrRoute.upstashConfigured cfg = true
                  /\ exists e, Thrown "Upstash is not configured" = Thrown (A := Z) e)))
      \/ (200 = 429
          /\ (exists t d, p = TldrRoute.fallback t d true)
          /\ exists rl, None = Some rl /\ Tldr.allowed rl = false /\ Tldr.remaining rl = 0
               /\ (0 < TldrRoute.RL_WINDOW_SECONDS cfg ->
                   Tldr.nowSec 12000 < Tldr.rl_resetSec rl))
      \/ (200 = 200 /\ Js.truthy (TldrRoute.GEMINI_API_KEY cfg) = false
          /\ (exists t d, p = TldrRoute.fallback t d false)
          /\ exists rl, None = Some rl /\ Tldr.allowed rl = true)).
Proof.
  intros cfg req p. split; [reflexivity|].
  destruct (POST_early_replies cfg (Thrown "Upstash is not configured") 12000 req ∅)
    as [Hreplies _].
  apply (Hreplies 200 p None). reflexivity.
Defined.

(** On the requests and the configuration it covers, [Tldr.POST] is the
    handler: a body whose fields are strings or absent, the default limits,
    an API key. *)
Lemma POST_restricts_handler (upstash : bool) (u : Result Z) (now : Z)
    (req : Tldr.Request) (m : gmap string Tldr.Bucket) :
  TldrRoute.POST (TldrRoute.defaults upstash) u now (TldrRoute.of_request req) m
  = (TldrRoute.of_outcome (fst (Tldr.POST upstash u now req m)),
     snd (Tldr.POST upstash u now req m)).
Proof.
  unfold TldrRoute.POST, Tldr.POST, TldrRoute.of_request, TldrRoute.getClientIp.
  cbn [TldrRoute.body TldrRoute.x_forwarded_for TldrRoute.x_real_ip TldrRoute.req_ip
         TldrRoute.upstashConfigured TldrRoute.RL_WINDOW_SECONDS
         TldrRoute.RL_MAX_REQUESTS TldrRoute.GEMINI_API_KEY TldrRoute.defaults].
  assert (Tldr.getClientIp
            {| Tldr.x_forwarded_for := Tldr.x_forwarded_for req;
               Tldr.x_real_ip := Tldr.x_real_ip req; Tldr.req_ip := Tldr.req_ip req;
               Tldr.body := None |} = Tldr.getClientIp req) as -> by reflexivity.
  destruct (Tldr.body req) as [[[t d] c]|]; [|reflexivity].
  assert (forall v, TldrRoute.trimmed (TldrRoute.of_option v) = Ok (Js.trim (Js.or_empty v)))
    as Htrim by (intros [v|]; reflexivity).
  rewrite !Htrim.
  assert (TldrRoute.content_of (TldrRoute.of_option c) (Js.trim (Js.or_empty d))
          = Ok (Js.trim (Js.or_empty
                           (Js.or_else c (Js.or_else (Some (Js.trim (Js.or_empty d)))
                                            (Some ""))))))
    as ->.
  { destruct c as [[|a r]|]; cbn; try reflexivity;
      destruct (Js.trim (Js.or_empty d)); reflexivity. }
  destruct (_ && _)%bool; [reflexivity|].
  destruct (Tldr.checkRateLimit _ _ _ _ _ _ _) as [[rl|e] m']; [|reflexivity].
  destruct (Tldr.allowed rl); reflexivity.
Qed.

(** X15.  The summariser is reached only by a request that carries a title
    or a description and that the limiter allowed; the texts handed on are
    trimmed, the budget in its headers is not negative and its reset time lies
    strictly in the future. *)
Theorem POST_reaches_summariser (cfg : bool) (u : Result Z) (now : Z)
    (req : Tldr.Request) (m : gmap string Tldr.Bucket) (t d c : string)
    (rl : Tldr.RateLimitResult) :
  fst (Tldr.POST cfg u now req m) = Tldr.Summarise t d c rl ->
  Tldr.has_text req = true
  /\ (t <> EmptyString \/ d <> EmptyString)
  /\ Js.trim t = t /\ Js.trim d = d /\ Js.trim c = c
  /\ Tldr.allowed rl = true /\ 0 <= Tldr.remaining rl
  /\ Tldr.nowSec now < Tldr.rl_resetSec rl.
Proof.
  unfold Tldr.POST, Tldr.has_text.
  destruct (Tldr.body req) as [[[t0 d0] c0]|]; [|discriminate].
  rewrite <- negb_orb.
  destruct (_ || _)%bool eqn:Htext; cbn [negb]; [|discriminate].
  destruct (Tldr.checkRateLimit _ _ _ _ _ _ _) as [[rl'|e] m'] eqn:E; [|discriminate].
  pose proof (checkRateLimit_answer cfg u now (Tldr.getClientIp req) m rl') as Hrl.
  rewrite E in Hrl. specialize (Hrl eq_refl) as (Hreset & Hrem & _).
  destruct (Tldr.allowed rl') eqn:Ha; [|discriminate].
  intros [= <- <- <- <-].
  rewrite !trim_idem.
  split; [reflexivity|]. split.
  - apply orb_true_iff in Htext as [Ht|Hd]; [left|right];
      now apply truthy_Some_nonempty.
  - auto 10.
Qed.

Lemma POST_reaches_summariser_witness :
  let req := Demo.request "203.0.113.7" "  Audit finds ghost project " in
  let rl := {| Tldr.allowed := true; Tldr.remaining := 9; Tldr.rl_resetSec := 72 |} in
  Tldr.has_text req = true
  /\ ("Audit finds ghost project" <> EmptyString \/ "" <> EmptyString)
  /\ Js.trim "Audit finds ghost project" = "Audit finds ghost project"
  /\ Js.trim "" = "" /\ Js.trim "" = ""
  /\ Tldr.allowed rl = true /\ 0 <= Tldr.remaining rl
  /\ Tldr.nowSec 12000 < Tldr.rl_resetSec rl.
Proof.
  intros req rl.
  apply (POST_reaches_summariser false (Thrown "Upstash is not configured") 12000 req ∅
           "Audit finds ghost project" "" "" rl).
  vm_compute. reflexivity.
Defined.

(** ** The classifier of the RSS route *)

Lemma keyword_score_nonneg (cl : string) (cat : News.Category) (kw : string) :
  0 <= Rss.keyword_score cl cat kw.
Proof.
  unfold Rss.keyword_score.
  repeat match goal with
         | |- context [if ?b then _ else _] => destruct b
         end; lia.
Qed.

Lemma keyword_score_hit (cl : string) (cat : News.Category) (kw : string) :
  Js.includes cl (Js.toLowerCase kw) = true -> 1 <= Rss.keyword_score cl cat kw.
Proof.
  intros Hin. unfold Rss.keyword_score. rewrite Hin.
  repeat match goal with
         | |- context [if ?b then _ else _] => destruct b
         end; lia.
Qed.

Lemma category_eqb_refl (c : News.Category) : Rss.category_eqb c c = true.
Proof. now destruct c. Qed.

Lemma score_of_add_mono (c c' : News.Category) (d : Z) (s : list (News.Category * Z)) :
  0 <= d -> Inv.score_of c s <= Inv.score_of c (Rss.add_score c' d s).
Proof.
  intros Hd. unfold Inv.score_of, Rss.add_score.
  induction s as [|[c1 v1] s IH]; simpl; [lia|].
  destruct (Rss.category_eqb c1 c') eqn:E1; simpl;
    destruct (Rss.category_eqb c1 c) eqn:E2; simpl; try lia; exact IH.
Qed.

Lemma score_of_add_own (c : News.Category) (d : Z) (s : list (News.Category * Z)) :
  In c (map fst s) ->
  Inv.score_of c (Rss.add_score c d s) = Inv.score_of c s + d.
Proof.
  unfold Inv.score_of, Rss.add_score.
  induction s as [|[c1 v1] s IH]; simpl; [tauto|].
  intros Hin. destruct (Rss.category_eqb c1 c) eqn:E; simpl; rewrite E; [reflexivity|].
  destruct Hin as [->|Hin]; [now rewrite category_eqb_refl in E|auto].
Qed.

Lemma add_score_nonneg (c : News.Category) (d : Z) (s : list (News.Category * Z)) :
  0 <= d -> List.Forall (fun cs => 0 <= snd cs) s ->
  List.Forall (fun cs => 0 <= snd cs) (Rss.add_score c d s).
Proof.
  intros Hd Hs. unfold Rss.add_score. apply List.Forall_map.
  eapply List.Forall_impl; [|exact Hs].
  intros [c1 v1]; simpl. destruct (Rss.category_eqb c1 c); simpl; lia.
Qed.

Section KeywordLoops.
Variable cl : string.

Lemma keywords_loop_keys cat kws s : map fst (Inv.keywords_loop cl cat kws s) = map fst s.
Proof.
  revert s. induction kws as [|kw kws IH]; intros s; simpl; [reflexivity|].
  unfold Inv.keywords_loop in *. simpl. now rewrite IH, add_score_keys.
Qed.

Lemma keywords_loop_mono c cat kws s :
  Inv.score_of c s <= Inv.score_of c (Inv.keywords_loop cl cat kws s).
Proof.
  revert s. induction kws as [|kw kws IH]; intros s; [simpl; lia|].
  unfold Inv.keywords_loop in *. simpl.
  etransitivity; [|apply IH]. apply score_of_add_mono, keyword_score_nonneg.
Qed.

Lemma keywords_loop_nonneg cat kws s :
  List.Forall (fun cs => 0 <= snd cs) s ->
  List.Forall (fun cs => 0 <= snd cs) (Inv.keywords_loop cl cat kws s).
Proof.
  revert s. induction kws as [|kw kws IH]; intros s Hs; [exact Hs|].
  unfold Inv.keywords_loop in *. simpl.
  apply IH, add_score_nonneg; [apply keyword_score_nonneg|exact Hs].
Qed.

Lemma keywords_loop_hit cat kws kw s :
  In cat (map fst s) -> In kw kws ->
  Js.includes cl (Js.toLowerCase kw) = true ->
  Inv.score_of cat s + 1 <= Inv.score_of cat (Inv.keywords_loop cl cat kws s).
Proof.
  revert s. induction kws as [|k kws IH]; intros s Hcat Hin Hinc; [destruct Hin|].
  unfold Inv.keywords_loop in *. simpl.
  destruct Hin as [->|Hin].
  - etransitivity; [|apply keywords_loop_mono].
    rewrite score_of_add_own by exact Hcat.
    pose proof (keyword_score_hit cl cat kw Hinc). lia.
  - etransitivity; [|apply IH; [now rewrite add_score_keys|exact Hin|exact Hinc]].
    pose proof (score_of_add_mono cat cat (Rss.keyword_score cl cat k) s
                  (keyword_score_nonneg cl cat k)). lia.
Qed.

Lemma entries_loop_keys tbl s : map fst (Inv.entries_loop cl tbl s) = map fst s.
Proof.
  revert s. induction tbl as [|[c kws] tbl IH]; intros s; [reflexivity|].
  unfold Inv.entries_loop in *. simpl. now rewrite IH, keywords_loop_keys.
Qed.

Lemma entries_loop_mono c tbl s :
  Inv.score_of c s <= Inv.score_of c (Inv.entries_loop cl tbl s).
Proof.
  revert s. induction tbl as [|[c1 kws] tbl IH]; intros s; [simpl; lia|].
  unfold Inv.entries_loop in *. simpl.
  etransitivity; [|apply IH]. apply keywords_loop_mono.
Qed.

Lemma entries_loop_nonneg tbl s :
  List.Forall (fun cs => 0 <= snd cs) s ->
  List.Forall (fun cs => 0 <= snd cs) (Inv.entries_loop cl tbl s).
Proof.
  revert s. induction tbl as [|[c1 kws] tbl IH]; intros s Hs; [exact Hs|].
  unfold Inv.entries_loop in *. simpl. apply IH, keywords_loop_nonneg, Hs.
Qed.

Lemma entries_loop_hit tbl cat kws kw s :
  In cat (map fst s) -> In (cat, kws) tbl -> In kw kws ->
  Js.includes cl (Js.toLowerCase kw) = true ->
  Inv.score_of cat s + 1 <= Inv.score_of cat (Inv.entries_loop cl tbl s).
Proof.
  revert s. induction tbl as [|[c1 k1] tbl IH]; intros s Hcat Htbl Hin Hinc;
    [destruct Htbl|].
  unfold Inv.entries_loop in *. simpl.
  destruct Htbl as [[= -> ->]|Htbl].
  - etransitivity; [|apply entries_loop_mono].
    now apply keywords_loop_hit with (kw := kw).
  - etransitivity;
      [|apply IH; [now rewrite keywords_loop_keys|exact Htbl|exact Hin|exact Hinc]].
    pose proof (keywords_loop_mono cat c1 k1 s). lia.
Qed.

Lemma categoryScores_unfold (content : string) :
  cl = Js.toLowerCase content ->
  Rss.categoryScores content
  = Inv.entries_loop cl Rss.UPDATED_CORRUPTION_KEYWORDS
      (if (Js.includes cl "cancel" && Js.includes cl "nepo")%bool
       then Rss.add_score News.NepoBabies 5
              [ (News.CorruptPoliticians, 0); (News.Dpwh, 0);
                (News.FloodControl, 0); (News.NepoBabies, 0) ]
       else [ (News.CorruptPoliticians, 0); (News.Dpwh, 0);
              (News.FloodControl, 0); (News.NepoBabies, 0) ]).
Proof. intros ->. reflexivity. Qed.

End KeywordLoops.

Lemma decide_category_bounds (scores : list (News.Category * Z)) :
  map fst scores
  = [News.CorruptPoliticians; News.Dpwh; News.FloodControl; News.NepoBabies] ->
  (forall c, Inv.score_of c scores <= Rss.score (Rss.decide_category scores))
  /\ (List.Forall (fun cs => 0 <= snd cs) scores ->
      0 <= Rss.score (Rss.decide_category scores)
      /\ (Rss.isRelevant (Rss.decide_category scores) = false ->
          List.Forall (fun cs => snd cs = 0) scores
          /\ Rss.detectedCategory (Rss.decide_category scores)
             = News.CorruptPoliticians)).
Proof.
  intros Hk.
  destruct scores as [|[c1 v1] [|[c2 v2] [|[c3 v3] [|[c4 v4] [|]]]]]; try discriminate.
  injection Hk as -> -> -> ->.
  unfold Rss.decide_category, Rss.maxOf. cbn [map snd fold_left Rss.score Rss.isRelevant
                                               Rss.detectedCategory].
  split.
  - intros c. unfold Inv.score_of. destruct c; vm_compute List.find; cbn [snd]; lia.
  - intros Hs.
    apply List.Forall_cons_iff in Hs as [H1 Hs]. apply List.Forall_cons_iff in Hs as [H2 Hs].
    apply List.Forall_cons_iff in Hs as [H3 Hs]. apply List.Forall_cons_iff in Hs as [H4 _].
    cbn [snd] in *. split; [lia|].
    intros Hf. apply Z.leb_gt in Hf.
    assert (v1 = 0 /\ v2 = 0 /\ v3 = 0 /\ v4 = 0) as (-> & -> & -> & ->) by lia.
    split; [repeat constructor|reflexivity].
Qed.

(** X16.  Scores are never negative; a text that contains a keyword of a
    category (compared in lower case) gives that category a score of at least
    1 and is judged relevant; and a text judged not relevant has score 0 in
    every category and is labelled corrupt-politicians. *)
Theorem classifier_scores (content : string) (target : option string) :
  let d := Rss.isCorruptionRelated content target in
  let scores := Rss.categoryScores content in
  (forall c s, In (c, s) scores -> 0 <= s)
  /\ 0 <= Rss.score d
  /\ (forall cat kws kw,
        In (cat, kws) Rss.UPDATED_CORRUPTION_KEYWORDS -> In kw kws ->
        Js.includes (Js.toLowerCase content) (Js.toLowerCase kw) = true ->
        1 <= Inv.score_of cat scores <= Rss.score d /\ Rss.isRelevant d = true)
  /\ (Rss.isRelevant d = false ->
      (forall c s, In (c, s) scores -> s = 0)
      /\ Rss.detectedCategory d = News.CorruptPoliticians).
Proof.
  intros d scores. subst d. unfold Rss.isCorruptionRelated. fold scores.
  pose proof (categoryScores_keys content) as Hk. fold scores in Hk.
  pose proof (categoryScores_unfold (Js.toLowerCase content) content eq_refl) as Hu.
  fold scores in Hu.
  set (s1 := if (_ && _)%bool then _ else _) in Hu.
  assert (List.Forall (fun cs => 0 <= snd cs) s1) as Hs1.
  { subst s1. destruct (_ && _)%bool; repeat constructor; simpl; lia. }
  assert (map fst s1
          = [News.CorruptPoliticians; News.Dpwh; News.FloodControl; News.NepoBabies])
    as Hk1 by (subst s1; now destruct (_ && _)%bool).
  assert (List.Forall (fun cs => 0 <= snd cs) scores) as Hnn
    by (rewrite Hu; now apply entries_loop_nonneg).
  destruct (decide_category_bounds scores Hk) as [Hmax Hrest].
  destruct (Hrest Hnn) as [Hpos Hirr].
  split; [|split; [exact Hpos|split]].
  - intros c s Hin. rewrite List.Forall_forall in Hnn. exact (Hnn _ Hin).
  - intros cat kws kw Htbl Hkw Hinc.
    assert (1 <= Inv.score_of cat scores) as H1.
    { rewrite Hu.
      pose proof (entries_loop_hit (Js.toLowerCase content)
                    Rss.UPDATED_CORRUPTION_KEYWORDS cat kws kw s1) as Hhit.
      assert (In cat (map fst s1)) as Hcat by (rewrite Hk1; destruct cat; simpl; tauto).
      specialize (Hhit Hcat Htbl Hkw Hinc).
      assert (0 <= Inv.score_of cat s1).
      { unfold Inv.score_of. destruct (List.find _ s1) as [cs|] eqn:Ef; [|lia].
        apply List.find_some in Ef as [Ef _].
        rewrite List.Forall_forall in Hs1. exact (Hs1 _ Ef). }
      lia. }
    pose proof (Hmax cat) as H2. split; [lia|].
    unfold Rss.decide_category in *. cbn [Rss.isRelevant Rss.score] in *.
    apply Z.leb_le. lia.
  - intros Hf. destruct (Hirr Hf) as [Hz Hc]. split; [|exact Hc].
    intros c s Hin. rewrite List.Forall_forall in Hz. exact (Hz _ Hin).
Qed.

(** X17.  A text that mentions both "cancel" and "nepo" (in any letter
    case) scores at least 5 for nepo-babies and is judged relevant. *)
Theorem cancel_nepo_rule (content : string) (target : option string) :
  Js.includes (Js.toLowerCase content) "cancel" = true ->
  Js.includes (Js.toLowerCase content) "nepo" = true ->
  let d := Rss.isCorruptionRelated content target in
  5 <= Inv.score_of News.NepoBabies (Rss.categoryScores content) <= Rss.score d
  /\ Rss.isRelevant d = true.
Proof.
  intros Hc Hn d. subst d. unfold Rss.isCorruptionRelated.
  pose proof (categoryScores_keys content) as Hk.
  pose proof (categoryScores_unfold (Js.toLowerCase content) content eq_refl) as Hu.
  rewrite Hc, Hn in Hu. cbn [andb] in Hu.
  destruct (decide_category_bounds _ Hk) as [Hmax _].
  pose proof (Hmax News.NepoBabies) as H2.
  assert (5 <= Inv.score_of News.NepoBabies (Rss.categoryScores content)) as H5.
  { rewrite Hu.
    etransitivity; [|apply entries_loop_mono]. vm_compute. discriminate. }
  split; [lia|].
  unfold Rss.decide_category in *. cbn [Rss.isRelevant Rss.score] in *.
  apply Z.leb_le. lia.
Qed.

Lemma cancel_nepo_rule_witness :
  let d := Rss.isCorruptionRelated "Netizens CANCEL the nepo kids" None in
  5 <= Inv.score_of News.NepoBabies
         (Rss.categoryScores "Netizens CANCEL the nepo kids") <= Rss.score d
  /\ Rss.isRelevant d = true.
Proof.
  apply (cancel_nepo_rule "Netizens CANCEL the nepo kids" None); reflexivity.
Defined.

(** X18.  The verdict does not depend on the letter case of the text, nor on
    the target category passed along with it. *)
Theorem classifier_ignores_case_and_target (content : string)
    (target target' : option string) :
  Rss.isCorruptionRelated (Js.toLowerCase content) target
  = Rss.isCorruptionRelated content target'.
Proof.
  unfold Rss.isCorruptionRelated, Rss.categoryScores.
  now rewrite toLowerCase_idem.
Qed.

(** ** The provider adapters *)

Lemma firstn_sub {A : Type} (n : nat) (l : list A) (a : A) :
  In a (firstn n l) -> In a l.
Proof.
  revert l. induction n as [|n IH]; intros [|x l]; simpl; try tauto.
  intros [->|Hin]; auto.
Qed.

Lemma slice_to_sub {A : Type} (n : Z) (l : list A) (a : A) :
  In a (Adapters.slice_to n l) -> In a l.
Proof. apply firstn_sub. Qed.

Lemma slice_to_length {A : Type} (n : Z) (l : list A) :
  0 <= n -> Z.of_nat (List.length (Adapters.slice_to n l)) <= n.
Proof.
  intros Hn. unfold Adapters.slice_to. rewrite List.length_firstn.
  replace (n <? 0) with false by (symmetry; apply Z.ltb_ge; lia). lia.
Qed.

Lemma slice_to_shorter {A : Type} (n : Z) (l : list A) :
  (List.length (Adapters.slice_to n l) <= List.length l)%nat.
Proof. unfold Adapters.slice_to. rewrite List.length_firstn. lia. Qed.

Lemma mapResults_origin {A : Type} (f : nat -> A -> Result News.NewsArticle)
    (rs : list A) (i : nat) (l : list News.NewsArticle) (a : News.NewsArticle) :
  Adapters.mapResults f i rs = Ok l -> In a l ->
  exists j r, In r rs /\ f j r = Ok a.
Proof.
  revert i l. induction rs as [|r rs IH]; intros i l; simpl.
  - intros [= <-] [].
  - destruct (f i r) as [b|e] eqn:Hf; [|discriminate].
    destruct (Adapters.mapResults f (S i) rs) as [l'|e] eqn:Hm; [|discriminate].
    intros [= <-] [<-|Hin]; [exists i, r; auto|].
    destruct (IH _ _ Hm Hin) as (j & r' & Hr & Hj). exists j, r'. auto.
Qed.

Lemma mapResults_length {A : Type} (f : nat -> A -> Result News.NewsArticle)
    (rs : list A) (i : nat) (l : list News.NewsArticle) :
  Adapters.mapResults f i rs = Ok l -> List.length l = List.length rs.
Proof.
  revert i l. induction rs as [|r rs IH]; intros i l; simpl.
  - now intros [= <-].
  - destruct (f i r) as [b|e]; [|discriminate].
    destruct (Adapters.mapResults f (S i) rs) as [l'|e] eqn:Hm; [|discriminate].
    intros [= <-]. simpl. f_equal. eauto.
Qed.

Section AdapterOutput.
Context `{Platform}.

Lemma localInWindow_spec (from to : option string) (mapped : list News.NewsArticle)
    (a : News.NewsArticle) :
  In a (Adapters.localInWindow from to mapped)
  <-> In a mapped
      /\ News.isLocalOutlet (Some (News.source_name a)) (News.url a) = true
      /\ News.withinWindow (News.publishedAt a) from to = true.
Proof. unfold Adapters.localInWindow. rewrite !List.filter_In. tauto. Qed.

Lemma tavilyItem_category (r : News.TavilyResult) (cat nowIso rnd : string)
    (a : News.NewsArticle) :
  News.tavilyItem r cat nowIso rnd = Ok a ->
  News.category a = News.normalizeCategoryKey cat /\ News.url a = News.r_url r.
Proof.
  unfold News.tavilyItem.
  destruct (if Js.truthy (News.r_published_date r) then _ else _); [|discriminate].
  destruct (News.guessSourceName _ _); [|discriminate].
  now intros [= <-].
Qed.

Lemma serperItem_category (r : Adapters.SerperNewsItem) (cat nowIso rnd : string)
    (a : News.NewsArticle) :
  Adapters.serperItem r cat nowIso rnd = Ok a ->
  News.category a = News.normalizeCategoryKey cat /\ News.url a = Adapters.s_link r.
Proof.
  unfold Adapters.serperItem.
  destruct (if Js.truthy (Adapters.s_date r) then _ else _); [|discriminate].
  destruct (News.guessSourceName _ _); [|discriminate].
  now intros [= <-].
Qed.

(** What the common tail of the adapters, filter, deduplicate and cut, lets
    through. *)
Lemma adapter_tail (from to : option string) (pageSize : Z)
    (mapped : list News.NewsArticle) (a : News.NewsArticle) :
  In a (Adapters.slice_to pageSize
          (News.dedupeArticles (Adapters.localInWindow from to mapped))) ->
  In a mapped
  /\ News.isLocalOutlet (Some (News.source_name a)) (News.url a) = true
  /\ News.withinWindow (News.publishedAt a) from to = true
  /\ News.excluded a = false.
Proof.
  intros Hin. apply slice_to_sub, dedupe_sound in Hin as [Hin Hex].
  apply localInWindow_spec in Hin. tauto.
Qed.

Lemma tavilyPass_origin (cat : string) (from to : option string)
    (nowIso rnd : nat -> string) (answer : Result (list News.TavilyResult))
    (items : list News.NewsArticle) :
  Adapters.tavilyPass cat from to nowIso rnd answer = Ok items ->
  exists results mapped,
    answer = Ok results
    /\ Adapters.mapResults (fun i r => News.tavilyItem r cat (nowIso i) (rnd i)) 0 results
       = Ok mapped
    /\ items = Adapters.localInWindow from to mapped.
Proof.
  unfold Adapters.tavilyPass. destruct answer as [results|e]; [|discriminate].
  destruct (Adapters.mapResults _ 0 results) as [mapped|e] eqn:Hm; [|discriminate].
  intros [= <-]. eauto.
Qed.

Lemma tavily_resolved (env : News.Env) (cat : string) (from to : option string)
    (pageSize : Z) (nowIso rnd nowIso2 rnd2 : nat -> string)
    (pass1 pass2 : Result (list News.TavilyResult)) (out : list News.NewsArticle) :
  Adapters.webSearchTavily env cat from to pageSize nowIso rnd nowIso2 rnd2 pass1 pass2
  = Ok out ->
  Js.truthy (News.TAVILY_API_KEY env) = true
  /\ exists results clock draw mapped,
      (pass1 = Ok results \/ pass2 = Ok results)
      /\ Adapters.mapResults (fun i r => News.tavilyItem r cat (clock i) (draw i)) 0 results
         = Ok mapped
      /\ out = Adapters.slice_to pageSize
                 (News.dedupeArticles (Adapters.localInWindow from to mapped)).
Proof.
  unfold Adapters.webSearchTavily.
  destruct (Js.truthy (News.TAVILY_API_KEY env)); cbn [negb]; [|discriminate].
  intros Hout. split; [reflexivity|].
  destruct (Adapters.tavilyPass cat from to nowIso rnd pass1) as [[|x l]|e] eqn:H1;
    [|injection Hout as <-|discriminate].
  - destruct (Adapters.tavilyPass cat from to nowIso2 rnd2 pass2) as [items|e] eqn:H2;
      [|discriminate].
    injection Hout as <-.
    destruct (tavilyPass_origin _ _ _ _ _ _ _ H2) as (results & mapped & -> & Hm & ->).
    exists results, nowIso2, rnd2, mapped. auto.
  - destruct (tavilyPass_origin _ _ _ _ _ _ _ H1) as (results & mapped & -> & Hm & Hl).
    exists results, nowIso, rnd, mapped. rewrite Hl. auto.
Qed.

Lemma serper_resolved (env : News.Env) (cat : string) (from to : option string)
    (pageSize : Z) (nowIso rnd : nat -> string)
    (answer : Result (list Adapters.SerperNewsItem)) (out : list News.NewsArticle) :
  Adapters.webSearchSerper env cat from to pageSize nowIso rnd answer = Ok out ->
  Js.truthy (News.SERPER_API_KEY env) = true
  /\ exists news mapped,
      answer = Ok news
      /\ Adapters.mapResults (fun i r => Adapters.serperItem r cat (nowIso i) (rnd i)) 0 news
         = Ok mapped
      /\ out = Adapters.slice_to pageSize
                 (News.dedupeArticles (Adapters.localInWindow from to mapped)).
Proof.
  unfold Adapters.webSearchSerper.
  destruct (Js.truthy (News.SERPER_API_KEY env)); cbn [negb]; [|discriminate].
  destruct answer as [news|e]; [|discriminate].
  destruct (Adapters.mapResults _ 0 news) as [mapped|e] eqn:Hm; [|discriminate].
  intros [= <-]. split; [reflexivity|]. exists news, mapped. auto.
Qed.

(** X19.  Whatever the search API answers, when [webSearchTavily] resolves
    the API key is configured, the list is no longer than a non-negative
    [pageSize], and each of its articles was mapped from a result of one of the
    two answers, is attributed to a local outlet, lies in the requested window,
    is off the aggregator deny-list and carries the normalised request
    category.  Widening the search to all domains therefore never lets a
    foreign outlet through. *)
Theorem webSearchTavily_output (env : News.Env) (cat : string) (from to : option string)
    (pageSize : Z) (nowIso rnd nowIso2 rnd2 : nat -> string)
    (pass1 pass2 : Result (list News.TavilyResult)) (out : list News.NewsArticle) :
  Adapters.webSearchTavily env cat from to pageSize nowIso rnd nowIso2 rnd2 pass1 pass2
  = Ok out ->
  Js.truthy (News.TAVILY_API_KEY env) = true
  /\ (0 <= pageSize -> Z.of_nat (List.length out) <= pageSize)
  /\ forall a, In a out ->
       News.isLocalOutlet (Some (News.source_name a)) (News.url a) = true
       /\ News.withinWindow (News.publishedAt a) from to = true
       /\ News.excluded a = false
       /\ News.category a = News.normalizeCategoryKey cat
       /\ exists results r now draw,
            (pass1 = Ok results \/ pass2 = Ok results) /\ In r results
            /\ News.tavilyItem r cat now draw = Ok a.
Proof.
  intros Hout.
  destruct (tavily_resolved _ _ _ _ _ _ _ _ _ _ _ _ Hout)
    as (Hkey & results & clock & draw & mapped & Hwhich & Hm & ->).
  split; [exact Hkey|]. split; [apply slice_to_length|].
  intros a Hin. apply adapter_tail in Hin as (Hin & Hloc & Hwin & Hex).
  destruct (mapResults_origin _ _ _ _ _ Hm Hin) as (i & r & Hr & Hi).
  destruct (tavilyItem_category _ _ _ _ _ Hi) as [Hcat _].
  repeat (split; [assumption|]).
  exists results, r, (clock i), (draw i). auto.
Qed.

(** X20.  The widened request is a retry for an empty first pass only: when
    the first pass rejects, or leaves at least one article after the filters,
    the outcome does not depend on what a second request would answer. *)
Theorem webSearchTavily_widens_only_when_empty (env : News.Env) (cat : string)
    (from to : option string) (pageSize : Z)
    (nowIso rnd nowIso2 rnd2 nowIso2' rnd2' : nat -> string)
    (pass1 pass2 pass2' : Result (list News.TavilyResult)) :
  Adapters.tavilyPass cat from to nowIso rnd pass1 <> Ok [] ->
  Adapters.webSearchTavily env cat from to pageSize nowIso rnd nowIso2 rnd2 pass1 pass2
  = Adapters.webSearchTavily env cat from to pageSize nowIso rnd nowIso2' rnd2'
      pass1 pass2'.
Proof.
  intros Hne. unfold Adapters.webSearchTavily.
  destruct (negb _); [reflexivity|].
  destruct (Adapters.tavilyPass cat from to nowIso rnd pass1) as [[|x l]|e];
    [congruence|reflexivity|reflexivity].
Qed.

(** X21.  When [webSearchSerper] resolves, the API key is configured, the
    list is no longer than a non-negative [pageSize], and each article was
    mapped from an item of the answer, is attributed to a local outlet, lies in
    the requested window, is off the deny-list and carries the normalised
    request category. *)
Theorem webSearchSerper_output (env : News.Env) (cat : string) (from to : option string)
    (pageSize : Z) (nowIso rnd : nat -> string)
    (answer : Result (list Adapters.SerperNewsItem)) (out : list News.NewsArticle) :
  Adapters.webSearchSerper env cat from to pageSize nowIso rnd answer = Ok out ->
  Js.truthy (News.SERPER_API_KEY env) = true
  /\ (0 <= pageSize -> Z.of_nat (List.length out) <= pageSize)
  /\ forall a, In a out ->
       News.isLocalOutlet (Some (News.source_name a)) (News.url a) = true
       /\ News.withinWindow (News.publishedAt a) from to = true
       /\ News.excluded a = false
       /\ News.category a = News.normalizeCategoryKey cat
       /\ exists news r i,
            answer = Ok news /\ In r news
            /\ Adapters.serperItem r cat (nowIso i) (rnd i) = Ok a.
Proof.
  intros Hout.
  destruct (serper_resolved _ _ _ _ _ _ _ _ _ Hout)
    as (Hkey & news & mapped & -> & Hm & ->).
  split; [exact Hkey|]. split; [apply slice_to_length|].
  intros a Hin. apply adapter_tail in Hin as (Hin & Hloc & Hwin & Hex).
  destruct (mapResults_origin _ _ _ _ _ Hm Hin) as (i & r & Hr & Hi).
  destruct (serperItem_category _ _ _ _ _ Hi) as [Hcat _].
  repeat (split; [assumption|]).
  exists news, r, i. auto.
Qed.

(** X22.  The adapters composed with the web-search stage: when both web
    providers are the adapters above, run for one request, every article the
    stage resolves to is attributed to a local outlet, lies in the requested
    window, is off the deny-list and carries the normalised request category,
    and the stage returns at most [pageSize] articles. *)
Theorem web_stage_local_and_in_window (env : News.Env) (up : News.Upstream)
    (cat : string) (from to : option string) (pageSize : Z)
    (nowIso rnd nowIso2 rnd2 nowIso' rnd' : nat -> string)
    (pass1 pass2 : Result (list News.TavilyResult))
    (answer : Result (list Adapters.SerperNewsItem)) (items : list News.NewsArticle) :
  News.webSearchTavily up
  = Adapters.webSearchTavily env cat from to pageSize nowIso rnd nowIso2 rnd2
      pass1 pass2 ->
  News.webSearchSerper up
  = Adapters.webSearchSerper env cat from to pageSize nowIso' rnd' answer ->
  0 <= pageSize ->
  News.searchWithWeb env up = Ok items ->
  Z.of_nat (List.length items) <= pageSize
  /\ forall a, In a items ->
       News.isLocalOutlet (Some (News.source_name a)) (News.url a) = true
       /\ News.withinWindow (News.publishedAt a) from to = true
       /\ News.excluded a = false
       /\ News.category a = News.normalizeCategoryKey cat.
Proof.
  intros Ht Hs Hsize Hweb. unfold News.searchWithWeb in Hweb.
  pose proof (web_loop_result up (News.tryOrder env) None) as Hres.
  assert (fst (News.web_loop up (News.tryOrder env) [] None) = items /\ items <> [])
    as [Hitems Hne].
  { destruct (News.web_loop up (News.tryOrder env) [] None) as [[|x l] [e|]];
      try discriminate; injection Hweb as Hi; subst items;
      (split; [reflexivity|discriminate]). }
  rewrite Hitems in Hres. destruct Hres as [->|(p & res & _ & Hcall & ->)]; [congruence|].
  assert (exists mapped,
             res = Adapters.slice_to pageSize
                     (News.dedupeArticles (Adapters.localInWindow from to mapped))
             /\ forall a, In a mapped -> News.category a = News.normalizeCategoryKey cat)
    as (mapped & -> & Hcat).
  { destruct p; simpl in Hcall.
    - rewrite Ht in Hcall.
      destruct (tavily_resolved _ _ _ _ _ _ _ _ _ _ _ _ Hcall)
        as (_ & results & clock & draw & mapped & _ & Hm & ->).
      exists mapped. split; [reflexivity|]. intros a Hin.
      destruct (mapResults_origin _ _ _ _ _ Hm Hin) as (i & r & _ & Hi).
      now destruct (tavilyItem_category _ _ _ _ _ Hi).
    - rewrite Hs in Hcall.
      destruct (serper_resolved _ _ _ _ _ _ _ _ _ Hcall)
        as (_ & news & mapped & _ & Hm & ->).
      exists mapped. split; [reflexivity|]. intros a Hin.
      destruct (mapResults_origin _ _ _ _ _ Hm Hin) as (i & r & _ & Hi).
      now destruct (serperItem_category _ _ _ _ _ Hi). }
  split.
  - pose proof (dedupe_length
                  (Adapters.slice_to pageSize
                     (News.dedupeArticles (Adapters.localInWindow from to mapped)))).
    pose proof (slice_to_length pageSize
                  (News.dedupeArticles (Adapters.localInWindow from to mapped)) Hsize).
    lia.
  - intros a Hin. apply dedupe_sound in Hin as [Hin _].
    apply adapter_tail in Hin as (Hin & Hloc & Hwin & Hex). auto.
Qed.

End AdapterOutput.

(** The first pass finds a foreign and a local article. *)
Lemma webSearchTavily_output_witness :
  let pass1 := Ok [Samples.tavily_foreign; Samples.tavily_local] in
  let pass2 : Result (list News.TavilyResult) := Thrown "503 Service Unavailable" in
  let out :=
    Samples.resolved
      (Adapters.webSearchTavily (H := Demo.platform) (Demo.keyed_env None) "dpwh"
         Samples.window_from Samples.window_to 20 Samples.clock Samples.draw
         Samples.clock Samples.draw pass1 pass2) in
  Js.truthy (News.TAVILY_API_KEY (Demo.keyed_env None)) = true
  /\ (0 <= 20 -> Z.of_nat (List.length out) <= 20)
  /\ forall a, In a out ->
       News.isLocalOutlet (H := Demo.platform) (Some (News.source_name a)) (News.url a)
       = true
       /\ News.withinWindow (H := Demo.platform) (News.publishedAt a)
            Samples.window_from Samples.window_to = true
       /\ News.excluded (H := Demo.platform) a = false
       /\ News.category a = News.normalizeCategoryKey "dpwh"
       /\ exists results r now draw,
            (pass1 = Ok results \/ pass2 = Ok results) /\ In r results
            /\ News.tavilyItem (H := Demo.platform) r "dpwh" now draw = Ok a.
Proof.
  intros pass1 pass2 out.
  apply (webSearchTavily_output (H := Demo.platform) (Demo.keyed_env None) "dpwh"
           Samples.window_from Samples.window_to 20 Samples.clock Samples.draw
           Samples.clock Samples.draw pass1 pass2 out).
  vm_compute. reflexivity.
Defined.

Lemma webSearchTavily_widens_only_when_empty_witness :
  Adapters.webSearchTavily (H := Demo.platform) (Demo.keyed_env None) "dpwh"
    Samples.window_from Samples.window_to 20 Samples.clock Samples.draw
    Samples.clock Samples.draw
    (Ok [Samples.tavily_local]) (Thrown "503 Service Unavailable")
  = Adapters.webSearchTavily (H := Demo.platform) (Demo.keyed_env None) "dpwh"
      Samples.window_from Samples.window_to 20 Samples.clock Samples.draw
      Samples.draw Samples.clock
      (Ok [Samples.tavily_local]) (Ok [Samples.tavily_foreign]).
Proof.
  apply (webSearchTavily_widens_only_when_empty (H := Demo.platform)).
  vm_compute. discriminate.
Defined.

Lemma webSearchSerper_output_witness :
  let answer := Ok [Samples.serper_local] in
  let out :=
    Samples.resolved
      (Adapters.webSearchSerper (H := Demo.platform) (Demo.keyed_env None) "dpwh"
         Samples.window_from Samples.window_to 20 Samples.clock Samples.draw answer) in
  Js.truthy (News.SERPER_API_KEY (Demo.keyed_env None)) = true
  /\ (0 <= 20 -> Z.of_nat (List.length out) <= 20)
  /\ forall a, In a out ->
       News.isLocalOutlet (H := Demo.platform) (Some (News.source_name a)) (News.url a)
       = true
       /\ News.withinWindow (H := Demo.platform) (News.publishedAt a)
            Samples.window_from Samples.window_to = true
       /\ News.excluded (H := Demo.platform) a = false
       /\ News.category a = News.normalizeCategoryKey "dpwh"
       /\ exists news r i,
            answer = Ok news /\ In r news
            /\ Adapters.serperItem (H := Demo.platform) r "dpwh" (Samples.clock i)
                 (Samples.draw i) = Ok a.
Proof.
  intros answer out.
  apply (webSearchSerper_output (H := Demo.platform) (Demo.keyed_env None) "dpwh"
           Samples.window_from Samples.window_to 20 Samples.clock Samples.draw
           answer out).
  vm_compute. reflexivity.
Defined.

Lemma web_stage_local_and_in_window_witness :
  let items :=
    Samples.resolved
      (News.searchWithWeb (H := Demo.platform) (Demo.keyed_env None)
         Samples.web_upstream) in
  Z.of_nat (List.length items) <= 20
  /\ forall a, In a items ->
       News.isLocalOutlet (H := Demo.platform) (Some (News.source_name a)) (News.url a)
       = true
       /\ News.withinWindow (H := Demo.platform) (News.publishedAt a)
            Samples.window_from Samples.window_to = true
       /\ News.excluded (H := Demo.platform) a = false
       /\ News.category a = News.normalizeCategoryKey "dpwh".
Proof.
  intros items.
  apply (web_stage_local_and_in_window (H := Demo.platform) (Demo.keyed_env None)
           Samples.web_upstream "dpwh" Samples.window_from Samples.window_to 20
           Samples.clock Samples.draw Samples.clock Samples.draw
           Samples.clock Samples.draw
           (Ok [Samples.tavily_foreign]) (Thrown "503 Service Unavailable")
           (Ok [Samples.serper_local]) items).
  - reflexivity.
  - reflexivity.
  - lia.
  - vm_compute. reflexivity.
Defined.

(** ** The RSS route *)

Lemma rss_dedupe_loop (items : list News.NewsArticle) (seen : gset string)
    (unique : list News.NewsArticle) :
  snd (fold_left RssRoute.dedupe_step items (seen, unique))
  = (unique ++ Inv.keep_first seen items)%list.
Proof.
  revert seen unique. induction items as [|x items IH]; intros seen unique; simpl.
  - now rewrite app_nil_r.
  - unfold RssRoute.dedupe_step at 2. simpl.
    destruct (decide (RssRoute.dedupeKey x ∈ seen)); [apply IH|].
    rewrite IH, <- app_assoc. reflexivity.
Qed.

Lemma keep_first_fresh (seen : gset string) (items : list News.NewsArticle)
    (a : News.NewsArticle) :
  In a (Inv.keep_first seen items) -> In a items /\ RssRoute.dedupeKey a ∉ seen.
Proof.
  revert seen. induction items as [|x items IH]; intros seen; simpl; [tauto|].
  destruct (decide (RssRoute.dedupeKey x ∈ seen)) as [Hx|Hx].
  - intros Hin. destruct (IH _ Hin). auto.
  - intros [<-|Hin]; [auto|]. destruct (IH _ Hin) as [Hi Hk].
    split; [auto|]. intros Hs. apply Hk, elem_of_union. now right.
Qed.

Lemma keep_first_sublist (seen : gset string) (items : list News.NewsArticle) :
  sublist (Inv.keep_first seen items) items.
Proof.
  revert seen. induction items as [|x items IH]; intros seen; simpl; [constructor|].
  destruct (decide (RssRoute.dedupeKey x ∈ seen));
    [apply sublist_cons|apply sublist_skip]; apply IH.
Qed.

Lemma keep_first_distinct (seen : gset string) (items : list News.NewsArticle) :
  List.NoDup (map RssRoute.dedupeKey (Inv.keep_first seen items)).
Proof.
  revert seen. induction items as [|x items IH]; intros seen; simpl; [constructor|].
  destruct (decide (RssRoute.dedupeKey x ∈ seen)); [apply IH|].
  simpl. constructor; [|apply IH].
  intros Hin. apply List.in_map_iff in Hin as (b & Hb & Hin).
  apply keep_first_fresh in Hin as [_ Hk]. set_solver.
Qed.

Lemma keep_first_complete (seen : gset string) (items : list News.NewsArticle)
    (a : News.NewsArticle) :
  In a items ->
  RssRoute.dedupeKey a ∈ seen
  \/ exists b, In b (Inv.keep_first seen items)
               /\ RssRoute.dedupeKey b = RssRoute.dedupeKey a.
Proof.
  revert seen. induction items as [|x items IH]; intros seen; simpl; [tauto|].
  intros [->|Hin].
  - destruct (decide (RssRoute.dedupeKey a ∈ seen)); [now left|].
    right. exists a. simpl. auto.
  - destruct (decide (RssRoute.dedupeKey x ∈ seen)) as [Hx|Hx]; [auto|].
    destruct (IH ({[RssRoute.dedupeKey x]} ∪ seen) Hin) as [Hk|(b & Hb & Hk)].
    + apply elem_of_union in Hk as [Hk|Hk]; [|now left].
      apply elem_of_singleton in Hk. right. exists x. simpl. auto.
    + right. exists b. simpl. auto.
Qed.

Lemma keep_first_idem (seen : gset string) (items : list News.NewsArticle) :
  Inv.keep_first seen (Inv.keep_first seen items) = Inv.keep_first seen items.
Proof.
  revert seen. induction items as [|x items IH]; intros seen; simpl; [reflexivity|].
  destruct (decide (RssRoute.dedupeKey x ∈ seen)) as [Hx|Hx]; [apply IH|].
  simpl. destruct (decide (RssRoute.dedupeKey x ∈ seen)); [contradiction|].
  now rewrite IH.
Qed.

(** X23.  The deduplicator of the RSS route keeps a sub-list of its input, in
    the input's order, in which no two articles share a key (lower-cased
    trimmed title and source name) and every key of the input is still
    present; deduplicating again changes nothing. *)
Theorem rss_dedupe_keeps_one_per_key (items : list News.NewsArticle) :
  sublist (RssRoute.dedupeArticles items) items
  /\ List.NoDup (map RssRoute.dedupeKey (RssRoute.dedupeArticles items))
  /\ (forall a, In a items ->
        exists b, In b (RssRoute.dedupeArticles items)
                  /\ RssRoute.dedupeKey b = RssRoute.dedupeKey a)
  /\ RssRoute.dedupeArticles (RssRoute.dedupeArticles items)
     = RssRoute.dedupeArticles items.
Proof.
  unfold RssRoute.dedupeArticles. rewrite !rss_dedupe_loop. simpl.
  split; [apply keep_first_sublist|]. split; [apply keep_first_distinct|].
  split; [|apply keep_first_idem].
  intros a Hin. destruct (keep_first_complete ∅ items a Hin) as [Hk|Hb]; [|exact Hb].
  set_solver.
Qed.

(** *** Eviction: the sort of the RSS route and the scan of the aggregation
    route *)

Lemma scan_first_min (m : News.Cache) (k0 : string) (t0 : Z) :
  fold_left News.oldest_step m (Some k0, Some t0)
  = match Inv.first_min m with
    | None => (Some k0, Some t0)
    | Some (k', t') => if t0 <=? t' then (Some k0, Some t0) else (Some k', Some t')
    end.
Proof.
  revert k0 t0. induction m as [|[k1 e1] m IH]; intros k0 t0; simpl; [reflexivity|].
  destruct (News.ts e1 <? t0) eqn:E1; simpl; rewrite IH;
    destruct (Inv.first_min m) as [[k' t']|].
  - apply Z.ltb_lt in E1.
    destruct (News.ts e1 <=? t') eqn:E2.
    + replace (t0 <=? News.ts e1) with false by (symmetry; apply Z.leb_gt; lia).
      reflexivity.
    + apply Z.leb_gt in E2.
      replace (t0 <=? t') with false by (symmetry; apply Z.leb_gt; lia). reflexivity.
  - apply Z.ltb_lt in E1.
    replace (t0 <=? News.ts e1) with false by (symmetry; apply Z.leb_gt; lia).
    reflexivity.
  - apply Z.ltb_ge in E1.
    destruct (News.ts e1 <=? t') eqn:E2.
    + replace (t0 <=? News.ts e1) with true by (symmetry; apply Z.leb_le; lia).
      apply Z.leb_le in E2.
      replace (t0 <=? t') with true by (symmetry; apply Z.leb_le; lia). reflexivity.
    + reflexivity.
  - apply Z.ltb_ge in E1.
    replace (t0 <=? News.ts e1) with true by (symmetry; apply Z.leb_le; lia).
    reflexivity.
Qed.

Lemma oldestKey_first_min (m : News.Cache) :
  News.oldestKey m = option_map fst (Inv.first_min m).
Proof.
  destruct m as [|[k1 e1] m]; [reflexivity|].
  rewrite oldestKey_cons, scan_first_min. simpl.
  destruct (Inv.first_min m) as [[k' t']|]; [|reflexivity].
  now destruct (News.ts e1 <=? t').
Qed.

Lemma insert_head (x : string * News.CacheEntry) (l : list (string * News.CacheEntry)) :
  head (RssRoute.insert_by_ts x l)
  = match head l with
    | None => Some x
    | Some y => if News.ts (snd x) <=? News.ts (snd y) then Some x else Some y
    end.
Proof.
  destruct l as [|y r]; simpl; [reflexivity|].
  now destruct (News.ts (snd x) <=? News.ts (snd y)).
Qed.

Lemma sort_head_first_min (m : News.Cache) :
  option_map (fun ke => (fst ke, News.ts (snd ke))) (head (RssRoute.sort_by_ts m))
  = Inv.first_min m.
Proof.
  induction m as [|[k e] m IH]; simpl; [reflexivity|].
  rewrite insert_head. rewrite <- IH.
  destruct (head (RssRoute.sort_by_ts m)) as [[k' e']|]; simpl; [|reflexivity].
  now destruct (News.ts e <=? News.ts e').
Qed.

Lemma insert_by_ts_perm (x : string * News.CacheEntry) (l : list (string * News.CacheEntry)) :
  Permutation (RssRoute.insert_by_ts x l) (x :: l).
Proof.
  induction l as [|y r IH]; simpl; [reflexivity|].
  destruct (News.ts (snd x) <=? News.ts (snd y)); [reflexivity|].
  rewrite IH. apply perm_swap.
Qed.

Lemma sort_by_ts_perm (m : News.Cache) : Permutation (RssRoute.sort_by_ts m) m.
Proof.
  induction m as [|x m IH]; simpl; [reflexivity|].
  rewrite insert_by_ts_perm. now constructor.
Qed.

Lemma insert_by_ts_sorted (x : string * News.CacheEntry)
    (l : list (string * News.CacheEntry)) :
  Sorted (fun a b => News.ts (snd a) <= News.ts (snd b)) l ->
  Sorted (fun a b => News.ts (snd a) <= News.ts (snd b)) (RssRoute.insert_by_ts x l).
Proof.
  induction 1 as [|y r Hr IH Hy]; simpl; [repeat constructor|].
  destruct (News.ts (snd x) <=? News.ts (snd y)) eqn:E.
  - apply Z.leb_le in E. repeat constructor; assumption.
  - apply Z.leb_gt in E. constructor; [exact IH|].
    destruct r as [|z r]; simpl; [constructor; lia|].
    destruct (News.ts (snd x) <=? News.ts (snd z)); constructor; [lia|].
    now inversion Hy.
Qed.

(** X24.  The two eviction rules agree: the array the RSS route sorts is a
    rearrangement of the cache in ascending timestamp order, and its first
    key is the key the linear scan of the aggregation route selects, the
    first-inserted entry among those of minimal timestamp. *)
Theorem eviction_sort_agrees_with_scan (m : News.Cache) :
  Permutation (RssRoute.sort_by_ts m) m
  /\ Sorted (fun a b => News.ts (snd a) <= News.ts (snd b)) (RssRoute.sort_by_ts m)
  /\ head (map fst (RssRoute.sort_by_ts m)) = News.oldestKey m.
Proof.
  split; [apply sort_by_ts_perm|]. split.
  - induction m as [|x m IH]; simpl; [constructor|]. now apply insert_by_ts_sorted.
  - rewrite oldestKey_first_min, <- sort_head_first_min.
    now destruct (RssRoute.sort_by_ts m) as [|[k e] l].
Qed.

(** *** The cache of the RSS route across requests *)

Lemma rss_evicted (m : News.Cache) (k : string) (e : News.CacheEntry)
    (l : list (string * News.CacheEntry)) :
  RssRoute.sort_by_ts m = (k, e) :: l ->
  News.oldestKey m = Some k /\ In (k, e) m.
Proof.
  intros Hs. split.
  - rewrite oldestKey_first_min, <- sort_head_first_min, Hs. reflexivity.
  - apply (Permutation_in _ (sort_by_ts_perm m)). rewrite Hs. now left.
Qed.

Lemma map_set_length {V : Type} (k : string) (v : V) (m : list (string * V)) :
  (List.length (News.map_set k v m) <= S (List.length m))%nat.
Proof.
  induction m as [|[k1 v1] m IH]; simpl; [lia|].
  destruct (String.eqb k k1); simpl; lia.
Qed.

Lemma rss_setCached_capacity (now : Z) (key : string) arts trace (m : News.Cache) :
  (List.length m <= RssRoute.MAX_CACHE_ENTRIES)%nat ->
  (List.length (RssRoute.setCached now key arts trace m) <= RssRoute.MAX_CACHE_ENTRIES)%nat.
Proof.
  intros Hcap. unfold RssRoute.setCached.
  set (e := {| News.ts := now; News.cached_articles := arts; News.cached_trace := trace |}).
  destruct (Nat.ltb _ _) eqn:Hfull; [|now apply Nat.ltb_ge in Hfull].
  pose proof (map_set_length key e m) as Hlen.
  destruct (RssRoute.sort_by_ts (News.map_set key e m)) as [|[k0 e0] l] eqn:Hs.
  - pose proof (Permutation_length (sort_by_ts_perm (News.map_set key e m))) as Hp.
    rewrite Hs in Hp. simpl in Hp. apply Nat.ltb_lt in Hfull. lia.
  - destruct (rss_evicted _ _ _ _ Hs) as [_ Hin].
    apply (in_map fst) in Hin. simpl in Hin.
    pose proof (map_delete_length k0 _ Hin). lia.
Qed.

Lemma rss_setCached_own (now : Z) (key : string) arts trace (m : News.Cache) :
  (List.length m <= RssRoute.MAX_CACHE_ENTRIES)%nat ->
  (forall k e, In (k, e) m -> News.ts e <= now) ->
  News.map_get key (RssRoute.setCached now key arts trace m)
  = Some {| News.ts := now; News.cached_articles := arts; News.cached_trace := trace |}.
Proof.
  intros Hcap Hclock. unfold RssRoute.setCached.
  set (e := {| News.ts := now; News.cached_articles := arts; News.cached_trace := trace |}).
  destruct (Nat.ltb _ _) eqn:Hfull; [|apply map_get_set_eq].
  apply Nat.ltb_lt in Hfull.
  destruct (RssRoute.sort_by_ts (News.map_set key e m)) as [|[k0 e0] l] eqn:Hs;
    [apply map_get_set_eq|].
  destruct (rss_evicted _ _ _ _ Hs) as [Hold _].
  destruct (News.map_get key m) as [v0|] eqn:Hg.
  - rewrite (map_set_present key e m v0 Hg) in Hfull. lia.
  - rewrite (map_set_absent key e m Hg) in Hold |- *.
    assert (m <> []) as Hne
      by (intros ->; simpl in *; unfold RssRoute.MAX_CACHE_ENTRIES in *; lia).
    rewrite (oldestKey_app_newest m key e Hne) in Hold
      by (intros k' e' Hin; simpl; eauto).
    destruct (oldestKey_minimal m k0 Hold) as (e1 & Hin & _).
    assert (k0 <> key) as Hk.
    { intros ->. apply (map_get_absent_key key m Hg).
      now apply (in_map fst) in Hin. }
    rewrite (map_get_delete_ne k0 key _ Hk), <- (map_set_absent key e m Hg).
    apply map_get_set_eq.
Qed.

(** X25.  The RSS route answers from its cache first.  After a request that
    missed the cache and got articles from the feeds, a request for the same
    key less than five minutes after the write is answered with the same
    articles and the first trace followed by "cache:hit", whatever the feeds
    would answer, and leaves the cache as it was, so hits do not prolong the
    entry; from five minutes on, the feeds are consulted again. *)
Theorem rss_cache_first_round_trip (rss rss' : Result (list News.NewsArticle))
    (key : string) (t0 t1 t2 t3 : Z) (m : News.Cache)
    (x : News.NewsArticle) (l : list News.NewsArticle) :
  (List.length m <= RssRoute.MAX_CACHE_ENTRIES)%nat ->
  (forall k e, In (k, e) m -> News.ts e <= t1) ->
  RssRoute.getCached t0 key m = None ->
  rss = Ok (x :: l) ->
  let first := RssRoute.GET rss key t0 t1 m in
  let second := RssRoute.GET rss' key t2 t3 (snd first) in
  News.articles (fst first) = x :: l
  /\ (t2 - t1 < RssRoute.CACHE_TTL_MS ->
      News.articles (fst second) = x :: l
      /\ News.providerTrace (fst second)
         = option_map (fun tr => (tr ++ ["cache:hit"])%list)
             (News.providerTrace (fst first))
      /\ snd second = snd first)
  /\ (RssRoute.CACHE_TTL_MS <= t2 - t1 ->
      News.articles (fst second) = News.stage_output rss').
Proof.
  intros Hcap Hclock Hmiss -> first second.
  assert (first
          = ({| News.httpStatus := 200; News.status := "ok";
                News.totalResults := Z.of_nat (List.length (x :: l));
                News.articles := x :: l; News.error := None;
                News.providerTrace :=
                  Some [("rss:" ++ string_of_nat (List.length (x :: l)))%string] |},
             RssRoute.setCached t1 key (x :: l)
               [("rss:" ++ string_of_nat (List.length (x :: l)))%string] m)) as Hfirst.
  { subst first. unfold RssRoute.GET. now rewrite Hmiss. }
  subst second. rewrite Hfirst. cbn [fst snd News.articles News.providerTrace option_map].
  split; [reflexivity|].
  pose proof (rss_setCached_own t1 key (x :: l)
                [("rss:" ++ string_of_nat (List.length (x :: l)))%string] m Hcap Hclock)
    as Hown.
  unfold RssRoute.GET, RssRoute.getCached. rewrite Hown. cbn [News.ts].
  split; intros Hage.
  - apply Z.ltb_lt in Hage. rewrite Hage. cbn. auto.
  - apply Z.ltb_ge in Hage. rewrite Hage.
    destruct rss' as [[|y r]|e]; reflexivity.
Qed.

Lemma rss_cache_first_round_trip_witness :
  let first :=
    RssRoute.GET (Ok [Demo.audit_story]) "{category:flood-control}" 0 10 [] in
  let second :=
    RssRoute.GET (Thrown "feeds unreachable") "{category:flood-control}"
      299000 299001 (snd first) in
  News.articles (fst first) = [Demo.audit_story]
  /\ (299000 - 10 < RssRoute.CACHE_TTL_MS ->
      News.articles (fst second) = [Demo.audit_story]
      /\ News.providerTrace (fst second)
         = option_map (fun tr => (tr ++ ["cache:hit"])%list)
             (News.providerTrace (fst first))
      /\ snd second = snd first)
  /\ (RssRoute.CACHE_TTL_MS <= 299000 - 10 ->
      News.articles (fst second) = News.stage_output (Thrown "feeds unreachable")).
Proof.
  apply (rss_cache_first_round_trip (Ok [Demo.audit_story]) (Thrown "feeds unreachable")
           "{category:flood-control}" 0 10 299000 299001 [] Demo.audit_story []).
  - simpl. unfold RssRoute.MAX_CACHE_ENTRIES. lia.
  - intros k e [].
  - reflexivity.
  - reflexivity.
Defined.

(** What [GET] of the RSS route does with any outcome of its search. *)
Lemma rss_GET_shape (rss : Result (list News.NewsArticle)) (key : string)
    (t0 t1 : Z) (m : News.Cache) :
  let r := fst (RssRoute.GET rss key t0 t1 m) in
  let m' := snd (RssRoute.GET rss key t0 t1 m) in
  News.httpStatus r = 200 /\ News.status r = "ok" /\ News.error r = None
  /\ News.totalResults r = Z.of_nat (List.length (News.articles r))
  /\ (m' = m
      \/ (RssRoute.getCached t0 key m = None
          /\ rss = Ok (News.articles r) /\ News.articles r <> []
          /\ exists trace, m' = RssRoute.setCached t1 key (News.articles r) trace m))
  /\ ((List.length m <= RssRoute.MAX_CACHE_ENTRIES)%nat ->
      (List.length m' <= RssRoute.MAX_CACHE_ENTRIES)%nat).
Proof.
  unfold RssRoute.GET.
  destruct (RssRoute.getCached t0 key m) as [c|] eqn:Hc.
  - cbn [fst snd News.httpStatus News.status News.error News.totalResults
           News.articles News.providerTrace].
    do 4 (split; [reflexivity|]). split; [now left|auto].
  - destruct rss as [[|x l]|e];
      cbn [fst snd News.httpStatus News.status News.error News.totalResults
             News.articles News.providerTrace];
      do 4 (split; [reflexivity|]).
    + split; [now left|auto].
    + split.
      * right. split; [reflexivity|]. split; [reflexivity|].
        split; [discriminate|eauto].
      * intros Hcap. now apply rss_setCached_capacity.
    + split; [now left|auto].
Qed.

Lemma all_feeds_empty (feeds : list (Result (list News.NewsArticle))) :
  List.Forall (fun f => RssSearch.parseRSSFeed f = []) feeds ->
  concat (map RssSearch.parseRSSFeed feeds) = [].
Proof.
  induction 1 as [|f feeds Hf _ IH]; simpl; [reflexivity|]. now rewrite Hf, IH.
Qed.

Lemma feed_article_origin (feeds : list (Result (list News.NewsArticle)))
    (a : News.NewsArticle) :
  In a (concat (map RssSearch.parseRSSFeed feeds)) ->
  exists l, In (Ok l) feeds /\ In a l.
Proof.
  induction feeds as [|f feeds IH]; simpl; [tauto|].
  intros Hin. apply List.in_app_or in Hin as [Hin|Hin].
  - destruct f as [l|e]; simpl in Hin; [|destruct Hin]. exists l. auto.
  - destruct (IH Hin) as (l & Hl & Ha). exists l. auto.
Qed.

Section RssRequests.
Context `{Platform}.

Lemma insert_sorted_perm (x : News.NewsArticle) (l : list News.NewsArticle) :
  Permutation (RssSearch.insert_sorted x l) (x :: l).
Proof.
  induction l as [|y r IH]; cbn [RssSearch.insert_sorted]; [reflexivity|].
  destruct (RssSearch.before x y); [reflexivity|].
  rewrite IH. apply perm_swap.
Qed.

Lemma sort_by_relevance_perm (l : list News.NewsArticle) :
  Permutation (RssSearch.sort_by_relevance l) l.
Proof.
  unfold RssSearch.sort_by_relevance.
  induction l as [|x l IH]; cbn [fold_right]; [reflexivity|].
  rewrite insert_sorted_perm. now constructor.
Qed.

(** Every article the search returns was built from a feed that answered and
    passes the three filters. *)
Lemma searchWithRSS_origin (feeds : list (Result (list News.NewsArticle)))
    (cat : string) (query from to : option string) (pageSize : Z)
    (a : News.NewsArticle) :
  In a (RssSearch.searchWithRSS feeds cat query from to pageSize) ->
  (exists l, In (Ok l) feeds /\ In a l)
  /\ News.withinWindow (News.publishedAt a) from to = true
  /\ (News.nonempty cat = true -> cat <> "all" ->
      News.category_key (News.category a) = cat)
  /\ (Js.truthy query = true ->
      RssSearch.matches_query (Js.toLowerCase (Js.or_empty query)) a = true).
Proof.
  unfold RssSearch.searchWithRSS. intros Hin.
  apply slice_to_sub in Hin.
  apply (Permutation_in _ (sort_by_relevance_perm _)) in Hin.
  unfold RssRoute.dedupeArticles in Hin. rewrite rss_dedupe_loop in Hin.
  apply keep_first_fresh in Hin as [Hin _].
  assert (News.withinWindow (News.publishedAt a) from to = true
          /\ In a (if Js.truthy query
                   then List.filter
                          (RssSearch.matches_query (Js.toLowerCase (Js.or_empty query)))
                          (if (News.nonempty cat && negb (Js.str_eqb cat "all"))%bool
                           then List.filter (RssSearch.matches_category cat)
                                  (concat (map RssSearch.parseRSSFeed feeds))
                           else concat (map RssSearch.parseRSSFeed feeds))
                   else if (News.nonempty cat && negb (Js.str_eqb cat "all"))%bool
                        then List.filter (RssSearch.matches_category cat)
                               (concat (map RssSearch.parseRSSFeed feeds))
                        else concat (map RssSearch.parseRSSFeed feeds)))
    as [Hwin Hq].
  { destruct (Js.truthy from || Js.truthy to)%bool eqn:Hbounds.
    - apply List.filter_In in Hin as [Hin Hw]. auto.
    - split; [|exact Hin]. apply orb_false_elim in Hbounds as [Hf Ht].
      unfold News.withinWindow. now rewrite Hf, Ht. }
  assert ((Js.truthy query = true ->
           RssSearch.matches_query (Js.toLowerCase (Js.or_empty query)) a = true)
          /\ In a (if (News.nonempty cat && negb (Js.str_eqb cat "all"))%bool
                   then List.filter (RssSearch.matches_category cat)
                          (concat (map RssSearch.parseRSSFeed feeds))
                   else concat (map RssSearch.parseRSSFeed feeds)))
    as [Hquery Hc].
  { destruct (Js.truthy query).
    - apply List.filter_In in Hq as [Hq Hm]. auto.
    - split; [discriminate|exact Hq]. }
  assert ((News.nonempty cat = true -> cat <> "all" ->
           News.category_key (News.category a) = cat)
          /\ In a (concat (map RssSearch.parseRSSFeed feeds))) as [Hcat Hall].
  { destruct (News.nonempty cat && negb (Js.str_eqb cat "all"))%bool eqn:Hsel.
    - apply List.filter_In in Hc as [Hc Hm]. split; [|exact Hc].
      intros _ _. now apply String.eqb_eq in Hm.
    - split; [|exact Hc]. intros Hne Hall.
      rewrite Hne in Hsel. cbn [andb] in Hsel. apply negb_false_iff in Hsel.
      apply String.eqb_eq in Hsel. contradiction. }
  split; [now apply feed_article_origin|]. auto.
Qed.

(** X26.  The RSS route with its search behind the handler.  Every request is
    answered with HTTP 200 and status "ok".  A feed that fails counts as a
    feed without articles: when every feed fails or finds nothing, a request
    that misses the cache gets an empty list and an empty trace, not an error
    and not "rss:failed", and leaves the cache as it was.  On a miss the
    articles are those of the search, each built from a feed that answered,
    inside the date window and of the requested category, and no more than a
    non-negative page size.  The cache changes only by the write of a
    non-empty search result after a miss, and never grows beyond 200
    entries. *)
Theorem rss_handler_survives_feed_failure
    (feeds : list (Result (list News.NewsArticle))) (cat : string)
    (query from to : option string) (pageSize : Z) (key : string) (t0 t1 : Z)
    (m : News.Cache) :
  let found := RssSearch.searchWithRSS feeds cat query from to pageSize in
  let r := fst (RssSearch.handle feeds cat query from to pageSize key t0 t1 m) in
  let m' := snd (RssSearch.handle feeds cat query from to pageSize key t0 t1 m) in
  (News.httpStatus r = 200 /\ News.status r = "ok" /\ News.error r = None
   /\ News.totalResults r = Z.of_nat (List.length (News.articles r)))
  /\ (RssRoute.getCached t0 key m = None ->
      News.articles r = found
      /\ News.providerTrace r
         = Some match found with
                | [] => []
                | _ :: _ => [("rss:" ++ string_of_nat (List.length found))%string]
                end)
  /\ (List.Forall (fun f => RssSearch.parseRSSFeed f = []) feeds ->
      found = []
      /\ (RssRoute.getCached t0 key m = None ->
          News.articles r = [] /\ News.providerTrace r = Some [] /\ m' = m))
  /\ (m' = m
      \/ (RssRoute.getCached t0 key m = None /\ found <> []
          /\ exists trace, m' = RssRoute.setCached t1 key found trace m))
  /\ ((List.length m <= RssRoute.MAX_CACHE_ENTRIES)%nat ->
      (List.length m' <= RssRoute.MAX_CACHE_ENTRIES)%nat)
  /\ (forall a, In a found ->
        (exists l, In (Ok l) feeds /\ In a l)
        /\ News.withinWindow (News.publishedAt a) from to = true
        /\ (News.nonempty cat = true -> cat <> "all" ->
            News.category_key (News.category a) = cat))
  /\ (0 <= pageSize -> Z.of_nat (List.length found) <= pageSize).
Proof.
  intros found r m'. subst r m'. unfold RssSearch.handle. fold found.
  assert (List.Forall (fun f => RssSearch.parseRSSFeed f = []) feeds -> found = [])
    as Hnone.
  { intros Hall. subst found. unfold RssSearch.searchWithRSS.
    rewrite (all_feeds_empty feeds Hall).
    assert (forall b : bool, (if b then @nil News.NewsArticle else []) = []) as Hif
      by (now intros []).
    cbn [List.filter]. rewrite !Hif.
    unfold Adapters.slice_to. apply firstn_nil. }
  assert (forall a, In a found ->
            (exists l, In (Ok l) feeds /\ In a l)
            /\ News.withinWindow (News.publishedAt a) from to = true
            /\ (News.nonempty cat = true -> cat <> "all" ->
                News.category_key (News.category a) = cat)) as Horigin.
  { intros a Hin. destruct (searchWithRSS_origin _ _ _ _ _ _ _ Hin) as (? & ? & ? & _).
    auto. }
  assert (0 <= pageSize -> Z.of_nat (List.length found) <= pageSize) as Hlen
    by (subst found; unfold RssSearch.searchWithRSS; apply slice_to_length).
  clearbody found.
  pose proof (rss_GET_shape (Ok found) key t0 t1 m)
    as (Hs & Hok & Herr & Htot & Hcache & Hcap).
  assert (RssRoute.getCached t0 key m = None ->
          News.articles (fst (RssRoute.GET (Ok found) key t0 t1 m)) = found
          /\ News.providerTrace (fst (RssRoute.GET (Ok found) key t0 t1 m))
             = Some match found with
                    | [] => []
                    | _ :: _ => [("rss:" ++ string_of_nat (List.length found))%string]
                    end
          /\ (found = [] -> snd (RssRoute.GET (Ok found) key t0 t1 m) = m)) as Hmiss.
  { intros Hc. unfold RssRoute.GET. rewrite Hc.
    destruct found as [|x l]; cbn [fst snd News.articles News.providerTrace];
      (split; [reflexivity|split; [reflexivity|]]); [reflexivity|discriminate]. }
  split; [auto|].
  split; [intros Hc; destruct (Hmiss Hc) as (Ha & Htr & _); split; assumption|].
  split.
  { intros Hall. specialize (Hnone Hall). split; [exact Hnone|].
    intros Hc. destruct (Hmiss Hc) as (Ha & Htr & Hm). subst found.
    split; [exact Ha|]. split; [exact Htr|]. now apply Hm. }
  split.
  { destruct Hcache as [Hsame|(Hc & Hrss & Hne & trace & Hm)]; [now left|].
    right. injection Hrss as Hrss. rewrite <- Hrss in Hne, Hm. eauto. }
  split; [exact Hcap|]. split; [exact Horigin|exact Hlen].
Qed.

End RssRequests.

(** Three feeds: one answers 503, one times out, one has nothing relevant. *)
Lemma rss_handler_survives_feed_failure_witness :
  let feeds : list (Result (list News.NewsArticle)) :=
    [Thrown "HTTP 503: Service Unavailable"; Thrown "The operation was aborted";
     Ok []] in
  let r := fst (RssSearch.handle (H := Demo.platform) feeds "dpwh" None None None 20
                  "{category:dpwh}" 0 10 []) in
  News.httpStatus r = 200 /\ News.status r = "ok"
  /\ News.articles r = [] /\ News.providerTrace r = Some [].
Proof.
  intros feeds r.
  destruct (rss_handler_survives_feed_failure (H := Demo.platform) feeds "dpwh"
              None None None 20 "{category:dpwh}" 0 10 [])
    as ((Hs & Hok & _) & _ & Hfail & _).
  split; [exact Hs|]. split; [exact Hok|].
  destruct Hfail as (_ & Hmiss); [repeat constructor|].
  destruct Hmiss as (Ha & Htr & _); [reflexivity|]. auto.
Defined.

(** ** Request parameters *)

Lemma js_clamp_bounds (q : Q) :
  (1 <= Params.js_min 50 (Params.js_max 1 q) <= 50)%Q.
Proof.
  unfold Params.js_min, Params.js_max.
  destruct (Qle_bool 1 q) eqn:E1.
  - apply Qle_bool_iff in E1.
    destruct (Qle_bool q 50) eqn:E2; [apply Qle_bool_iff in E2; auto|].
    split; [discriminate|apply Qle_refl].
  - change (Qle_bool 1 50) with true. cbv iota.
    split; [apply Qle_refl|discriminate].
Qed.

Lemma normalizeCategoryKey_key (c : News.Category) :
  News.normalizeCategoryKey (News.category_key c) = c.
Proof. now destruct c. Qed.

Section ParsedParams.
Context `{Platform}.
Variable Number : string -> Params.JsNumber.

Lemma isIso_bound (v : option string) :
  Js.truthy (if Params.isIso v then v else None) = true ->
  exists t, date_time (Js.or_empty (if Params.isIso v then v else None)) = Some t.
Proof.
  unfold Params.isIso. destruct (Js.truthy v) eqn:Hv; [|now rewrite Hv].
  destruct (date_time (Js.or_empty v)) as [t|] eqn:Ht; [eauto|discriminate].
Qed.

(** X27.  Whatever the query string holds and however its numbers convert,
    the parsed parameters are valid: the category is "all" or one of the four
    category keys, the page is at least 1, the page size lies between 1 and 50,
    and a date bound that is kept and not empty parses, so that the date
    window never has to fall back on its rule for unparsable bounds; a bound
    that does not parse is dropped, not rejected. *)
Theorem parseParams_valid (sp : Params.SearchParams) :
  let p := Params.parseParams Number sp in
  In (Params.category p) Params.VALID_CATEGORIES
  /\ (1 <= Params.page p)%Q
  /\ (1 <= Params.pageSize p <= 50)%Q
  /\ (Js.truthy (Params.from p) = true ->
      exists t, date_time (Js.or_empty (Params.from p)) = Some t)
  /\ (Js.truthy (Params.to p) = true ->
      exists t, date_time (Js.or_empty (Params.to p)) = Some t)
  /\ (Js.truthy (Params.from p) = true ->
      Js.truthy (Params.to p) = true ->
      forall iso articleTime, date_time iso = Some articleTime ->
        exists fromTime toTime,
          date_time (Js.or_empty (Params.from p)) = Some fromTime
          /\ date_time (Js.or_empty (Params.to p)) = Some toTime
          /\ (News.withinWindow iso (Params.from p) (Params.to p) = true
              <-> fromTime <= articleTime <= toTime)).
Proof.
  intros p. subst p. unfold Params.parseParams.
  cbn [Params.category Params.page Params.pageSize Params.from Params.to].
  split.
  { destruct (Js.arrayIncludes Params.VALID_CATEGORIES _) eqn:E;
      [now apply arrayIncludes_In|now left]. }
  split.
  { destruct (Number _) as [| | |q]; try discriminate.
    destruct (Qle_bool 1 q) eqn:E; [now apply Qle_bool_iff|discriminate]. }
  split; [apply js_clamp_bounds|].
  split; [apply isIso_bound|]. split; [apply isIso_bound|].
  intros Hf Ht iso articleTime Hiso.
  destruct (isIso_bound _ Hf) as [fromTime Hft].
  destruct (isIso_bound _ Ht) as [toTime Htt].
  exists fromTime, toTime. split; [exact Hft|]. split; [exact Htt|].
  unfold News.withinWindow. rewrite Hf, Ht, Hiso, Hft, Htt. cbn [negb andb].
  destruct (articleTime <? fromTime) eqn:E1; destruct (toTime <? articleTime) eqn:E2;
    cbn [negb andb];
    [apply Z.ltb_lt in E1, E2|apply Z.ltb_lt in E1; apply Z.ltb_ge in E2
    |apply Z.ltb_ge in E1; apply Z.ltb_lt in E2|apply Z.ltb_ge in E1, E2];
    split; intros; try lia; try discriminate; reflexivity.
Qed.

End ParsedParams.

(** ** The earlier handler of the aggregation route *)

Section EarlierHandler.
Context `{Platform}.

(** X28.  In the earlier handler the rejection of the last provider did
    reach the client: it answers 502 exactly when the generative search is
    switched off or rejects, the web-search stage rejects and the news API
    rejects, and then reports the news API's message; in every other case it
    answers 200, and an empty list from a provider that resolved ends the
    chain.  The current handler answers 200 in every case. *)
Theorem earlier_GET_reports_exhaustion (env : News.Env) (up : News.Upstream)
    (key : string) (t0 t1 : Z) (m : News.Cache) :
  let r := Legacy.GET env up in
  let gemini_on := Js.str_eqb (Js.or_empty (News.USE_GEMINI_SEARCH env)) "true" in
  (News.httpStatus r = 502
   <-> (gemini_on = false \/ Inv.is_thrown (News.searchWithGemini up) = true)
       /\ Inv.is_thrown (News.searchWithWeb env up) = true
       /\ Inv.is_thrown (News.fallbackNewsAPISearch up) = true)
  /\ (News.httpStatus r = 502 ->
      News.status r = "error" /\ News.articles r = []
      /\ exists e, News.fallbackNewsAPISearch up = Thrown e
                   /\ News.error r
                      = Some (if News.nonempty e then e
                              else "Service unavailable - upstream providers failed"))
  /\ (News.httpStatus r <> 502 -> News.httpStatus r = 200 /\ News.status r = "ok")
  /\ (gemini_on = true -> News.searchWithGemini up = Ok [] ->
      News.httpStatus r = 200 /\ News.articles r = [])
  /\ News.httpStatus (fst (News.GET env up key t0 t1 m)) = 200.
Proof.
  intros r gemini_on. subst r gemini_on. unfold Legacy.GET.
  pose proof (GET_always_ok env up key t0 t1 m) as (Hnew & _).
  destruct (Js.str_eqb (Js.or_empty (News.USE_GEMINI_SEARCH env)) "true");
    destruct (News.searchWithGemini up) as [g|eg];
    destruct (News.searchWithWeb env up) as [w|ew];
    destruct (News.fallbackNewsAPISearch up) as [n|en];
    cbn [News.httpStatus News.status News.articles News.error Inv.is_thrown];
    repeat split; intros;
    repeat match goal with
           | Hc : _ /\ _ |- _ => destruct Hc
           | Hd : _ \/ _ |- _ => destruct Hd
           end;
    try discriminate; try congruence; try reflexivity; try exact Hnew;
    try (first [left; reflexivity | right; reflexivity]);
    try (eexists; split; [reflexivity|];
         unfold News.nonempty, Js.or_else; cbn [Js.truthy Js.or_empty];
         destruct en; reflexivity).
Qed.

End EarlierHandler.

(** ** Category keys *)

(** X29.  [normalizeCategoryKey] is a retraction onto the four categories:
    it maps the key of each category back to that category, maps every other
    text (among them "all") to corrupt-politicians, and after one application
    a second one changes nothing. *)
Theorem normalizeCategoryKey_retraction (cat : string) (c : News.Category) :
  News.normalizeCategoryKey (News.category_key c) = c
  /\ In (News.normalizeCategoryKey cat) News.CATEGORY_VALUES
  /\ ((forall c', News.category_key c' <> cat) ->
      News.normalizeCategoryKey cat = News.CorruptPoliticians)
  /\ News.normalizeCategoryKey (News.category_key (News.normalizeCategoryKey cat))
     = News.normalizeCategoryKey cat
  /\ News.normalizeCategoryKey "all" = News.CorruptPoliticians.
Proof.
  split; [apply normalizeCategoryKey_key|].
  split; [destruct (News.normalizeCategoryKey cat); simpl; tauto|].
  split; [|split; [apply normalizeCategoryKey_key|reflexivity]].
  intros Hnone. unfold News.normalizeCategoryKey.
  destruct (List.find _ News.CATEGORY_VALUES) as [c'|] eqn:Hf; [|reflexivity].
  apply List.find_some in Hf as [_ Heq]. apply String.eqb_eq in Heq.
  now destruct (Hnone c').
Qed.

(** ** The buckets of the in-memory limiter *)

Lemma POST_memory_state (u : Result Z) (now : Z) (req : Tldr.Request)
    (m : gmap string Tldr.Bucket) :
  if Tldr.has_text req
  then exists b, snd (Tldr.POST false u now req m) = <[Tldr.getClientIp req := b]> m
                 /\ (map_Forall (fun _ e => 1 <= Tldr.count e) m -> 1 <= Tldr.count b)
  else snd (Tldr.POST false u now req m) = m.
Proof.
  unfold Tldr.POST, Tldr.has_text.
  destruct (Tldr.body req) as [[[t d] c]|]; [|reflexivity].
  rewrite <- negb_orb. destruct (_ || _)%bool; cbn [negb]; [|reflexivity].
  unfold Tldr.checkRateLimit, Tldr.checkRateLimitMemory.
  change (Tldr.RL_MAX_REQUESTS <=? 0) with false. cbn [andb].
  match goal with
  | |- context [if Tldr.allowed ?r then _ else _] => destruct (Tldr.allowed r)
  end; cbn [snd]; eexists; (split; [reflexivity|]); cbn [Tldr.count];
    intros Hall;
    (destruct (m !! Tldr.getClientIp req) as [e|] eqn:He;
     [pose proof (Hall _ _ He) as Hpos; cbn beta in Hpos;
      destruct (Tldr.resetSec e <=? Tldr.nowSec now)|]; cbn [Tldr.count]; lia).
Qed.

(** X30.  The in-memory limiter never removes a bucket: after any run of
    requests the map holds a bucket for exactly the clients it held one for
    before and the clients whose requests reached the rate-limit check in the
    run (a request answered 400 creates none), and every counter stays at 1 or
    more if that held before. *)
Theorem limiter_never_forgets (reqs : list (Z * Tldr.Request))
    (m : gmap string Tldr.Bucket) :
  dom (snd (Tldr.serve reqs m)) = dom m ∪ Inv.limited_clients reqs
  /\ (map_Forall (fun _ e => 1 <= Tldr.count e) m ->
      map_Forall (fun _ e => 1 <= Tldr.count e) (snd (Tldr.serve reqs m))).
Proof.
  revert m. induction reqs as [|[t r] reqs IH]; intros m.
  - split; [|auto]. unfold Inv.limited_clients. simpl.
    symmetry. apply (right_id_L ∅ (∪)).
  - rewrite serve_cons_state.
    pose proof (POST_memory_state (Thrown "Upstash is not configured") t r m) as Hpost.
    destruct (IH (snd (Tldr.POST false (Thrown "Upstash is not configured") t r m)))
      as [Hdom Hinv].
    unfold Inv.limited_clients in *. cbn [List.filter snd].
    destruct (Tldr.has_text r).
    + destruct Hpost as (b & Hm & Hb). rewrite Hm in Hdom, Hinv |- *.
      split.
      * rewrite Hdom, dom_insert_L. cbn [map list_to_set snd].
        rewrite (comm_L (∪) {[Tldr.getClientIp r]} (dom m)).
        now rewrite <- (assoc_L (∪)).
      * intros Hall. apply Hinv. apply map_Forall_insert_2; auto.
    + rewrite Hpost in Hdom, Hinv |- *. auto.
Qed.

(** ** Worked instances *)

(** "dpwh" is a keyword of the dpwh category. *)
Lemma classifier_scores_witness :
  1 <= Inv.score_of News.Dpwh (Rss.categoryScores "DPWH probes ghost project")
    <= Rss.score (Rss.isCorruptionRelated "DPWH probes ghost project" None)
  /\ Rss.isRelevant (Rss.isCorruptionRelated "DPWH probes ghost project" None) = true.
Proof.
  destruct (classifier_scores "DPWH probes ghost project" None) as (_ & _ & Hhit & _).
  eapply (Hhit News.Dpwh _ "dpwh").
  - right. left. reflexivity.
  - left. reflexivity.
  - reflexivity.
Defined.

(** The page size is clamped, the category falls back to "all", the bound
    that parses is kept and the one that does not is dropped. *)
Lemma parseParams_valid_witness :
  let p := Params.parseParams (H := Demo.platform) Samples.number Samples.query_string in
  Params.category p = "all"
  /\ (1 <= Params.page p)%Q
  /\ (1 <= Params.pageSize p <= 50)%Q
  /\ Params.to p = None
  /\ exists t, @date_time Demo.platform (Js.or_empty (Params.from p)) = Some t.
Proof.
  intros p.
  destruct (parseParams_valid (H := Demo.platform) Samples.number Samples.query_string)
    as (_ & Hpage & Hsize & Hfrom & _).
  split; [reflexivity|]. split; [exact Hpage|]. split; [exact Hsize|].
  split; [reflexivity|]. apply Hfrom. reflexivity.
Defined.

(** Every provider rejects or finds nothing: 502 before, 200 now. *)
Lemma earlier_GET_reports_exhaustion_witness :
  News.httpStatus (Legacy.GET (H := Demo.platform) (Demo.keyed_env None) Demo.all_rejecting)
  = 502
  /\ News.error (Legacy.GET (H := Demo.platform) (Demo.keyed_env None) Demo.all_rejecting)
     = Some "NewsAPI not configured"
  /\ News.httpStatus
       (fst (News.GET (H := Demo.platform) (Demo.keyed_env None) Demo.all_rejecting
               "{category:all}" 0 10 [])) = 200.
Proof.
  destruct (earlier_GET_reports_exhaustion (H := Demo.platform) (Demo.keyed_env None)
              Demo.all_rejecting "{category:all}" 0 10 [])
    as (Hiff & Hmsg & _ & _ & Hnow).
  assert (News.httpStatus
            (Legacy.GET (H := Demo.platform) (Demo.keyed_env None) Demo.all_rejecting)
          = 502) as H502.
  { apply Hiff. split; [right; reflexivity|]. split; reflexivity. }
  split; [exact H502|]. split; [|exact Hnow].
  destruct (Hmsg H502) as (_ & _ & e & He & Herr).
  injection He as <-. exact Herr.
Defined.

Lemma limiter_never_forgets_witness :
  dom (snd (Tldr.serve Demo.burst ∅)) = dom (∅ : gmap string Tldr.Bucket)
                                         ∪ Inv.limited_clients Demo.burst
  /\ map_Forall (fun _ e => 1 <= Tldr.count e) (snd (Tldr.serve Demo.burst ∅)).
Proof.
  destruct (limiter_never_forgets Demo.burst ∅) as [Hdom Hpos].
  split; [exact Hdom|]. apply Hpos. apply map_Forall_empty.
Defined.
